(** * Project-plan extraction and inline rendering

    A shallow embedding of

    - [web/src/lib/project-plan-parser.ts] (the plan extractor and its
      structural validator),
    - [web/src/components/message.tsx] ([MessageBody], the inline renderer),
    - [server/src/routes/api/chats/index.ts] ([isProjectPlanRequest] and the
      options of the LLM call of [POST /:chatId/messages]),

    together with the pieces of the JavaScript runtime they call:
    [String.prototype.indexOf], [slice] and [trim], [JSON.parse],
    [RegExp.prototype.test].

    A JavaScript string is a sequence of UTF-16 code units; it is modelled as
    a list of code units, each a number of type [N]. *)

From Stdlib Require Import String Ascii.
From Stdlib Require Import List ZArith NArith Bool Lia.
Import ListNotations.

Set Warnings "-register-all".

(* ===================================================================== *)
(** * JavaScript strings *)
(* ===================================================================== *)

Definition codeunit := N.
Definition jsstring := list codeunit.

(** A string literal of the source, as code units. *)
Definition lit (s : string) : jsstring :=
  map N_of_ascii (list_ascii_of_string s).

(** The same with every apostrophe read as a double quote, to write JSON
    texts legibly. *)
Definition jlit (s : string) : jsstring :=
  map (fun c => if (c =? 39)%N then 34%N else c) (lit s).

Fixpoint jsstring_eqb (a b : jsstring) : bool :=
  match a, b with
  | [], [] => true
  | x :: a', y :: b' => (x =? y)%N && jsstring_eqb a' b'
  | _, _ => false
  end.

(** [WhiteSpace] and [LineTerminator] of ECMAScript: what [trim] strips and
    what the regular expression class [\s] matches. *)
Definition isWhiteSpace (c : codeunit) : bool :=
  ((c =? 9) || (c =? 10) || (c =? 11) || (c =? 12) || (c =? 13) || (c =? 32)
   || (c =? 160) || (c =? 5760) || ((8192 <=? c) && (c <=? 8202))
   || (c =? 8232) || (c =? 8233) || (c =? 8239) || (c =? 8287)
   || (c =? 12288) || (c =? 65279))%N.

Fixpoint trimStart (s : jsstring) : jsstring :=
  match s with
  | [] => []
  | c :: s' => if isWhiteSpace c then trimStart s' else s
  end.

Definition trimEnd (s : jsstring) : jsstring := rev (trimStart (rev s)).

(** [s.trim()] *)
Definition trim (s : jsstring) : jsstring := trimEnd (trimStart s).

(** [pat] is a prefix of [s]. *)
Fixpoint startsWith (pat s : jsstring) : bool :=
  match pat, s with
  | [], _ => true
  | _ :: _, [] => false
  | p :: pat', c :: s' => (p =? c)%N && startsWith pat' s'
  end.

Fixpoint indexOf_from (pat s : jsstring) (k : Z) : Z :=
  if startsWith pat s then k
  else match s with
       | [] => (-1)%Z
       | _ :: s' => indexOf_from pat s' (k + 1)%Z
       end.

(** [s.indexOf(pat)]: the least position at which [pat] occurs, or [-1]. *)
Definition indexOf (s pat : jsstring) : Z := indexOf_from pat s 0%Z.

(** A relative index of [slice], clamped as [String.prototype.slice] does:
    negative indices count from the end. *)
Definition clampIndex (len i : Z) : Z :=
  (if i <? 0 then Z.max (len + i) 0 else Z.min i len)%Z.

(** [s.slice(from, to)]; [to] is [None] when the argument is omitted. *)
Definition slice (s : jsstring) (from : Z) (to : option Z) : jsstring :=
  let len := Z.of_nat (length s) in
  let a := clampIndex len from in
  let b := match to with
           | None => len
           | Some e => clampIndex len e
           end in
  firstn (Z.to_nat (Z.max (b - a) 0)) (skipn (Z.to_nat a) s).

(* ===================================================================== *)
(** * JavaScript values *)
(* ===================================================================== *)

(** The values of type [unknown] that reach this code: [undefined] and what
    [JSON.parse] builds.  A number keeps the literal it was read from: no
    function of this development looks inside a number, so its conversion to
    a double is not modelled.  An object is the list of its own properties in
    creation order, with distinct keys when built by [JSON.parse]. *)
Unset Elimination Schemes.
Inductive JsValue : Type :=
| JUndefined
| JNull
| JBool (b : bool)
| JNumber (lexeme : jsstring)
| JString (s : jsstring)
| JArray (items : list JsValue)
| JObject (props : list (jsstring * JsValue)).
Set Elimination Schemes.

(** Induction on values, through the arrays and objects they nest. *)
Section ValueInduction.
Variable P : JsValue -> Prop.
Hypothesis P_undefined : P JUndefined.
Hypothesis P_null : P JNull.
Hypothesis P_bool : forall b, P (JBool b).
Hypothesis P_number : forall lexeme, P (JNumber lexeme).
Hypothesis P_string : forall s, P (JString s).
Hypothesis P_array : forall items, Forall P items -> P (JArray items).
Hypothesis P_object :
  forall props, Forall (fun kv => P (snd kv)) props -> P (JObject props).

Fixpoint JsValue_ind (v : JsValue) : P v :=
  match v with
  | JUndefined => P_undefined
  | JNull => P_null
  | JBool b => P_bool b
  | JNumber lexeme => P_number lexeme
  | JString s => P_string s
  | JArray items =>
      P_array items
        ((fix all (l : list JsValue) : Forall P l :=
            match l with
            | [] => Forall_nil P
            | x :: l' => Forall_cons x (JsValue_ind x) (all l')
            end) items)
  | JObject props =>
      P_object props
        ((fix all (l : list (jsstring * JsValue))
            : Forall (fun kv => P (snd kv)) l :=
            match l with
            | [] => Forall_nil _
            | kv :: l' =>
                Forall_cons kv
                  (match kv as kv0 return P (snd kv0) with
                   | (_, x) => JsValue_ind x
                   end)
                  (all l')
            end) props)
  end.
End ValueInduction.

Inductive JsType := TUndefined | TObject | TBoolean | TNumber | TString.

Definition JsType_eqb (a b : JsType) : bool :=
  match a, b with
  | TUndefined, TUndefined | TObject, TObject | TBoolean, TBoolean
  | TNumber, TNumber | TString, TString => true
  | _, _ => false
  end.

(** [typeof v] *)
Definition typeof (v : JsValue) : JsType :=
  match v with
  | JUndefined => TUndefined
  | JNull => TObject
  | JBool _ => TBoolean
  | JNumber _ => TNumber
  | JString _ => TString
  | JArray _ => TObject
  | JObject _ => TObject
  end.

(** Some digit other than [0] before the exponent: the number is not zero
    (a literal that underflows to zero is counted as non-zero here; no
    caller can tell, a number never has type ["object"]). *)
Fixpoint mantissaNonZero (lexeme : jsstring) : bool :=
  match lexeme with
  | [] => false
  | c :: r =>
      if ((c =? 101) || (c =? 69))%N then false
      else ((49 <=? c) && (c <=? 57))%N || mantissaNonZero r
  end.

(** [ToBoolean]: the truthiness tested by [!v] and [v && ...]. *)
Definition truthy (v : JsValue) : bool :=
  match v with
  | JUndefined => false
  | JNull => false
  | JBool b => b
  | JNumber lexeme => mantissaNonZero lexeme
  | JString s => negb (Nat.eqb (length s) 0)
  | JArray _ => true
  | JObject _ => true
  end.

Fixpoint lookup (k : jsstring) (props : list (jsstring * JsValue))
  : option JsValue :=
  match props with
  | [] => None
  | (k', v) :: rest => if jsstring_eqb k k' then Some v else lookup k rest
  end.

(** The property read [v.k], for the names this code reads ([workstreams],
    [title], [description], [deliverables]): an own property of an object;
    [undefined] on an array, which has none of these names, and on an object
    without the property. *)
Definition getProp (v : JsValue) (k : jsstring) : JsValue :=
  match v with
  | JObject props =>
      match lookup k props with
      | Some x => x
      | None => JUndefined
      end
  | _ => JUndefined
  end.

(** [Array.isArray(v)] *)
Definition isArray (v : JsValue) : bool :=
  match v with
  | JArray _ => true
  | _ => false
  end.

(** [arr.every(f)], on a value already known to be an array
    ([false] otherwise, where the source short-circuits on [isArray]). *)
Definition every (f : JsValue -> bool) (v : JsValue) : bool :=
  match v with
  | JArray items => forallb f items
  | _ => false
  end.

(* ===================================================================== *)
(** * The structural validator ([project-plan-parser.ts], lines 25-52) *)
(* ===================================================================== *)

Definition TITLE : jsstring := lit "title".
Definition DESCRIPTION : jsstring := lit "description".
Definition DELIVERABLES : jsstring := lit "deliverables".
Definition WORKSTREAMS : jsstring := lit "workstreams".

(** [typeof v === "string" && v.trim().length > 0] *)
Definition isNonEmptyString (v : JsValue) : bool :=
  match v with
  | JString s => (0 <? Z.of_nat (length (trim s)))%Z
  | _ => false
  end.

Definition isDeliverable (v : JsValue) : bool :=
  if negb (truthy v) || negb (JsType_eqb (typeof v) TObject) then false
  else
    let d := v in
    isNonEmptyString (getProp d TITLE)
    && isNonEmptyString (getProp d DESCRIPTION).

Definition isWorkstream (v : JsValue) : bool :=
  if negb (truthy v) || negb (JsType_eqb (typeof v) TObject) then false
  else
    let w := v in
    let deliverables := getProp w DELIVERABLES in
    isNonEmptyString (getProp w TITLE)
    && isNonEmptyString (getProp w DESCRIPTION)
    && isArray deliverables
    && every isDeliverable deliverables.

Definition isProjectPlan (v : JsValue) : bool :=
  if negb (truthy v) || negb (JsType_eqb (typeof v) TObject) then false
  else
    let p := v in
    let workstreams := getProp p WORKSTREAMS in
    isArray workstreams && every isWorkstream workstreams.

(* ===================================================================== *)
(** * Exceptions *)
(* ===================================================================== *)

Inductive Exn := SyntaxError.

(** The completion of an evaluation: a value, or a thrown exception. *)
Inductive completion (A : Type) : Type :=
| Normal (a : A)
| Throw (e : Exn).
Arguments Normal {A} a.
Arguments Throw {A} e.

Definition bind {A B : Type} (c : completion A) (k : A -> completion B)
  : completion B :=
  match c with
  | Normal a => k a
  | Throw e => Throw e
  end.

(** [try { body } catch { handler }] *)
Definition tryCatch {A : Type} (body handler : completion A) : completion A :=
  match body with
  | Normal a => Normal a
  | Throw _ => handler
  end.

Notation "x <- c ;; k" := (bind c (fun x => k))
  (at level 61, c at next level, right associativity).

(* ===================================================================== *)
(** * [JSON.parse] (ECMAScript, JSON grammar of ECMA-404) *)
(* ===================================================================== *)

(** JSON white space: tab, line feed, carriage return, space. *)
Definition isJsonWs (c : codeunit) : bool :=
  ((c =? 9) || (c =? 10) || (c =? 13) || (c =? 32))%N.

Fixpoint skipWs (s : jsstring) : jsstring :=
  match s with
  | [] => []
  | c :: r => if isJsonWs c then skipWs r else s
  end.

Definition isDigit (c : codeunit) : bool := ((48 <=? c) && (c <=? 57))%N.

Definition hexVal (c : codeunit) : option N :=
  if ((48 <=? c) && (c <=? 57))%N then Some (c - 48)%N
  else if ((97 <=? c) && (c <=? 102))%N then Some (c - 87)%N
  else if ((65 <=? c) && (c <=? 70))%N then Some (c - 55)%N
  else None.

Definition hex4 (a b c d : codeunit) : option codeunit :=
  match hexVal a, hexVal b, hexVal c, hexVal d with
  | Some x, Some y, Some z, Some w => Some (4096 * x + 256 * y + 16 * z + w)%N
  | _, _, _, _ => None
  end.

(** The character a one-letter escape stands for. *)
Definition unescape (e : codeunit) : option codeunit :=
  if (e =? 34)%N then Some 34%N
  else if (e =? 92)%N then Some 92%N
  else if (e =? 47)%N then Some 47%N
  else if (e =? 98)%N then Some 8%N
  else if (e =? 102)%N then Some 12%N
  else if (e =? 110)%N then Some 10%N
  else if (e =? 114)%N then Some 13%N
  else if (e =? 116)%N then Some 9%N
  else None.

(** The characters of a string literal, after its opening quote, up to and
    including the closing quote. *)
Fixpoint parseChars (s : jsstring) : option (jsstring * jsstring) :=
  match s with
  | [] => None
  | c :: r =>
      if (c =? 34)%N then Some ([], r)
      else if (c =? 92)%N then
        match r with
        | [] => None
        | e :: r1 =>
            if (e =? 117)%N then
              match r1 with
              | h1 :: h2 :: h3 :: h4 :: r2 =>
                  match hex4 h1 h2 h3 h4 with
                  | Some u =>
                      match parseChars r2 with
                      | Some (str, rest) => Some (u :: str, rest)
                      | None => None
                      end
                  | None => None
                  end
              | _ => None
              end
            else
              match unescape e with
              | Some u =>
                  match parseChars r1 with
                  | Some (str, rest) => Some (u :: str, rest)
                  | None => None
                  end
              | None => None
              end
        end
      else if (c <? 32)%N then None
      else
        match parseChars r with
        | Some (str, rest) => Some (c :: str, rest)
        | None => None
        end
  end.

Fixpoint digits (s : jsstring) : jsstring * jsstring :=
  match s with
  | [] => ([], [])
  | c :: r =>
      if isDigit c then let (ds, rest) := digits r in (c :: ds, rest)
      else ([], s)
  end.

Definition scanSign (s : jsstring) : jsstring * jsstring :=
  match s with
  | c :: r => if (c =? 45)%N then ([c], r) else ([], s)
  | [] => ([], s)
  end.

Definition scanInt (s : jsstring) : option (jsstring * jsstring) :=
  match s with
  | [] => None
  | c :: r =>
      if (c =? 48)%N then Some ([c], r)
      else if isDigit c then let (ds, rest) := digits r in Some (c :: ds, rest)
      else None
  end.

Definition scanFrac (s : jsstring) : option (jsstring * jsstring) :=
  match s with
  | [] => Some ([], s)
  | c :: r =>
      if (c =? 46)%N then
        match digits r with
        | ([], _) => None
        | (ds, rest) => Some (c :: ds, rest)
        end
      else Some ([], s)
  end.

Definition scanExpSign (s : jsstring) : jsstring * jsstring :=
  match s with
  | c :: r => if ((c =? 43) || (c =? 45))%N then ([c], r) else ([], s)
  | [] => ([], s)
  end.

Definition scanExp (s : jsstring) : option (jsstring * jsstring) :=
  match s with
  | [] => Some ([], s)
  | c :: r =>
      if ((c =? 101) || (c =? 69))%N then
        let (sg, r1) := scanExpSign r in
        match digits r1 with
        | ([], _) => None
        | (ds, rest) => Some (c :: sg ++ ds, rest)
        end
      else Some ([], s)
  end.

(** A number literal: [-? int frac? exp?]. *)
Definition scanNumber (s : jsstring) : option (jsstring * jsstring) :=
  let (sg, s1) := scanSign s in
  match scanInt s1 with
  | None => None
  | Some (i, s2) =>
      match scanFrac s2 with
      | None => None
      | Some (f, s3) =>
          match scanExp s3 with
          | None => None
          | Some (e, s4) => Some (sg ++ i ++ f ++ e, s4)
          end
      end
  end.

(** [CreateDataProperty]: a repeated key overwrites the earlier value and
    keeps its place. *)
Fixpoint objSet (k : jsstring) (v : JsValue) (o : list (jsstring * JsValue))
  : list (jsstring * JsValue) :=
  match o with
  | [] => [(k, v)]
  | (k', v') :: o' =>
      if jsstring_eqb k k' then (k, v) :: o' else (k', v') :: objSet k v o'
  end.

Definition buildObject (members : list (jsstring * JsValue))
  : list (jsstring * JsValue) :=
  fold_left (fun o kv => objSet (fst kv) (snd kv) o) members [].

Section Containers.
(** The parser of one value, at the nesting depth below. *)
Variable pv : jsstring -> option (JsValue * jsstring).

(** The elements of an array after its opening bracket, the array not
    being empty; [n] bounds the number of elements. *)
Fixpoint parseElements (n : nat) (s : jsstring)
  : option (list JsValue * jsstring) :=
  match n with
  | O => None
  | S n' =>
      match pv s with
      | None => None
      | Some (v, r) =>
          match skipWs r with
          | [] => None
          | c :: r' =>
              if (c =? 44)%N then
                match parseElements n' r' with
                | Some (vs, rest) => Some (v :: vs, rest)
                | None => None
                end
              else if (c =? 93)%N then Some ([v], r')
              else None
          end
      end
  end.

(** The members of an object after its opening brace, the object not
    being empty. *)
Fixpoint parseMembers (n : nat) (s : jsstring)
  : option (list (jsstring * JsValue) * jsstring) :=
  match n with
  | O => None
  | S n' =>
      match skipWs s with
      | [] => None
      | q :: r0 =>
          if (q =? 34)%N then
            match parseChars r0 with
            | None => None
            | Some (k, r1) =>
                match skipWs r1 with
                | [] => None
                | colon :: r2 =>
                    if (colon =? 58)%N then
                      match pv r2 with
                      | None => None
                      | Some (v, r3) =>
                          match skipWs r3 with
                          | [] => None
                          | c :: r4 =>
                              if (c =? 44)%N then
                                match parseMembers n' r4 with
                                | Some (ms, rest) => Some ((k, v) :: ms, rest)
                                | None => None
                                end
                              else if (c =? 125)%N then Some ([(k, v)], r4)
                              else None
                          end
                      end
                    else None
                end
            end
          else None
      end
  end.
End Containers.

(** One JSON value, white space before it skipped; [fuel] bounds the nesting
    depth. *)
Fixpoint parseValue (fuel : nat) (s : jsstring)
  : option (JsValue * jsstring) :=
  match fuel with
  | O => None
  | S fuel' =>
      match skipWs s with
      | [] => None
      | c :: r =>
          if (c =? 91)%N then
            match skipWs r with
            | [] => None
            | c' :: r' =>
                if (c' =? 93)%N then Some (JArray [], r')
                else
                  match parseElements (parseValue fuel') (length r) r with
                  | Some (vs, rest) => Some (JArray vs, rest)
                  | None => None
                  end
            end
          else if (c =? 123)%N then
            match skipWs r with
            | [] => None
            | c' :: r' =>
                if (c' =? 125)%N then Some (JObject [], r')
                else
                  match parseMembers (parseValue fuel') (length r) r with
                  | Some (ms, rest) => Some (JObject (buildObject ms), rest)
                  | None => None
                  end
            end
          else if (c =? 34)%N then
            match parseChars r with
            | Some (str, rest) => Some (JString str, rest)
            | None => None
            end
          else if startsWith (lit "true") (c :: r) then
            Some (JBool true, skipn 4 (c :: r))
          else if startsWith (lit "false") (c :: r) then
            Some (JBool false, skipn 5 (c :: r))
          else if startsWith (lit "null") (c :: r) then
            Some (JNull, skipn 4 (c :: r))
          else
            match scanNumber (c :: r) with
            | Some (lexeme, rest) => Some (JNumber lexeme, rest)
            | None => None
            end
      end
  end.

(** [JSON.parse(text)]: one value, white space around it, nothing else;
    a [SyntaxError] otherwise.  The nesting depth of a text is below its
    length. *)
Definition JSON_parse (text : jsstring) : completion JsValue :=
  match parseValue (S (length text)) text with
  | Some (v, rest) =>
      match skipWs rest with
      | [] => Normal v
      | _ :: _ => Throw SyntaxError
      end
  | None => Throw SyntaxError
  end.

(* ===================================================================== *)
(** * The extractor ([project-plan-parser.ts], lines 54-87) *)
(* ===================================================================== *)

Definition OPEN : jsstring := lit "<project_plan>".
Definition CLOSE : jsstring := lit "</project_plan>".

Record ParsedProjectPlanMessage := {
  beforeText : jsstring;
  afterText : jsstring;
  projectPlan : option JsValue   (* [None] is [null] *)
}.

Record Tagged := {
  t_beforeText : jsstring;
  t_jsonText : jsstring;
  t_afterText : jsstring
}.

Definition splitByProjectPlanTag (content : jsstring) : option Tagged :=
  let start := indexOf content OPEN in
  let end_ := indexOf content CLOSE in
  if ((start =? -1) || (end_ =? -1) || (end_ <=? start))%Z then None
  else
    let beforeText := slice content 0 (Some start) in
    let jsonText :=
      trim (slice content (start + Z.of_nat (length OPEN)) (Some end_)) in
    let afterText := slice content (end_ + Z.of_nat (length CLOSE)) None in
    Some {| t_beforeText := beforeText;
            t_jsonText := jsonText;
            t_afterText := afterText |}.

(** [parseProjectPlanMessage({content, projectPlan})]; an omitted
    [projectPlan] is [JUndefined]. *)
Definition parseProjectPlanMessage (content : jsstring) (projectPlan : JsValue)
  : completion ParsedProjectPlanMessage :=
  match splitByProjectPlanTag content with
  | Some tagged =>
      tryCatch
        (parsed <- JSON_parse (t_jsonText tagged) ;;
         Normal {| beforeText := t_beforeText tagged;
                   afterText := t_afterText tagged;
                   projectPlan :=
                     if isProjectPlan parsed then Some parsed else None |})
        (Normal {| beforeText := content;
                   afterText := [];
                   projectPlan := None |})
  | None =>
      if truthy projectPlan && isProjectPlan projectPlan then
        Normal {| beforeText := content;
                  afterText := [];
                  projectPlan := Some projectPlan |}
      else
        Normal {| beforeText := content;
                  afterText := [];
                  projectPlan := None |}
  end.

(* ===================================================================== *)
(** * The inline renderer ([MessageBody] of [message.tsx]) *)
(* ===================================================================== *)

Inductive Role := User | Assistant.

Record Message := {
  role : Role;
  content : jsstring;
  m_projectPlan : JsValue   (* [JUndefined] when the field is omitted *)
}.

(** The children of the [div] that [MessageBody] returns. *)
Inductive Region :=
| TextRegion (value : jsstring)
| PlanRegion (plan : JsValue).

(** [cond && <element/>] inside JSX: the element, or nothing. *)
Definition renderIf (cond : bool) (r : Region) : list Region :=
  if cond then [r] else [].

Definition MessageBody (message : Message) : completion (list Region) :=
  parsed <- parseProjectPlanMessage (content message) (m_projectPlan message) ;;
  Normal
    (renderIf (0 <? Z.of_nat (length (trim (beforeText parsed))))%Z
       (TextRegion (trim (beforeText parsed)))
     ++ match projectPlan parsed with
        | Some plan => renderIf (truthy plan) (PlanRegion plan)
        | None => []
        end
     ++ renderIf (0 <? Z.of_nat (length (trim (afterText parsed))))%Z
          (TextRegion (trim (afterText parsed)))).

(* ===================================================================== *)
(** * Regular expressions ([RegExp.prototype.test]) *)
(* ===================================================================== *)

Inductive regex :=
| RVoid                       (* matches nothing *)
| REps                        (* the empty pattern *)
| RChar (c : codeunit)        (* a pattern character *)
| RSpace                      (* [\s] *)
| RSeq (r1 r2 : regex)
| RAlt (r1 r2 : regex)
| RStar (r : regex).

(** [r+] *)
Definition RPlus (r : regex) : regex := RSeq r (RStar r).

Record RegExp := {
  source : regex;
  ignoreCase : bool
}.

(** [Canonicalize] without the [u] flag, on the code units below 128: a
    lower-case letter becomes its upper-case letter.  A code unit from 128 on
    never canonicalizes to one below 128, and is left as it is. *)
Definition canonicalize (i : bool) (c : codeunit) : codeunit :=
  if i && ((97 <=? c) && (c <=? 122))%N then (c - 32)%N else c.

Definition charMatches (i : bool) (pc c : codeunit) : bool :=
  (canonicalize i pc =? canonicalize i c)%N.

Fixpoint nullable (r : regex) : bool :=
  match r with
  | RVoid => false
  | REps => true
  | RChar _ => false
  | RSpace => false
  | RSeq r1 r2 => nullable r1 && nullable r2
  | RAlt r1 r2 => nullable r1 || nullable r2
  | RStar _ => true
  end.

(** What remains of [r] to match once [c] was read. *)
Fixpoint deriv (i : bool) (c : codeunit) (r : regex) : regex :=
  match r with
  | RVoid => RVoid
  | REps => RVoid
  | RChar pc => if charMatches i pc c then REps else RVoid
  | RSpace => if isWhiteSpace c then REps else RVoid
  | RSeq r1 r2 =>
      if nullable r1 then RAlt (RSeq (deriv i c r1) r2) (deriv i c r2)
      else RSeq (deriv i c r1) r2
  | RAlt r1 r2 => RAlt (deriv i c r1) (deriv i c r2)
  | RStar r1 => RSeq (deriv i c r1) (RStar r1)
  end.

(** Some prefix of [s] matches [r]. *)
Fixpoint matchesPrefix (i : bool) (r : regex) (s : jsstring) : bool :=
  nullable r
  || match s with
     | [] => false
     | c :: s' => matchesPrefix i (deriv i c r) s'
     end.

Fixpoint searchFrom (i : bool) (r : regex) (s : jsstring) : bool :=
  matchesPrefix i r s
  || match s with
     | [] => false
     | _ :: s' => searchFrom i r s'
     end.

(** [re.test(s)], for a pattern without the [g] and [y] flags: a match
    starting at some position of [s]. *)
Definition regexTest (re : RegExp) (s : jsstring) : bool :=
  searchFrom (ignoreCase re) (source re) s.

(** The pattern matching the characters of [w] in sequence. *)
Fixpoint RWord (w : jsstring) : regex :=
  match w with
  | [] => REps
  | c :: w' => RSeq (RChar c) (RWord w')
  end.

(* ===================================================================== *)
(** * Plan-request detection ([routes/api/chats/index.ts]) *)
(* ===================================================================== *)

(** [/project\s+plan/i] *)
Definition PROJECT_PLAN_RE : RegExp :=
  {| source := RSeq (RWord (lit "project"))
                 (RSeq (RPlus RSpace) (RWord (lit "plan")));
     ignoreCase := true |}.

Definition isProjectPlanRequest (text : jsstring) : bool :=
  regexTest PROJECT_PLAN_RE text.

(** [lines.join(sep)] *)
Fixpoint join (sep : jsstring) (lines : list jsstring) : jsstring :=
  match lines with
  | [] => []
  | [l] => l
  | l :: rest => l ++ sep ++ join sep rest
  end.

Definition buildProjectPlanSystemPrompt : jsstring :=
  join [10%N]
    [ lit "When (and only when) the user is requesting a project plan, you MUST include exactly one <project_plan>...</project_plan> block inside your response.";
      lit "The content inside <project_plan> must be valid JSON (no markdown fences) with this schema:";
      jlit "{'workstreams':[{'title':string,'description':string,'deliverables':[{'title':string,'description':string}]}]}";
      lit "Outside the <project_plan> block, respond normally with helpful natural language.";
      lit "The <project_plan> block MAY appear in the middle of your message (include 1-2 sentences before and after it).";
      lit "Do not include any other <project_plan> blocks. Do not put any extra text inside the tags besides JSON." ].

(** The part of a stored chat that the message route reads for the call. *)
Record Chat := {
  llmProvider : option jsstring;
  llmModel : option jsstring
}.

(** The second argument of [provider.sendMessage]. *)
Record SendOptions := {
  systemPrompt : option jsstring;   (* [None] is [undefined] *)
  model : option jsstring
}.

(** What [POST /:chatId/messages] does with a request, up to the call of the
    provider: an error reply, or the call with these options. *)
Inductive HandlerStep :=
| ReplyError (code : Z)
| CallProvider (options : SendOptions).

(** [chat] is the result of [chatStore.getChat(chatId)]. *)
Definition postMessage (chat : option Chat) (content : jsstring)
  : HandlerStep :=
  if negb (truthy (JString content))
     || (Z.of_nat (length (trim content)) =? 0)%Z
  then ReplyError 400
  else
    match chat with
    | None => ReplyError 404
    | Some ch =>
        let wantsProjectPlan := isProjectPlanRequest content in
        CallProvider
          {| systemPrompt :=
               if wantsProjectPlan then Some buildProjectPlanSystemPrompt
               else None;
             model := llmModel ch |}
    end.

(* ===================================================================== *)
(** * The plan schema ([types/project-plan.ts]) and JSON texts of plans *)
(* ===================================================================== *)

Record Deliverable := {
  d_title : jsstring;
  d_description : jsstring
}.

Record Workstream := {
  w_title : jsstring;
  w_description : jsstring;
  w_deliverables : list Deliverable
}.

Record ProjectPlan := {
  workstreams : list Workstream
}.

(** The invariants of the data model: every title and description is
    non-empty after trimming. *)
Definition nonBlank (s : jsstring) : bool :=
  negb (Nat.eqb (length (trim s)) 0).

Definition validDeliverable (d : Deliverable) : bool :=
  nonBlank (d_title d) && nonBlank (d_description d).

Definition validWorkstream (w : Workstream) : bool :=
  nonBlank (w_title w) && nonBlank (w_description w)
  && forallb validDeliverable (w_deliverables w).

Definition validPlan (p : ProjectPlan) : bool :=
  forallb validWorkstream (workstreams p).

(** The JavaScript object of a plan. *)
Definition valueOfDeliverable (d : Deliverable) : JsValue :=
  JObject [ (TITLE, JString (d_title d));
            (DESCRIPTION, JString (d_description d)) ].

Definition valueOfWorkstream (w : Workstream) : JsValue :=
  JObject [ (TITLE, JString (w_title w));
            (DESCRIPTION, JString (w_description w));
            (DELIVERABLES, JArray (map valueOfDeliverable (w_deliverables w))) ].

Definition valueOfPlan (p : ProjectPlan) : JsValue :=
  JObject [ (WORKSTREAMS, JArray (map valueOfWorkstream (workstreams p))) ].

Definition hexDigit (n : N) : codeunit :=
  if (n <? 10)%N then (48 + n)%N else (87 + n)%N.

(** One character inside a JSON string literal, as [JSON.stringify] writes
    it. *)
Definition quoteChar (c : codeunit) : jsstring :=
  if (c =? 34)%N then [92; 34]%N
  else if (c =? 92)%N then [92; 92]%N
  else if (c =? 8)%N then [92; 98]%N
  else if (c =? 9)%N then [92; 116]%N
  else if (c =? 10)%N then [92; 110]%N
  else if (c =? 12)%N then [92; 102]%N
  else if (c =? 13)%N then [92; 114]%N
  else if (c <? 32)%N then
    [92; 117; 48; 48; hexDigit (c / 16); hexDigit (c mod 16)]%N
  else [c].

Definition quoteJSONString (s : jsstring) : jsstring :=
  34%N :: flat_map quoteChar s ++ [34%N].

(** The compact JSON text of a value, in the layout of [JSON.stringify]:
    no white space, members in creation order.  ([undefined] is written
    [null], as [JSON.stringify] does for an array element.) *)
Fixpoint stringify (v : JsValue) : jsstring :=
  match v with
  | JUndefined => lit "null"
  | JNull => lit "null"
  | JBool true => lit "true"
  | JBool false => lit "false"
  | JNumber lexeme => lexeme
  | JString s => quoteJSONString s
  | JArray items =>
      [91%N] ++ join [44%N] (map stringify items) ++ [93%N]
  | JObject props =>
      [123%N]
      ++ join [44%N]
           (map (fun kv => quoteJSONString (fst kv) ++ [58%N] ++ stringify (snd kv))
              props)
      ++ [125%N]
  end.

(** The text of one member of an object. *)
Definition memberText (kv : jsstring * JsValue) : jsstring :=
  quoteJSONString (fst kv) ++ [58%N] ++ stringify (snd kv).

(** [validJsonOf(plan)] of the specification: the JSON text of the plan. *)
Definition validJsonOf (p : ProjectPlan) : jsstring :=
  stringify (valueOfPlan p).

(** [text.toLowerCase()], on the letters A to Z. *)
Definition toLowerAscii (c : codeunit) : codeunit :=
  if ((65 <=? c) && (c <=? 90))%N then (c + 32)%N else c.

(** The reading of the specification for plan-request detection: [phrase],
    in lower case, is a substring of the text folded to lower case. *)
Definition containsIgnoreCase (text phrase : jsstring) : bool :=
  (0 <=? indexOf (map toLowerAscii text) phrase)%Z.

(* ===================================================================== *)
(** * The specification's reading of the validator *)
(* ===================================================================== *)

(** A string that is non-empty after trimming. *)
Definition NonEmptyText (v : JsValue) : Prop :=
  exists s, v = JString s /\ trim s <> [].

(** A record with [title] and [description] non-empty strings. *)
Definition DeliverableShape (v : JsValue) : Prop :=
  exists props t d,
    v = JObject props
    /\ lookup TITLE props = Some t /\ NonEmptyText t
    /\ lookup DESCRIPTION props = Some d /\ NonEmptyText d.

(** A record with [title] and [description] non-empty strings and
    [deliverables] an array of deliverables. *)
Definition WorkstreamShape (v : JsValue) : Prop :=
  exists props t d ds,
    v = JObject props
    /\ lookup TITLE props = Some t /\ NonEmptyText t
    /\ lookup DESCRIPTION props = Some d /\ NonEmptyText d
    /\ lookup DELIVERABLES props = Some (JArray ds)
    /\ Forall DeliverableShape ds.

(** A record whose [workstreams] field is an array of workstreams. *)
Definition ProjectPlanShape (v : JsValue) : Prop :=
  exists props ws,
    v = JObject props
    /\ lookup WORKSTREAMS props = Some (JArray ws)
    /\ Forall WorkstreamShape ws.

(** [v] is the object of the deliverable [d], with any further fields. *)
Definition extendsDeliverable (d : Deliverable) (v : JsValue) : Prop :=
  exists props,
    v = JObject props
    /\ lookup TITLE props = Some (JString (d_title d))
    /\ lookup DESCRIPTION props = Some (JString (d_description d)).

Definition extendsWorkstream (w : Workstream) (v : JsValue) : Prop :=
  exists props ds,
    v = JObject props
    /\ lookup TITLE props = Some (JString (w_title w))
    /\ lookup DESCRIPTION props = Some (JString (w_description w))
    /\ lookup DELIVERABLES props = Some (JArray ds)
    /\ Forall2 extendsDeliverable (w_deliverables w) ds.

(** [v] is the object of the plan [p], where the plan, its workstreams and
    its deliverables may carry fields beyond those of the schema. *)
Definition extendsPlan (p : ProjectPlan) (v : JsValue) : Prop :=
  exists props ws,
    v = JObject props
    /\ lookup WORKSTREAMS props = Some (JArray ws)
    /\ Forall2 extendsWorkstream (workstreams p) ws.

(** A side-channel plan was supplied. *)
Definition supplied (v : JsValue) : bool :=
  match v with
  | JUndefined => false
  | _ => true
  end.

Definition OPEN_tail : jsstring := lit "project_plan>".
Definition CLOSE_tail : jsstring := lit "/project_plan>".

(* ===================================================================== *)
(** * What a regular expression matches *)
(* ===================================================================== *)

(** [matches i r s]: the whole of [s] matches [r], with case ignored when
    [i] is set. *)
Inductive matches (i : bool) : regex -> jsstring -> Prop :=
| MEps : matches i REps []
| MChar pc c : charMatches i pc c = true -> matches i (RChar pc) [c]
| MSpace c : isWhiteSpace c = true -> matches i RSpace [c]
| MSeq r1 r2 s1 s2 :
    matches i r1 s1 -> matches i r2 s2 -> matches i (RSeq r1 r2) (s1 ++ s2)
| MAltL r1 r2 s : matches i r1 s -> matches i (RAlt r1 r2) s
| MAltR r1 r2 s : matches i r2 s -> matches i (RAlt r1 r2) s
| MStarNil r : matches i (RStar r) []
| MStarCons r s1 s2 :
    matches i r s1 -> matches i (RStar r) s2 -> matches i (RStar r) (s1 ++ s2).
Arguments MSeq {i r1 r2 s1 s2} _ _.
Arguments MStarCons {i r s1 s2} _ _.

(** The text holds, in any letter case, [project], then one or more
    white-space characters, then [plan]. *)
Definition mentionsProjectPlan (text : jsstring) : Prop :=
  exists a p w q b,
    text = a ++ p ++ w ++ q ++ b
    /\ map toLowerAscii p = lit "project"
    /\ w <> []
    /\ Forall (fun c => isWhiteSpace c = true) w
    /\ map toLowerAscii q = lit "plan".

(** The system prompt of the provider call a request leads to, if any. *)
Definition attachedPrompt (step : HandlerStep) : option jsstring :=
  match step with
  | CallProvider options => systemPrompt options
  | ReplyError _ => None
  end.

Definition isLowerLetter (c : codeunit) : Prop := (97 <= c <= 122)%N.

(* ===================================================================== *)
(** * Texts that [JSON.parse] reads back *)
(* ===================================================================== *)

(** The values whose JSON text reads back as the value itself: no
    [undefined], no number (a number is the literal it was read from),
    and no key twice in an object. *)
Inductive plainJson : JsValue -> Prop :=
| plain_null : plainJson JNull
| plain_bool b : plainJson (JBool b)
| plain_string s : plainJson (JString s)
| plain_array items : Forall plainJson items -> plainJson (JArray items)
| plain_object props :
    NoDup (map fst props) ->
    Forall (fun kv => plainJson (snd kv)) props ->
    plainJson (JObject props).

(** A parser of values that consumes at least one character. *)
Definition progresses (pv : jsstring -> option (JsValue * jsstring)) : Prop :=
  forall s v r, pv s = Some (v, r) -> (length r < length s)%nat.

(* ===================================================================== *)
(** * Regions *)
(* ===================================================================== *)

(** The trimmed text between the first opening and the first closing
    sentinel. *)
Definition payloadOf (content : jsstring) : jsstring :=
  trim (slice content (indexOf content OPEN + Z.of_nat (length OPEN))
          (Some (indexOf content CLOSE))).

(** The text region of [text], or nothing when it is blank. *)
Definition textRegion (text : jsstring) : list Region :=
  match trim text with
  | [] => []
  | _ :: _ => [TextRegion (trim text)]
  end.

(** The plan region, or nothing when there is no plan. *)
Definition planRegion (plan : option JsValue) : list Region :=
  match plan with
  | Some p => [PlanRegion p]
  | None => []
  end.

(* ===================================================================== *)
(** * Sample inputs *)
(* ===================================================================== *)

Definition badJsonMessage : jsstring :=
  lit "X<project_plan>{not json</project_plan>Y".

(** The message of the specification's bad-shape example: the payload is
    JSON, but its workstream has neither [description] nor
    [deliverables]. *)
Definition badShapeMessage : jsstring :=
  jlit "X<project_plan>{'workstreams': [{'title': 't'}]}</project_plan>Y".

Definition samplePlanValue : JsValue :=
  JObject [ (WORKSTREAMS,
             JArray [ JObject [ (TITLE, JString (lit "Build"));
                                (DESCRIPTION, JString (lit "Ship it"));
                                (DELIVERABLES, JArray []) ] ]) ].

(** A message that is only a plan block. *)
Definition planOnlyMessage : Message :=
  {| role := Assistant;
     content :=
       jlit "<project_plan>{'workstreams':[{'title':'Build','description':'Ship it','deliverables':[]}]}</project_plan>";
     m_projectPlan := JUndefined |}.

Definition sampleChat : Chat :=
  {| llmProvider := None; llmModel := None |}.

(** A plan with a workstream without deliverables and a workstream with
    one. *)
Definition samplePlan : ProjectPlan :=
  {| workstreams :=
       [ {| w_title := lit "Build"; w_description := lit "Ship it";
            w_deliverables := [] |};
         {| w_title := lit "Launch"; w_description := lit "Tell people";
            w_deliverables :=
              [ {| d_title := lit "Post"; d_description := lit "A post" |} ]
         |} ] |}.

Definition emptyPlan : ProjectPlan := {| workstreams := [] |}.

Definition postPlan : ProjectPlan :=
  {| workstreams :=
       [ {| w_title := lit "Launch"; w_description := lit "Tell people";
            w_deliverables :=
              [ {| d_title := lit "Post"; d_description := lit "A post" |} ]
         |} ] |}.

(** A plan block with a field beyond the schema at each level. *)
Definition extraFieldsMessage : jsstring :=
  jlit "<project_plan>{'version':2,'workstreams':[{'title':'Launch','owner':'me','description':'Tell people','deliverables':[{'title':'Post','description':'A post','due':null}]}]}</project_plan>".

Definition extraFieldsValue : JsValue :=
  JObject
    [ (lit "version", JNumber (lit "2"));
      (WORKSTREAMS,
       JArray
         [ JObject
             [ (TITLE, JString (lit "Launch"));
               (lit "owner", JString (lit "me"));
               (DESCRIPTION, JString (lit "Tell people"));
               (DELIVERABLES,
                JArray
                  [ JObject [ (TITLE, JString (lit "Post"));
                              (DESCRIPTION, JString (lit "A post"));
                              (lit "due", JNull) ] ]) ] ]) ].

(** A reply with a stray closing sentinel in front of two complete blocks,
    the first of which carries [samplePlan]. *)
Definition secondBlock : jsstring :=
  OPEN ++ validJsonOf emptyPlan ++ CLOSE.

Definition strayCloseMessage : jsstring :=
  lit "Hmm " ++ CLOSE ++ lit " " ++ OPEN ++ validJsonOf samplePlan ++ CLOSE
  ++ lit " and " ++ secondBlock.

(* ===================================================================== *)
(** * Tactics *)
(* ===================================================================== *)

Ltac ncases :=
  repeat match goal with
         | |- context [(?a <=? ?b)%N] => destruct (N.leb_spec a b)
         | |- context [(?a =? ?b)%N] => destruct (N.eqb_spec a b)
         end;
  cbn [andb orb negb].

(* ===================================================================== *)
(** * Operations that can fail with an error of their own *)
(* ===================================================================== *)

Inductive result (E A : Type) : Type :=
| Ok (a : A)
| Err (e : E).
Arguments Ok {E A} a.
Arguments Err {E A} e.

(** A JavaScript [Map] in insertion order: [get] and [set]; setting a key
    again keeps its place. *)
Fixpoint mapGet {V : Type} (k : jsstring) (m : list (jsstring * V))
  : option V :=
  match m with
  | [] => None
  | (k', v) :: rest => if jsstring_eqb k k' then Some v else mapGet k rest
  end.

Fixpoint mapSet {V : Type} (k : jsstring) (v : V) (m : list (jsstring * V))
  : list (jsstring * V) :=
  match m with
  | [] => [(k, v)]
  | (k', v') :: rest =>
      if jsstring_eqb k k' then (k, v) :: rest else (k', v') :: mapSet k v rest
  end.

(** The decimal digits of [n], most significant first, before [acc]. *)
Fixpoint decimalDigits (fuel : nat) (n : N) (acc : jsstring) : jsstring :=
  match fuel with
  | O => acc
  | S fuel' =>
      let d := (48 + n mod 10)%N in
      if (n <? 10)%N then d :: acc
      else decimalDigits fuel' (n / 10)%N (d :: acc)
  end.

(** [String(n)] for a counter [n]. *)
Definition decimal (n : N) : jsstring :=
  decimalDigits (S (N.to_nat (N.log2 n))) n [].

(* ===================================================================== *)
(** * The server's pre-parse ([routes/api/chats/index.ts], lines 36-43) *)
(* ===================================================================== *)

Definition extractProjectPlanJson (content : jsstring) : option jsstring :=
  let open := lit "<project_plan>" in
  let close := lit "</project_plan>" in
  let start := indexOf content open in
  let end_ := indexOf content close in
  if ((start =? -1) || (end_ =? -1) || (end_ <=? start))%Z then None
  else Some (trim (slice content (start + Z.of_nat (length open)) (Some end_))).

(* ===================================================================== *)
(** * The chat store ([domain/chat/store.ts], [domain/chat/types.ts]) *)
(* ===================================================================== *)

Inductive ProviderType := Anthropic | OpenAI | Gemini.

(** A message as the server stores it. *)
Record StoredMessage := {
  sm_id : jsstring;
  sm_role : Role;
  sm_content : jsstring;
  sm_timestamp : Z;
  sm_projectPlan : JsValue   (* [JUndefined] when the field is not set *)
}.

(** A chat as the server stores it.  [createChat] sets neither
    [llmProvider] nor [llmModel]; they are [None] until [updateChat] sets
    them.  The name is whatever truthy value the request carried. *)
Record StoredChat := {
  sc_id : jsstring;
  sc_name : JsValue;
  sc_messages : list StoredMessage;
  sc_llmProvider : option ProviderType;
  sc_llmModel : option jsstring;
  sc_createdAt : Z;
  sc_updatedAt : Z
}.

(** [Partial<Chat>]: the fields an update carries. *)
Record ChatUpdates := {
  u_id : option jsstring;
  u_name : option JsValue;
  u_messages : option (list StoredMessage);
  u_llmProvider : option ProviderType;
  u_llmModel : option jsstring;
  u_createdAt : option Z;
  u_updatedAt : option Z
}.

Definition noUpdates : ChatUpdates :=
  {| u_id := None; u_name := None; u_messages := None;
     u_llmProvider := None; u_llmModel := None;
     u_createdAt := None; u_updatedAt := None |}.

Record ChatStore := {
  chats : list (jsstring * StoredChat);
  chatCounter : N
}.

(** The store of a server that has just started. *)
Definition emptyStore : ChatStore := {| chats := []; chatCounter := 0%N |}.

Inductive StoreError := ChatNotFoundError (chatId : jsstring).

Definition orElse {A : Type} (o : option A) (d : A) : A :=
  match o with
  | Some a => a
  | None => d
  end.

(** [createChat(name)]; [id] is the value of [randomUUID()] and [now] that
    of [Date.now()]. *)
Definition createChat (id : jsstring) (now : Z) (name : JsValue)
           (st : ChatStore) : StoredChat * ChatStore :=
  let counter := if truthy name then chatCounter st
                 else (chatCounter st + 1)%N in
  let chatName := if truthy name then name
                  else JString (lit "Chat " ++ decimal counter) in
  let chat := {| sc_id := id;
                 sc_name := chatName;
                 sc_messages := [];
                 sc_llmProvider := None;
                 sc_llmModel := None;
                 sc_createdAt := now;
                 sc_updatedAt := now |} in
  (chat, {| chats := mapSet id chat (chats st); chatCounter := counter |}).

Definition getChat (chatId : jsstring) (st : ChatStore) : option StoredChat :=
  mapGet chatId (chats st).

Definition getAllChats (st : ChatStore) : list StoredChat :=
  map snd (chats st).

(** The chat object is shared between the map and its readers: a change to
    it is a change to the entry of the map it sits in. *)
Fixpoint mapUpdate {V : Type} (k : jsstring) (f : V -> V)
         (m : list (jsstring * V)) : list (jsstring * V) :=
  match m with
  | [] => []
  | (k', v) :: rest =>
      if jsstring_eqb k k' then (k', f v) :: rest
      else (k', v) :: mapUpdate k f rest
  end.

Definition pushMessage (message : StoredMessage) (now : Z) (chat : StoredChat)
  : StoredChat :=
  {| sc_id := sc_id chat;
     sc_name := sc_name chat;
     sc_messages := sc_messages chat ++ [message];
     sc_llmProvider := sc_llmProvider chat;
     sc_llmModel := sc_llmModel chat;
     sc_createdAt := sc_createdAt chat;
     sc_updatedAt := now |}.

(** [addMessage(chatId, message)]; the store is left as it was when the
    chat is missing. *)
Definition addMessage (chatId : jsstring) (message : StoredMessage) (now : Z)
           (st : ChatStore) : result StoreError unit * ChatStore :=
  match mapGet chatId (chats st) with
  | None => (Err (ChatNotFoundError chatId), st)
  | Some _ =>
      (Ok tt, {| chats := mapUpdate chatId (pushMessage message now) (chats st);
                 chatCounter := chatCounter st |})
  end.

(** [Object.assign(chat, updates)], then [chat.updatedAt = now]. *)
Definition assignUpdates (updates : ChatUpdates) (now : Z) (chat : StoredChat)
  : StoredChat :=
  {| sc_id := orElse (u_id updates) (sc_id chat);
     sc_name := orElse (u_name updates) (sc_name chat);
     sc_messages := orElse (u_messages updates) (sc_messages chat);
     sc_llmProvider :=
       match u_llmProvider updates with
       | Some p => Some p
       | None => sc_llmProvider chat
       end;
     sc_llmModel :=
       match u_llmModel updates with
       | Some m => Some m
       | None => sc_llmModel chat
       end;
     sc_createdAt := orElse (u_createdAt updates) (sc_createdAt chat);
     sc_updatedAt := now |}.

Definition updateChat (chatId : jsstring) (updates : ChatUpdates) (now : Z)
           (st : ChatStore) : result StoreError unit * ChatStore :=
  match mapGet chatId (chats st) with
  | None => (Err (ChatNotFoundError chatId), st)
  | Some _ =>
      (Ok tt, {| chats := mapUpdate chatId (assignUpdates updates now) (chats st);
                 chatCounter := chatCounter st |})
  end.

(* ===================================================================== *)
(** * The chat routes ([routes/api/chats/index.ts], lines 45-258) *)
(* ===================================================================== *)

Inductive ReplyBody :=
| ErrorBody (error code : jsstring)
| ChatBody (chat : StoredChat)
| ChatsBody (all : list StoredChat)
| SentBody (message response : StoredMessage)
| NoBody.

Record Reply := {
  statusCode : Z;
  payload : ReplyBody
}.

Definition NAME : jsstring := lit "name".
Definition CONTENT : jsstring := lit "content".
Definition PROVIDER : jsstring := lit "provider".
Definition MODEL : jsstring := lit "model".

Definition chatNotFound (chatId : jsstring) : Reply :=
  {| statusCode := 404;
     payload := ErrorBody (lit "Chat with id " ++ chatId ++ lit " not found")
                  (lit "CHAT_NOT_FOUND") |}.

(** [request.body || {}], then the field [k] of it. *)
Definition bodyField (body : JsValue) (k : jsstring) : JsValue :=
  if truthy body then getProp body k else JUndefined.

(** [POST /api/chats] *)
Definition createChatRoute (body : JsValue) (id : jsstring) (now : Z)
           (st : ChatStore) : Reply * ChatStore :=
  let name := bodyField body NAME in
  let (chat, st') := createChat id now name st in
  ({| statusCode := 201; payload := ChatBody chat |}, st').

(** [GET /api/chats] *)
Definition getChatsRoute (st : ChatStore) : Reply :=
  {| statusCode := 200; payload := ChatsBody (getAllChats st) |}.

(** [GET /api/chats/:chatId] *)
Definition getChatRoute (chatId : jsstring) (st : ChatStore) : Reply :=
  match getChat chatId st with
  | None => chatNotFound chatId
  | Some chat => {| statusCode := 200; payload := ChatBody chat |}
  end.

(** The provider a request names, when it is one of the three. *)
Definition providerOf (v : JsValue) : option ProviderType :=
  match v with
  | JString s =>
      if jsstring_eqb s (lit "anthropic") then Some Anthropic
      else if jsstring_eqb s (lit "openai") then Some OpenAI
      else if jsstring_eqb s (lit "gemini") then Some Gemini
      else None
  | _ => None
  end.

Definition invalidRequest (error : jsstring) : Reply :=
  {| statusCode := 400; payload := ErrorBody error (lit "INVALID_REQUEST") |}.

(** [PATCH /api/chats/:chatId/model] *)
Definition patchModelRoute (chatId : jsstring) (body : JsValue) (now : Z)
           (st : ChatStore) : Reply * ChatStore :=
  let provider := bodyField body PROVIDER in
  let model := bodyField body MODEL in
  match (if truthy provider then providerOf provider else None) with
  | None =>
      (invalidRequest (lit "provider must be one of: anthropic, openai, gemini"),
       st)
  | Some p =>
      match model with
      | JString m =>
          if negb (truthy model) || (Z.of_nat (length (trim m)) =? 0)%Z then
            (invalidRequest (lit "model is required"), st)
          else
            match getChat chatId st with
            | None => (chatNotFound chatId, st)
            | Some _ =>
                let updates :=
                  {| u_id := None; u_name := None; u_messages := None;
                     u_llmProvider := Some p; u_llmModel := Some (trim m);
                     u_createdAt := None; u_updatedAt := None |} in
                match updateChat chatId updates now st with
                | (Err _, st') =>
                    ({| statusCode := 500;
                        payload := ErrorBody (lit "Failed to update chat model")
                                     (lit "CHAT_UPDATE_ERROR") |}, st')
                | (Ok _, st') =>
                    match getChat chatId st' with
                    | Some updated =>
                        ({| statusCode := 200; payload := ChatBody updated |},
                         st')
                    | None => ({| statusCode := 200; payload := NoBody |}, st')
                    end
                end
            end
      | _ => (invalidRequest (lit "model is required"), st)
      end
  end.

(** What the provider call comes back with: the text of the reply, or an
    exception (of the factory, of the provider or of its API). *)
Inductive LlmResult :=
| LlmText (text : jsstring)
| LlmFailure.

(** A request waiting for the provider. *)
Record PendingCall := {
  p_chatId : jsstring;
  p_userMessage : StoredMessage;
  p_history : list StoredMessage;
  p_provider : option ProviderType;
  p_options : SendOptions
}.

Inductive Begun :=
| Replied (reply : Reply)
| Calls (call : PendingCall).

Definition sendFailed : Reply :=
  {| statusCode := 500;
     payload := ErrorBody (lit "Failed to send message")
                  (lit "MESSAGE_SEND_ERROR") |}.

(** [POST /api/chats/:chatId/messages], up to the call of the provider.
    [uid] is the identifier drawn for the user message, [now1] the time of
    its timestamp, [now2] the time read by [addMessage].  A request without
    a body fails on the read of [content] and is answered by the outer
    [catch]. *)
Definition sendMessageBegin (chatId : jsstring) (body : JsValue)
           (uid : jsstring) (now1 now2 : Z) (st : ChatStore)
  : Begun * ChatStore :=
  match body with
  | JUndefined | JNull => (Replied sendFailed, st)
  | _ =>
      let content := getProp body CONTENT in
      match content with
      | JString text =>
          if negb (truthy content) || (Z.of_nat (length (trim text)) =? 0)%Z
          then
            (Replied (invalidRequest
                        (lit "Message content is required and cannot be empty")),
             st)
          else
            match getChat chatId st with
            | None => (Replied (chatNotFound chatId), st)
            | Some chat =>
                let userMessage :=
                  {| sm_id := uid; sm_role := User;
                     sm_content := trim text; sm_timestamp := now1;
                     sm_projectPlan := JUndefined |} in
                match addMessage chatId userMessage now2 st with
                | (Err _, st') => (Replied sendFailed, st')
                | (Ok _, st') =>
                    match getChat chatId st' with
                    | None => (Replied (chatNotFound chatId), st')
                    | Some updatedChat =>
                        let wantsProjectPlan := isProjectPlanRequest text in
                        (Calls
                           {| p_chatId := chatId;
                              p_userMessage := userMessage;
                              p_history := sc_messages updatedChat;
                              p_provider := sc_llmProvider updatedChat;
                              p_options :=
                                {| systemPrompt :=
                                     if wantsProjectPlan
                                     then Some buildProjectPlanSystemPrompt
                                     else None;
                                   model := sc_llmModel updatedChat |} |},
                         st')
                    end
                end
            end
      | _ =>
          (Replied (invalidRequest
                      (lit "Message content is required and cannot be empty")),
           st)
      end
  end.

(** Lines 231-239: the parsed plan is attached when the reply holds a
    block whose payload is not empty and decodes. *)
Definition attachProjectPlan (assistantMessage : StoredMessage)
  : completion StoredMessage :=
  match extractProjectPlanJson (sm_content assistantMessage) with
  | Some planJson =>
      if truthy (JString planJson) then
        tryCatch
          (parsed <- JSON_parse planJson ;;
           Normal {| sm_id := sm_id assistantMessage;
                     sm_role := sm_role assistantMessage;
                     sm_content := sm_content assistantMessage;
                     sm_timestamp := sm_timestamp assistantMessage;
                     sm_projectPlan := parsed |})
          (Normal assistantMessage)
      else Normal assistantMessage
  | None => Normal assistantMessage
  end.

(** Removing the user message again ([messages.filter(...)]). *)
Definition dropMessage (id : jsstring) (chat : StoredChat) : StoredChat :=
  {| sc_id := sc_id chat;
     sc_name := sc_name chat;
     sc_messages :=
       filter (fun msg => negb (jsstring_eqb (sm_id msg) id)) (sc_messages chat);
     sc_llmProvider := sc_llmProvider chat;
     sc_llmModel := sc_llmModel chat;
     sc_createdAt := sc_createdAt chat;
     sc_updatedAt := sc_updatedAt chat |}.

(** The rest of the route, once the provider has answered; [st] is the
    store at that time, [aid] the identifier drawn for the assistant
    message, [now3] the time of its timestamp, [now4] the time read by
    [addMessage]. *)
Definition sendMessageFinish (call : PendingCall) (answer : LlmResult)
           (aid : jsstring) (now3 now4 : Z) (st : ChatStore)
  : Reply * ChatStore :=
  match answer with
  | LlmFailure =>
      ({| statusCode := 500;
          payload := ErrorBody (lit "Failed to get response from LLM")
                       (lit "LLM_ERROR") |},
       {| chats := mapUpdate (p_chatId call)
                     (dropMessage (sm_id (p_userMessage call))) (chats st);
          chatCounter := chatCounter st |})
  | LlmText assistantResponse =>
      let assistantMessage :=
        {| sm_id := aid; sm_role := Assistant;
           sm_content := assistantResponse; sm_timestamp := now3;
           sm_projectPlan := JUndefined |} in
      match attachProjectPlan assistantMessage with
      | Throw _ => (sendFailed, st)
      | Normal attached =>
          match addMessage (p_chatId call) attached now4 st with
          | (Err _, st') => (sendFailed, st')
          | (Ok _, st') =>
              ({| statusCode := 200;
                  payload := SentBody (p_userMessage call) attached |}, st')
          end
      end
  end.

(** The provider, as the route sees it. *)
Definition Llm : Type :=
  option ProviderType -> list StoredMessage -> SendOptions -> LlmResult.

(** The whole route, when no other request touches the store while the
    provider is awaited. *)
Definition sendMessageRoute (llm : Llm) (chatId : jsstring) (body : JsValue)
           (uid aid : jsstring) (now1 now2 now3 now4 : Z) (st : ChatStore)
  : Reply * ChatStore :=
  match sendMessageBegin chatId body uid now1 now2 st with
  | (Replied reply, st') => (reply, st')
  | (Calls call, st') =>
      sendMessageFinish call
        (llm (p_provider call) (p_history call) (p_options call))
        aid now3 now4 st'
  end.

(* ===================================================================== *)
(** * The authentication hook ([plugins], [preHandler]) *)
(* ===================================================================== *)

Inductive HookOutcome :=
| SetUser (userId : jsstring)
| Unauthorized.

(** [inTestUsers userId] is [userId in testUsers], a table this code
    imports. *)
Definition preHandler (inTestUsers : jsstring -> bool) (url : jsstring)
           (authorization : option jsstring) : HookOutcome :=
  let publicRoutes := [lit "/"; lit "/api/chats"] in
  let isPublicRoute := existsb (fun route => startsWith route url) publicRoutes in
  if isPublicRoute then SetUser (lit "richard")
  else
    match authorization with
    | None => Unauthorized
    | Some userId =>
        if negb (truthy (JString userId)) || negb (inTestUsers userId)
        then Unauthorized
        else SetUser userId
    end.

(* ===================================================================== *)
(** * The plan preview ([components/project-plan-preview.tsx]) *)
(* ===================================================================== *)

Inductive RenderError := TypeError.

Record DeliverableView := {
  dv_title : JsValue;
  dv_description : JsValue
}.

Record WorkstreamView := {
  wv_summary : JsValue;
  wv_description : JsValue;
  wv_deliverables : list DeliverableView
}.

(** The header line is the count, the word [workstream] and the suffix. *)
Record PlanView := {
  pv_count : nat;
  pv_suffix : jsstring;
  pv_workstreams : list WorkstreamView
}.

(** [xs.map(f)], where [f] may throw. *)
Fixpoint mapResult {A B : Type} (f : A -> result RenderError B) (xs : list A)
  : result RenderError (list B) :=
  match xs with
  | [] => Ok []
  | x :: rest =>
      match f x with
      | Err e => Err e
      | Ok y =>
          match mapResult f rest with
          | Err e => Err e
          | Ok ys => Ok (y :: ys)
          end
      end
  end.

(** Reading a property of [undefined] or [null] throws. *)
Definition isNullish (v : JsValue) : bool :=
  match v with
  | JUndefined | JNull => true
  | _ => false
  end.

Definition deliverableView (d : JsValue) : result RenderError DeliverableView :=
  if isNullish d then Err TypeError
  else Ok {| dv_title := getProp d TITLE;
             dv_description := getProp d DESCRIPTION |}.

(** [ws.deliverables.map(...)] throws unless [ws.deliverables] is an
    array. *)
Definition workstreamView (ws : JsValue) : result RenderError WorkstreamView :=
  if isNullish ws then Err TypeError
  else
    match getProp ws DELIVERABLES with
    | JArray ds =>
        match mapResult deliverableView ds with
        | Err e => Err e
        | Ok views =>
            Ok {| wv_summary := getProp ws TITLE;
                  wv_description := getProp ws DESCRIPTION;
                  wv_deliverables := views |}
        end
    | _ => Err TypeError
    end.

(** [ProjectPlanPreview({plan})]: the element it returns, or the
    [TypeError] of reading [length] of nothing or of calling a [map] that is
    not there. *)
Definition ProjectPlanPreview (plan : JsValue) : result RenderError PlanView :=
  if isNullish plan then Err TypeError
  else
    match getProp plan WORKSTREAMS with
    | JArray wss =>
        match mapResult workstreamView wss with
        | Err e => Err e
        | Ok views =>
            Ok {| pv_count := length wss;
                  pv_suffix := if Nat.eqb (length wss) 1 then [] else lit "s";
                  pv_workstreams := views |}
        end
    | _ => Err TypeError
    end.

(** A region with its plan expanded. *)
Inductive RenderedRegion :=
| RenderedText (value : jsstring)
| RenderedPlan (view : PlanView).

Definition renderRegion (r : Region) : result RenderError RenderedRegion :=
  match r with
  | TextRegion value => Ok (RenderedText value)
  | PlanRegion plan =>
      match ProjectPlanPreview plan with
      | Ok view => Ok (RenderedPlan view)
      | Err e => Err e
      end
  end.

(** [MessageBody] down to the elements of the preview. *)
Definition renderMessage (message : Message)
  : result RenderError (list RenderedRegion) :=
  match MessageBody message with
  | Normal regions => mapResult renderRegion regions
  | Throw _ => Err TypeError
  end.

(** The view of a typed plan. *)
Definition viewOfDeliverable (d : Deliverable) : DeliverableView :=
  {| dv_title := JString (d_title d);
     dv_description := JString (d_description d) |}.

Definition viewOfWorkstream (w : Workstream) : WorkstreamView :=
  {| wv_summary := JString (w_title w);
     wv_description := JString (w_description w);
     wv_deliverables := map viewOfDeliverable (w_deliverables w) |}.

(** Every title and description shown is a string that is not blank. *)
Definition showsText (v : JsValue) : Prop :=
  exists s, v = JString s /\ trim s <> [].

Definition deliverableShown (d : DeliverableView) : Prop :=
  showsText (dv_title d) /\ showsText (dv_description d).

Definition workstreamShown (w : WorkstreamView) : Prop :=
  showsText (wv_summary w) /\ showsText (wv_description w)
  /\ Forall deliverableShown (wv_deliverables w).

(** A rendered region shows something: a text that is not empty, or a plan
    whose titles and descriptions are all strings that are not blank. *)
Definition regionShown (r : RenderedRegion) : Prop :=
  match r with
  | RenderedText value => value <> []
  | RenderedPlan view =>
      pv_count view = length (pv_workstreams view)
      /\ Forall workstreamShown (pv_workstreams view)
  end.

(** The view of a typed plan. *)
Definition viewOfPlan (p : ProjectPlan) : PlanView :=
  {| pv_count := length (workstreams p);
     pv_suffix := if Nat.eqb (length (workstreams p)) 1 then [] else lit "s";
     pv_workstreams := map viewOfWorkstream (workstreams p) |}.

(** A sequence of chat creations. *)
Record CreateRequest := {
  cr_id : jsstring;
  cr_now : Z;
  cr_name : JsValue
}.

Definition createAll (requests : list CreateRequest) (st : ChatStore)
  : ChatStore :=
  fold_left (fun s r => snd (createChat (cr_id r) (cr_now r) (cr_name r) s))
    requests st.


(* ===================================================================== *)
(** * The server over time *)
(* ===================================================================== *)

(** What changes the store: a creation, a change of model, the first half
    of a message request, and the second half of one, once the provider
    has answered.  Requests are served one at a time, but the second half
    of a message request runs after whatever was served while the provider
    was awaited. *)
Inductive ServerStep :=
| StepCreate (body : JsValue) (id : jsstring) (now : Z)
| StepPatch (chatId : jsstring) (body : JsValue) (now : Z)
| StepBegin (chatId : jsstring) (body : JsValue) (uid : jsstring)
            (now1 now2 : Z)
| StepFinish (call : PendingCall) (answer : LlmResult) (aid : jsstring)
             (now3 now4 : Z).

Definition step (s : ServerStep) (st : ChatStore) : ChatStore :=
  match s with
  | StepCreate body id now => snd (createChatRoute body id now st)
  | StepPatch chatId body now => snd (patchModelRoute chatId body now st)
  | StepBegin chatId body uid now1 now2 =>
      snd (sendMessageBegin chatId body uid now1 now2 st)
  | StepFinish call answer aid now3 now4 =>
      snd (sendMessageFinish call answer aid now3 now4 st)
  end.

(** The store after a run of steps on a fresh server.  The second halves
    may come with any call and any answer, so that every store the server
    can reach is the result of some run. *)
Definition run (steps : list ServerStep) : ChatStore :=
  fold_left (fun st s => step s st) steps emptyStore.

(** The identifiers of the chats a run of steps creates. *)
Fixpoint createdIds (steps : list ServerStep) : list jsstring :=
  match steps with
  | [] => []
  | StepCreate _ id _ :: rest => id :: createdIds rest
  | _ :: rest => createdIds rest
  end.

Definition clearPlan (m : StoredMessage) : StoredMessage :=
  {| sm_id := sm_id m; sm_role := sm_role m; sm_content := sm_content m;
     sm_timestamp := sm_timestamp m; sm_projectPlan := JUndefined |}.

(** A user message holds a trimmed text that is not empty and no plan; the
    plan of an assistant message is what the pre-parse of its own text
    attaches. *)
Definition messageOk (m : StoredMessage) : Prop :=
  match sm_role m with
  | User =>
      sm_projectPlan m = JUndefined
      /\ trim (sm_content m) = sm_content m /\ sm_content m <> []
  | Assistant => attachProjectPlan (clearPlan m) = Normal m
  end.

(** The provider and the model of a chat are set together, the model to a
    trimmed text that is not empty. *)
Definition modelOk (chat : StoredChat) : Prop :=
  match sc_llmProvider chat, sc_llmModel chat with
  | None, None => True
  | Some _, Some m => trim m = m /\ m <> []
  | _, _ => False
  end.

Definition chatOk (key : jsstring) (chat : StoredChat) : Prop :=
  sc_id chat = key
  /\ truthy (sc_name chat) = true
  /\ Forall messageOk (sc_messages chat)
  /\ modelOk chat.

Definition storeOk (st : ChatStore) : Prop :=
  NoDup (map fst (chats st))
  /\ forall key chat, In (key, chat) (chats st) -> chatOk key chat.

(* ===================================================================== *)
(** * More sample inputs *)
(* ===================================================================== *)

(** A reply of the provider with a plan block in the middle. *)
Definition sampleReplyText : jsstring :=
  lit "Here is the plan: " ++ OPEN ++ validJsonOf samplePlan ++ CLOSE
  ++ lit " Good luck!".

Definition sampleReply : StoredMessage :=
  {| sm_id := lit "a1"; sm_role := Assistant;
     sm_content := sampleReplyText; sm_timestamp := 1700000000000;
     sm_projectPlan := JUndefined |}.

Definition sampleReplyAttached : StoredMessage :=
  {| sm_id := lit "a1"; sm_role := Assistant;
     sm_content := sampleReplyText; sm_timestamp := 1700000000000;
     sm_projectPlan := valueOfPlan samplePlan |}.

Definition sampleStore : ChatStore :=
  snd (createChat (lit "c1") 1700000000000 JUndefined emptyStore).

Definition sampleUserMessage : StoredMessage :=
  {| sm_id := lit "u1"; sm_role := User;
     sm_content := lit "Please draft a project plan";
     sm_timestamp := 1700000000001; sm_projectPlan := JUndefined |}.

Definition sampleBody : JsValue :=
  JObject [ (CONTENT, JString (lit "  Please draft a project plan  ")) ].

Definition answeringLlm : Llm := fun _ _ _ => LlmText sampleReplyText.


Definition samplePatch : JsValue :=
  JObject [ (PROVIDER, JString (lit "openai"));
            (MODEL, JString (lit " gpt-4o-mini ")) ].

Definition samplePendingCall : PendingCall :=
  {| p_chatId := lit "c1";
     p_userMessage :=
       {| sm_id := lit "u1"; sm_role := User;
          sm_content := lit "Please draft a project plan";
          sm_timestamp := 2; sm_projectPlan := JUndefined |};
     p_history := [];
     p_provider := None;
     p_options := {| systemPrompt := Some buildProjectPlanSystemPrompt;
                     model := None |} |}.

(** A chat is created, a message is sent to it and the provider answers
    with a plan. *)
Definition sampleRun : list ServerStep :=
  [ StepCreate JUndefined (lit "c1") 1;
    StepBegin (lit "c1") sampleBody (lit "u1") 2 3;
    StepFinish samplePendingCall (LlmText sampleReplyText) (lit "a1") 4 5 ].

Definition sampleRunUser : StoredMessage :=
  {| sm_id := lit "u1"; sm_role := User;
     sm_content := lit "Please draft a project plan";
     sm_timestamp := 2; sm_projectPlan := JUndefined |}.

Definition sampleRunAssistant : StoredMessage :=
  {| sm_id := lit "a1"; sm_role := Assistant;
     sm_content := sampleReplyText; sm_timestamp := 4;
     sm_projectPlan := valueOfPlan samplePlan |}.

Definition sampleRunChat : StoredChat :=
  {| sc_id := lit "c1"; sc_name := JString (lit "Chat 1");
     sc_messages := [sampleRunUser; sampleRunAssistant];
     sc_llmProvider := None; sc_llmModel := None;
     sc_createdAt := 1; sc_updatedAt := 5 |}.

Definition sampleTagged : Tagged :=
  {| t_beforeText := lit "Here is the plan: ";
     t_jsonText := validJsonOf samplePlan;
     t_afterText := lit " Good luck!" |}.

(* ===================================================================== *)
(** * Facts about strings *)
(* ===================================================================== *)

Lemma jsstring_eqb_eq (a b : jsstring) : jsstring_eqb a b = true <-> a = b.
Proof.
  revert b; induction a as [|x a IH]; intros [|y b]; simpl;
    try (split; [discriminate | discriminate]); try tauto.
  rewrite andb_true_iff, N.eqb_eq, IH.
  split; [intros [-> ->]; reflexivity | intros H; inversion H; auto].
Qed.

Lemma jsstring_eqb_refl (a : jsstring) : jsstring_eqb a a = true.
Proof. apply jsstring_eqb_eq; reflexivity. Qed.

Lemma jsstring_eqb_neq (a b : jsstring) : jsstring_eqb a b = false <-> a <> b.
Proof.
  rewrite <- jsstring_eqb_eq. destruct (jsstring_eqb a b); split; congruence.
Qed.

Lemma startsWith_iff (pat s : jsstring) :
  startsWith pat s = true <-> exists r, s = pat ++ r.
Proof.
  revert s; induction pat as [|p pat IH]; intros s; simpl.
  - split; [intros _; exists s; reflexivity | reflexivity].
  - destruct s as [|c s].
    + split; [discriminate | intros [r H]; discriminate].
    + rewrite andb_true_iff, N.eqb_eq, IH. split.
      * intros [-> [r ->]]. exists r; reflexivity.
      * intros [r H]. inversion H; subst. split; [reflexivity | exists r; reflexivity].
Qed.

Lemma startsWith_app (pat r : jsstring) : startsWith pat (pat ++ r) = true.
Proof. apply startsWith_iff. exists r; reflexivity. Qed.

(** The position found is the first one at which the pattern occurs. *)
Lemma indexOf_from_first (pat : jsstring) (n : nat) :
  forall (s : jsstring) (k : Z),
    (forall j, (j < n)%nat -> startsWith pat (skipn j s) = false) ->
    startsWith pat (skipn n s) = true ->
    indexOf_from pat s k = (k + Z.of_nat n)%Z.
Proof.
  induction n as [|n IH]; intros s k Hbefore Hat.
  - simpl in Hat. destruct s; simpl in *; rewrite Hat; lia.
  - assert (H0 : startsWith pat s = false) by (apply (Hbefore 0%nat); lia).
    destruct s as [|c s].
    + simpl in Hat. congruence.
    + simpl indexOf_from. rewrite H0.
      rewrite (IH s (k + 1)%Z).
      * lia.
      * intros j Hj. apply (Hbefore (S j)). lia.
      * exact Hat.
Qed.

Lemma indexOf_first (pat s : jsstring) (n : nat) :
  (forall j, (j < n)%nat -> startsWith pat (skipn j s) = false) ->
  startsWith pat (skipn n s) = true ->
  indexOf s pat = Z.of_nat n.
Proof.
  intros H1 H2. unfold indexOf. rewrite (indexOf_from_first pat n s 0 H1 H2). lia.
Qed.

Lemma indexOf_from_range (pat s : jsstring) :
  forall k, (0 <= k)%Z ->
    indexOf_from pat s k = (-1)%Z
    \/ (k <= indexOf_from pat s k <= k + Z.of_nat (length s))%Z.
Proof.
  induction s as [|c s IH]; intros k Hk; simpl.
  - destruct (startsWith pat []); [right; lia | left; reflexivity].
  - destruct (startsWith pat (c :: s)); [right; lia|].
    destruct (IH (k + 1)%Z) as [H|H]; [lia | left; exact H | right; lia].
Qed.

Lemma indexOf_range (s pat : jsstring) :
  indexOf s pat = (-1)%Z
  \/ (0 <= indexOf s pat <= Z.of_nat (length s))%Z.
Proof.
  unfold indexOf. destruct (indexOf_from_range pat s 0) as [H|H]; [lia | auto | right; lia].
Qed.

(** The pattern occurs at the position found. *)
Lemma indexOf_from_occurs (pat s : jsstring) :
  forall k, (0 <= k)%Z -> indexOf_from pat s k <> (-1)%Z ->
    startsWith pat (skipn (Z.to_nat (indexOf_from pat s k - k)) s) = true.
Proof.
  induction s as [|c s IH]; intros k Hk; simpl.
  - destruct (startsWith pat []) eqn:E; [|congruence].
    intros _. replace (k - k)%Z with 0%Z by lia. exact E.
  - destruct (startsWith pat (c :: s)) eqn:E.
    + intros _. replace (k - k)%Z with 0%Z by lia. exact E.
    + intros Hne. specialize (IH (k + 1)%Z ltac:(lia) Hne).
      destruct (indexOf_from_range pat s (k + 1)) as [H|H]; [lia | congruence |].
      replace (Z.to_nat (indexOf_from pat s (k + 1) - k))
        with (S (Z.to_nat (indexOf_from pat s (k + 1) - (k + 1)))) by lia.
      exact IH.
Qed.

(** No occurrence at all when the search answers [-1]. *)
Lemma indexOf_from_none (pat s : jsstring) :
  forall k, (0 <= k)%Z -> indexOf_from pat s k = (-1)%Z ->
    forall j, startsWith pat (skipn j s) = false.
Proof.
  induction s as [|c s IH]; intros k Hk; simpl.
  - destruct (startsWith pat []) eqn:E; [lia|].
    intros _ j. rewrite skipn_nil. exact E.
  - destruct (startsWith pat (c :: s)) eqn:E; [lia|].
    intros H [|j]; [exact E|]. simpl. apply (IH (k + 1)%Z); [lia | exact H].
Qed.

Lemma indexOf_none (s pat : jsstring) :
  indexOf s pat = (-1)%Z -> forall j, startsWith pat (skipn j s) = false.
Proof. intros H. apply (indexOf_from_none pat s 0); [lia | exact H]. Qed.

(** A pattern whose first character does not occur again in it cannot
    start inside [a] and run over a following occurrence of that
    character, unless it lies within [a]. *)
Lemma no_straddle (c : codeunit) (p a r : jsstring) :
  ~ In c p ->
  indexOf a (c :: p) = (-1)%Z ->
  forall j, (j < length a)%nat ->
    startsWith (c :: p) (skipn j (a ++ c :: r)) = false.
Proof.
  intros Hc Hnone j Hj.
  rewrite skipn_app. replace (j - length a)%nat with 0%nat by lia.
  simpl skipn at 2.
  destruct (startsWith (c :: p) (skipn j a ++ c :: r)) eqn:E; [|reflexivity].
  exfalso.
  pose proof (indexOf_none _ _ Hnone j) as Hin.
  apply startsWith_iff in E. destruct E as [r' E].
  assert (Hlen : (0 < length (skipn j a))%nat) by (rewrite length_skipn; lia).
  destruct (skipn j a) as [|t0 t] eqn:Et; [simpl in Hlen; lia|].
  simpl in E. inversion E as [[Ht0 E']]. subst t0.
  apply app_eq_app in E'. destruct E' as [l [[H1 H2]|[H1 H2]]].
  - assert (startsWith (c :: p) (c :: t) = true).
    { apply startsWith_iff. exists l. simpl. rewrite H1. reflexivity. }
    congruence.
  - destruct l as [|x l].
    + rewrite app_nil_r in H1. subst p.
      assert (startsWith (c :: t) (c :: t) = true).
      { apply startsWith_iff. exists []. rewrite app_nil_r. reflexivity. }
      congruence.
    + simpl in H2. inversion H2; subst x.
      apply Hc. rewrite H1. apply in_or_app. right. left. reflexivity.
Qed.

Lemma slice_range (s : jsstring) (a b : nat) :
  (a <= b <= length s)%nat ->
  slice s (Z.of_nat a) (Some (Z.of_nat b)) = firstn (b - a) (skipn a s).
Proof.
  intros H. unfold slice, clampIndex.
  assert (Ha : (Z.of_nat a <? 0)%Z = false) by (apply Z.ltb_ge; lia).
  assert (Hb : (Z.of_nat b <? 0)%Z = false) by (apply Z.ltb_ge; lia).
  rewrite Ha, Hb.
  rewrite !Z.min_l by lia. rewrite Nat2Z.id.
  f_equal. lia.
Qed.

Lemma slice_to_end (s : jsstring) (a : nat) :
  (a <= length s)%nat ->
  slice s (Z.of_nat a) None = skipn a s.
Proof.
  intros H. unfold slice, clampIndex.
  assert (Ha : (Z.of_nat a <? 0)%Z = false) by (apply Z.ltb_ge; lia).
  rewrite Ha. rewrite Z.min_l by lia. rewrite Nat2Z.id.
  apply firstn_all2. rewrite length_skipn. lia.
Qed.

(* ===================================================================== *)
(** * Locating the sentinels *)
(* ===================================================================== *)

Lemma OPEN_cons : OPEN = 60%N :: OPEN_tail.
Proof. reflexivity. Qed.

Lemma CLOSE_cons : CLOSE = 60%N :: CLOSE_tail.
Proof. reflexivity. Qed.

Lemma OPEN_tail_fresh : ~ In 60%N OPEN_tail.
Proof. vm_compute. intuition discriminate. Qed.

Lemma CLOSE_tail_fresh : ~ In 60%N CLOSE_tail.
Proof. vm_compute. intuition discriminate. Qed.

(** No closing sentinel starts inside an opening sentinel. *)
Lemma CLOSE_not_in_OPEN (k : nat) (r : jsstring) :
  (k < length OPEN)%nat -> startsWith CLOSE (skipn k OPEN ++ r) = false.
Proof.
  intros Hk. change (length OPEN) with 14%nat in Hk.
  do 14 (destruct k as [|k]; [reflexivity|]). lia.
Qed.

Section Split.
Variables before payload after : jsstring.
Hypothesis before_no_open : indexOf before OPEN = (-1)%Z.
Hypothesis before_no_close : indexOf before CLOSE = (-1)%Z.
Hypothesis payload_no_close : indexOf payload CLOSE = (-1)%Z.

Let message : jsstring := before ++ OPEN ++ payload ++ CLOSE ++ after.

Lemma indexOf_message_OPEN : indexOf message OPEN = Z.of_nat (length before).
Proof.
  apply indexOf_first.
  - intros j Hj.
    exact (no_straddle 60%N OPEN_tail before
             (OPEN_tail ++ payload ++ CLOSE ++ after)
             OPEN_tail_fresh before_no_open j Hj).
  - unfold message. rewrite skipn_app, skipn_all, Nat.sub_diag.
    cbn [skipn app]. exact (startsWith_app OPEN _).
Qed.

Lemma indexOf_message_CLOSE :
  indexOf message CLOSE
  = Z.of_nat (length before + length OPEN + length payload).
Proof.
  apply indexOf_first.
  - intros j Hj.
    destruct (Nat.lt_ge_cases j (length before)) as [H1|H1].
    + exact (no_straddle 60%N CLOSE_tail before
               (OPEN_tail ++ payload ++ CLOSE ++ after)
               CLOSE_tail_fresh before_no_close j H1).
    + unfold message. rewrite skipn_app.
      rewrite (skipn_all2 before) by lia. cbn [app].
      destruct (Nat.lt_ge_cases (j - length before) (length OPEN)) as [H2|H2].
      * rewrite skipn_app.
        replace (j - length before - length OPEN)%nat with 0%nat by lia.
        cbn [skipn]. apply CLOSE_not_in_OPEN. exact H2.
      * rewrite skipn_app. rewrite (skipn_all2 OPEN) by lia. cbn [app].
        refine (no_straddle 60%N CLOSE_tail payload (CLOSE_tail ++ after)
                  CLOSE_tail_fresh payload_no_close _ _).
        lia.
  - unfold message.
    rewrite skipn_app, (skipn_all2 before) by lia. cbn [app].
    rewrite skipn_app, (skipn_all2 OPEN) by lia. cbn [app].
    rewrite skipn_app, (skipn_all2 payload) by lia. cbn [app].
    replace (length before + length OPEN + length payload - length before
             - length OPEN - length payload)%nat with 0%nat by lia.
    cbn [skipn app]. exact (startsWith_app CLOSE _).
Qed.

(** The split of a message around its first block. *)
Lemma splitByProjectPlanTag_block :
  splitByProjectPlanTag message
  = Some {| t_beforeText := before;
            t_jsonText := trim payload;
            t_afterText := after |}.
Proof.
  unfold splitByProjectPlanTag.
  rewrite indexOf_message_OPEN, indexOf_message_CLOSE.
  assert (Hlen : length message
                 = (length before + length OPEN + length payload
                    + length CLOSE + length after)%nat).
  { unfold message. rewrite !length_app. lia. }
  assert (Hcond :
    ((Z.of_nat (length before) =? -1)
     || (Z.of_nat (length before + length OPEN + length payload) =? -1)
     || (Z.of_nat (length before + length OPEN + length payload)
         <=? Z.of_nat (length before)))%Z = false).
  { change (length OPEN) with 14%nat.
    rewrite !orb_false_iff. repeat split.
    - apply Z.eqb_neq; lia.
    - apply Z.eqb_neq; lia.
    - apply Z.leb_gt; lia. }
  rewrite Hcond. f_equal.
  change 0%Z with (Z.of_nat 0).
  rewrite <- !Nat2Z.inj_add.
  rewrite !slice_range by lia.
  rewrite slice_to_end by lia.
  f_equal.
  - cbn [skipn]. rewrite Nat.sub_0_r. unfold message.
    rewrite firstn_app, firstn_all, Nat.sub_diag. cbn [firstn]. apply app_nil_r.
  - f_equal. unfold message.
    rewrite skipn_app, (skipn_all2 before) by lia. cbn [app].
    rewrite skipn_app, (skipn_all2 OPEN) by lia. cbn [app].
    replace (length before + length OPEN - length before - length OPEN)%nat
      with 0%nat by lia.
    cbn [skipn].
    replace (length before + length OPEN + length payload
             - (length before + length OPEN))%nat
      with (length payload) by lia.
    rewrite firstn_app, firstn_all, Nat.sub_diag. cbn [firstn]. apply app_nil_r.
  - unfold message.
    rewrite skipn_app, (skipn_all2 before) by lia. cbn [app].
    rewrite skipn_app, (skipn_all2 OPEN) by lia. cbn [app].
    rewrite skipn_app, (skipn_all2 payload) by lia. cbn [app].
    rewrite skipn_app, (skipn_all2 CLOSE) by lia. cbn [app].
    replace (length before + length OPEN + length payload + length CLOSE
             - length before - length OPEN - length payload
             - length CLOSE)%nat with 0%nat by lia.
    reflexivity.
Qed.
End Split.

(* ===================================================================== *)
(** * The validator *)
(* ===================================================================== *)

Lemma isNonEmptyString_iff (v : JsValue) :
  isNonEmptyString v = true <-> NonEmptyText v.
Proof.
  unfold NonEmptyText. destruct v; simpl;
    try (split; [discriminate | intros [s [H _]]; discriminate]).
  rewrite Z.ltb_lt. split.
  - intros H. exists s. split; [reflexivity|].
    intros E. rewrite E in H. simpl in H. lia.
  - intros [s' [E H]]. inversion E; subst s'.
    destruct (trim s); [congruence | simpl; lia].
Qed.

Lemma isDeliverable_object (props : list (jsstring * JsValue)) :
  isDeliverable (JObject props)
  = isNonEmptyString (getProp (JObject props) TITLE)
    && isNonEmptyString (getProp (JObject props) DESCRIPTION).
Proof. reflexivity. Qed.

Lemma isWorkstream_object (props : list (jsstring * JsValue)) :
  isWorkstream (JObject props)
  = isNonEmptyString (getProp (JObject props) TITLE)
    && isNonEmptyString (getProp (JObject props) DESCRIPTION)
    && isArray (getProp (JObject props) DELIVERABLES)
    && every isDeliverable (getProp (JObject props) DELIVERABLES).
Proof. reflexivity. Qed.

Lemma isProjectPlan_object (props : list (jsstring * JsValue)) :
  isProjectPlan (JObject props)
  = isArray (getProp (JObject props) WORKSTREAMS)
    && every isWorkstream (getProp (JObject props) WORKSTREAMS).
Proof. reflexivity. Qed.

(** Only an object passes the entry guard of the three checks. *)
Lemma guard_object (v : JsValue) :
  negb (truthy v) || negb (JsType_eqb (typeof v) TObject) = false ->
  exists props, v = JObject props \/ exists items, v = JArray items.
Proof.
  destruct v; simpl; rewrite ?orb_true_r; try discriminate; intros _.
  - exists []. right. exists items. reflexivity.
  - exists props. left. reflexivity.
Qed.

Lemma isDeliverable_array (items : list JsValue) :
  isDeliverable (JArray items) = false.
Proof. reflexivity. Qed.

Lemma isWorkstream_array (items : list JsValue) :
  isWorkstream (JArray items) = false.
Proof. reflexivity. Qed.

Lemma isProjectPlan_array (items : list JsValue) :
  isProjectPlan (JArray items) = false.
Proof. reflexivity. Qed.

Lemma getProp_nonEmpty (props : list (jsstring * JsValue)) (k : jsstring) :
  isNonEmptyString (getProp (JObject props) k) = true
  <-> exists x, lookup k props = Some x /\ NonEmptyText x.
Proof.
  simpl. destruct (lookup k props) as [x|].
  - rewrite isNonEmptyString_iff. split.
    + intros H. exists x. auto.
    + intros [y [E H]]. inversion E; subst; auto.
  - simpl. split; [discriminate | intros [x [E _]]; discriminate].
Qed.

Lemma getProp_array (props : list (jsstring * JsValue)) (k : jsstring)
      (f : JsValue -> bool) :
  isArray (getProp (JObject props) k) && every f (getProp (JObject props) k)
  = true
  <-> exists items, lookup k props = Some (JArray items)
                    /\ forallb f items = true.
Proof.
  simpl. destruct (lookup k props) as [x|].
  - destruct x; simpl;
      try (split; [discriminate | intros [i [E _]]; discriminate]).
    split.
    + intros H. exists items. auto.
    + intros [i [E H]]. inversion E; subst; auto.
  - simpl. split; [discriminate | intros [i [E _]]; discriminate].
Qed.

Lemma isDeliverable_iff (v : JsValue) :
  isDeliverable v = true <-> DeliverableShape v.
Proof.
  unfold DeliverableShape. split.
  - intros H. unfold isDeliverable in H.
    destruct (negb (truthy v) || negb (JsType_eqb (typeof v) TObject)) eqn:G;
      [discriminate|].
    apply guard_object in G. destruct G as [props [->|[items ->]]].
    + apply andb_true_iff in H. destruct H as [H1 H2].
      apply getProp_nonEmpty in H1. apply getProp_nonEmpty in H2.
      destruct H1 as [t [Ht Ht']]. destruct H2 as [d [Hd Hd']].
      exists props, t, d. auto.
    + discriminate.
  - intros [props [t [d [-> [Ht [Ht' [Hd Hd']]]]]]].
    rewrite isDeliverable_object. apply andb_true_iff. split.
    + apply getProp_nonEmpty. exists t; auto.
    + apply getProp_nonEmpty. exists d; auto.
Qed.

Lemma forallb_Forall_iff {A : Type} (f : A -> bool) (P : A -> Prop) :
  (forall a, f a = true <-> P a) ->
  forall l, forallb f l = true <-> Forall P l.
Proof.
  intros H l. rewrite forallb_forall, Forall_forall.
  split; intros Hall a Ha; apply H; auto.
Qed.

Lemma isWorkstream_iff (v : JsValue) :
  isWorkstream v = true <-> WorkstreamShape v.
Proof.
  unfold WorkstreamShape. split.
  - intros H. unfold isWorkstream in H.
    destruct (negb (truthy v) || negb (JsType_eqb (typeof v) TObject)) eqn:G;
      [discriminate|].
    apply guard_object in G. destruct G as [props [->|[items ->]]].
    + cbv zeta in H. rewrite <- andb_assoc in H.
      apply andb_true_iff in H. destruct H as [H12 H3].
      apply andb_true_iff in H12. destruct H12 as [H1 H2].
      apply getProp_nonEmpty in H1. apply getProp_nonEmpty in H2.
      apply getProp_array in H3.
      destruct H1 as [t [Ht Ht']]. destruct H2 as [d [Hd Hd']].
      destruct H3 as [ds [Hds Hall]].
      exists props, t, d, ds. repeat (split; [first [reflexivity | assumption]|]).
      apply (forallb_Forall_iff _ _ isDeliverable_iff). exact Hall.
    + discriminate.
  - intros [props [t [d [ds [-> [Ht [Ht' [Hd [Hd' [Hds Hall]]]]]]]]]].
    rewrite isWorkstream_object. rewrite <- andb_assoc.
    apply andb_true_iff. split; [apply andb_true_iff; split|].
    + apply getProp_nonEmpty. exists t; auto.
    + apply getProp_nonEmpty. exists d; auto.
    + apply getProp_array. exists ds. split; [assumption|].
      apply (forallb_Forall_iff _ _ isDeliverable_iff). exact Hall.
Qed.

(** The values the validator accepts, for use in the proofs below. *)
Lemma isProjectPlan_accepts (v : JsValue) :
  isProjectPlan v = true <-> ProjectPlanShape v.
Proof.
  unfold ProjectPlanShape. split.
  - intros H. unfold isProjectPlan in H.
    destruct (negb (truthy v) || negb (JsType_eqb (typeof v) TObject)) eqn:G;
      [discriminate|].
    apply guard_object in G. destruct G as [props [->|[items ->]]].
    + cbv zeta in H. apply getProp_array in H.
      destruct H as [ws [Hws Hall]].
      exists props, ws. repeat (split; [first [reflexivity | assumption]|]).
      apply (forallb_Forall_iff _ _ isWorkstream_iff). exact Hall.
    + discriminate.
  - intros [props [ws [-> [Hws Hall]]]].
    rewrite isProjectPlan_object. apply getProp_array.
    exists ws. split; [assumption|].
    apply (forallb_Forall_iff _ _ isWorkstream_iff). exact Hall.
Qed.

(** C5. The validator accepts a value exactly when it is a record whose
    [workstreams] field is an array of records, each with [title] and
    [description] strings that are non-empty after trimming and a
    [deliverables] array of records with [title] and [description] strings
    non-empty after trimming; a missing field, a wrong type or a blank
    string anywhere rejects the whole value. *)
Theorem isProjectPlan_iff_shape (v : JsValue) :
  isProjectPlan v = true <-> ProjectPlanShape v.
Proof.
  unfold ProjectPlanShape. split.
  - intros H. unfold isProjectPlan in H.
    destruct (negb (truthy v) || negb (JsType_eqb (typeof v) TObject)) eqn:G;
      [discriminate|].
    apply guard_object in G. destruct G as [props [->|[items ->]]].
    + cbv zeta in H. apply getProp_array in H.
      destruct H as [ws [Hws Hall]].
      exists props, ws. repeat (split; [first [reflexivity | assumption]|]).
      apply (forallb_Forall_iff _ _ isWorkstream_iff). exact Hall.
    + discriminate.
  - intros [props [ws [-> [Hws Hall]]]].
    rewrite isProjectPlan_object. apply getProp_array.
    exists ws. split; [assumption|].
    apply (forallb_Forall_iff _ _ isWorkstream_iff). exact Hall.
Qed.

Lemma isProjectPlan_truthy (v : JsValue) :
  isProjectPlan v = true -> truthy v = true.
Proof.
  intros H. apply isProjectPlan_accepts in H.
  destruct H as [props [ws [-> _]]]. reflexivity.
Qed.

(* ===================================================================== *)
(** * The extractor *)
(* ===================================================================== *)

(** The split succeeds exactly on a well-formed sentinel pair. *)
Lemma splitByProjectPlanTag_some (content : jsstring) :
  indexOf content OPEN <> (-1)%Z ->
  indexOf content CLOSE <> (-1)%Z ->
  (indexOf content OPEN < indexOf content CLOSE)%Z ->
  splitByProjectPlanTag content
  = Some {| t_beforeText := slice content 0 (Some (indexOf content OPEN));
            t_jsonText :=
              trim (slice content
                      (indexOf content OPEN + Z.of_nat (length OPEN))
                      (Some (indexOf content CLOSE)));
            t_afterText :=
              slice content (indexOf content CLOSE + Z.of_nat (length CLOSE))
                None |}.
Proof.
  intros H1 H2 H3. unfold splitByProjectPlanTag.
  apply Z.eqb_neq in H1. apply Z.eqb_neq in H2. apply Z.leb_gt in H3.
  rewrite H1, H2, H3. reflexivity.
Qed.

Lemma splitByProjectPlanTag_none (content : jsstring) :
  indexOf content OPEN = (-1)%Z
  \/ indexOf content CLOSE = (-1)%Z
  \/ (indexOf content CLOSE <= indexOf content OPEN)%Z ->
  splitByProjectPlanTag content = None.
Proof.
  intros H. unfold splitByProjectPlanTag.
  destruct H as [H|[H|H]].
  - apply Z.eqb_eq in H. rewrite H. reflexivity.
  - apply Z.eqb_eq in H. rewrite H, orb_true_r. reflexivity.
  - apply Z.leb_le in H. rewrite H, orb_true_r. reflexivity.
Qed.

(** C2. A well-formed sentinel pair around a payload that is not JSON: the
    whole message comes back as [beforeText], raw tags included, with no
    plan and an empty [afterText]. *)
Theorem malformed_json_fails_closed (content : jsstring) (sideChannel : JsValue) :
  indexOf content OPEN <> (-1)%Z ->
  indexOf content CLOSE <> (-1)%Z ->
  (indexOf content OPEN < indexOf content CLOSE)%Z ->
  JSON_parse (payloadOf content) = Throw SyntaxError ->
  parseProjectPlanMessage content sideChannel
  = Normal {| beforeText := content; afterText := []; projectPlan := None |}.
Proof.
  intros H1 H2 H3 Hbad. unfold parseProjectPlanMessage.
  rewrite (splitByProjectPlanTag_some content H1 H2 H3).
  cbn [t_jsonText]. fold (payloadOf content). rewrite Hbad. reflexivity.
Qed.

Lemma malformed_json_fails_closed_witness :
  parseProjectPlanMessage badJsonMessage JUndefined
  = Normal {| beforeText := badJsonMessage; afterText := [];
              projectPlan := None |}.
Proof.
  apply (malformed_json_fails_closed badJsonMessage JUndefined).
  - vm_compute. discriminate.
  - vm_compute. discriminate.
  - vm_compute. reflexivity.
  - vm_compute. reflexivity.
Defined.

(** C3. Without a well-formed sentinel pair the message is returned whole;
    the plan is the side-channel plan when one was supplied and passes the
    validator, and is absent otherwise. *)
Theorem no_block_falls_back_to_side_channel
        (content : jsstring) (sideChannel : JsValue) :
  indexOf content OPEN = (-1)%Z
  \/ indexOf content CLOSE = (-1)%Z
  \/ (indexOf content CLOSE <= indexOf content OPEN)%Z ->
  parseProjectPlanMessage content sideChannel
  = Normal {| beforeText := content;
              afterText := [];
              projectPlan :=
                if supplied sideChannel && isProjectPlan sideChannel
                then Some sideChannel else None |}.
Proof.
  intros H. unfold parseProjectPlanMessage.
  rewrite (splitByProjectPlanTag_none content H).
  destruct (isProjectPlan sideChannel) eqn:E.
  - rewrite (isProjectPlan_truthy _ E).
    destruct sideChannel; try discriminate; reflexivity.
  - rewrite !andb_false_r. reflexivity.
Qed.

Lemma no_block_falls_back_to_side_channel_witness :
  parseProjectPlanMessage (lit "</project_plan> then <project_plan>")
    samplePlanValue
  = Normal {| beforeText := lit "</project_plan> then <project_plan>";
              afterText := [];
              projectPlan := Some samplePlanValue |}.
Proof.
  apply (no_block_falls_back_to_side_channel
           (lit "</project_plan> then <project_plan>") samplePlanValue).
  right. right. vm_compute. discriminate.
Defined.

(** C7. The extractor returns a value on every input and never raises; on
    each failure path (payload that is not JSON, payload of the wrong
    shape, no block and no valid side-channel plan) the value has no
    plan. *)
Theorem parseProjectPlanMessage_total (content : jsstring) (sideChannel : JsValue) :
  exists r,
    parseProjectPlanMessage content sideChannel = Normal r
    /\ match splitByProjectPlanTag content with
       | Some tagged =>
           match JSON_parse (t_jsonText tagged) with
           | Throw _ => projectPlan r = None
           | Normal parsed =>
               isProjectPlan parsed = false -> projectPlan r = None
           end
       | None => isProjectPlan sideChannel = false -> projectPlan r = None
       end.
Proof.
  unfold parseProjectPlanMessage.
  destruct (splitByProjectPlanTag content) as [tagged|].
  - destruct (JSON_parse (t_jsonText tagged)) as [parsed|e]; simpl.
    + eexists. split; [reflexivity|]. simpl. intros ->. reflexivity.
    + eexists. split; reflexivity.
  - destruct (truthy sideChannel && isProjectPlan sideChannel) eqn:E.
    + eexists. split; [reflexivity|]. simpl. intros H.
      rewrite H, andb_false_r in E. discriminate.
    + eexists. split; [reflexivity|]. reflexivity.
Qed.

(** A plan is only ever returned after it passed the validator. *)
Lemma parseProjectPlanMessage_plan_valid
      (content : jsstring) (sideChannel : JsValue)
      (r : ParsedProjectPlanMessage) (plan : JsValue) :
  parseProjectPlanMessage content sideChannel = Normal r ->
  projectPlan r = Some plan ->
  isProjectPlan plan = true.
Proof.
  unfold parseProjectPlanMessage.
  destruct (splitByProjectPlanTag content) as [tagged|].
  - destruct (JSON_parse (t_jsonText tagged)) as [parsed|e]; simpl.
    + intros H; inversion H; subst r; clear H. simpl.
      destruct (isProjectPlan parsed) eqn:E; [|discriminate].
      intros H; inversion H; subst; exact E.
    + intros H; inversion H; subst r. discriminate.
  - destruct (truthy sideChannel && isProjectPlan sideChannel) eqn:E.
    + intros H; inversion H; subst r; clear H. simpl.
      intros H; inversion H; subst.
      apply andb_true_iff in E. tauto.
    + intros H; inversion H; subst r. discriminate.
Qed.

(** C1. On the bad-shape example the payload decodes and fails the
    validator, and the extractor keeps the split: [beforeText] is the text
    before the block, not the whole message, and [afterText] is the text
    after it. *)
Theorem bad_shape_keeps_split :
  JSON_parse (payloadOf badShapeMessage)
  = Normal (JObject [ (WORKSTREAMS,
                       JArray [ JObject [ (TITLE, JString (lit "t")) ] ]) ])
  /\ isProjectPlan
       (JObject [ (WORKSTREAMS,
                   JArray [ JObject [ (TITLE, JString (lit "t")) ] ]) ])
     = false
  /\ parseProjectPlanMessage badShapeMessage JUndefined
     = Normal {| beforeText := lit "X"; afterText := lit "Y";
                 projectPlan := None |}
  /\ parseProjectPlanMessage badShapeMessage JUndefined
     <> Normal {| beforeText := badShapeMessage; afterText := [];
                  projectPlan := None |}.
Proof.
  repeat split; try (vm_compute; reflexivity).
  vm_compute. discriminate.
Qed.

(** What the extractor does with a payload of the wrong shape, in
    general. *)
Lemma schema_invalid_keeps_split
      (content : jsstring) (sideChannel parsed : JsValue) :
  indexOf content OPEN <> (-1)%Z ->
  indexOf content CLOSE <> (-1)%Z ->
  (indexOf content OPEN < indexOf content CLOSE)%Z ->
  JSON_parse (payloadOf content) = Normal parsed ->
  isProjectPlan parsed = false ->
  parseProjectPlanMessage content sideChannel
  = Normal {| beforeText := slice content 0 (Some (indexOf content OPEN));
              afterText :=
                slice content
                  (indexOf content CLOSE + Z.of_nat (length CLOSE)) None;
              projectPlan := None |}.
Proof.
  intros H1 H2 H3 Hok Hbad. unfold parseProjectPlanMessage.
  rewrite (splitByProjectPlanTag_some content H1 H2 H3).
  cbn [t_jsonText]. fold (payloadOf content). rewrite Hok. simpl.
  rewrite Hbad. reflexivity.
Qed.

(* ===================================================================== *)
(** * The renderer *)
(* ===================================================================== *)

Lemma renderIf_text (text : jsstring) :
  renderIf (0 <? Z.of_nat (length (trim text)))%Z (TextRegion (trim text))
  = textRegion text.
Proof. unfold textRegion. destruct (trim text); reflexivity. Qed.

Lemma textRegion_nonempty (text t : jsstring) :
  In (TextRegion t) (textRegion text) -> t <> [].
Proof.
  unfold textRegion. destruct (trim text) eqn:E; simpl; [tauto|].
  intros [H|[]]. inversion H. discriminate.
Qed.

(** C9. The renderer emits, in this order, the text region of
    [beforeText] if it is not blank, the plan region if there is a plan,
    the text region of [afterText] if it is not blank; no text region is
    empty, and a message whose before and after texts are blank renders
    the plan region alone. *)
Theorem MessageBody_regions (message : Message) (parsed : ParsedProjectPlanMessage) :
  parseProjectPlanMessage (content message) (m_projectPlan message)
  = Normal parsed ->
  MessageBody message
  = Normal (textRegion (beforeText parsed)
            ++ planRegion (projectPlan parsed)
            ++ textRegion (afterText parsed))
  /\ (forall regions t,
         MessageBody message = Normal regions ->
         In (TextRegion t) regions -> t <> [])
  /\ (forall plan,
         trim (beforeText parsed) = [] ->
         trim (afterText parsed) = [] ->
         projectPlan parsed = Some plan ->
         MessageBody message = Normal [PlanRegion plan]).
Proof.
  intros Hparsed.
  assert (Hbody : MessageBody message
                  = Normal (textRegion (beforeText parsed)
                            ++ planRegion (projectPlan parsed)
                            ++ textRegion (afterText parsed))).
  { unfold MessageBody. rewrite Hparsed. cbn [bind].
    rewrite !renderIf_text. do 3 f_equal.
    destruct (projectPlan parsed) as [plan|] eqn:E; [|reflexivity].
    rewrite (isProjectPlan_truthy plan
               (parseProjectPlanMessage_plan_valid _ _ _ _ Hparsed E)).
    reflexivity. }
  split; [exact Hbody|]. split.
  - intros regions t Hregions Hin. rewrite Hbody in Hregions.
    inversion Hregions; subst regions; clear Hregions.
    apply in_app_or in Hin. destruct Hin as [Hin|Hin].
    + exact (textRegion_nonempty _ _ Hin).
    + apply in_app_or in Hin. destruct Hin as [Hin|Hin].
      * destruct (projectPlan parsed); simpl in Hin;
          [destruct Hin as [Hin|[]]; discriminate | destruct Hin].
      * exact (textRegion_nonempty _ _ Hin).
  - intros plan Hb Ha Hp. rewrite Hbody. unfold textRegion.
    rewrite Hb, Ha, Hp. reflexivity.
Qed.

Lemma MessageBody_regions_witness :
  MessageBody planOnlyMessage = Normal [PlanRegion samplePlanValue].
Proof.
  refine (proj2 (proj2 (MessageBody_regions planOnlyMessage
                          {| beforeText := []; afterText := [];
                             projectPlan := Some samplePlanValue |} _))
            samplePlanValue _ _ _); vm_compute; reflexivity.
Defined.

(* ===================================================================== *)
(** * Regular expressions: what [test] decides *)
(* ===================================================================== *)

Section RegexFacts.
Variable i : bool.

Lemma matches_RSeq_inv (r1 r2 : regex) (s : jsstring) :
  matches i (RSeq r1 r2) s ->
  exists s1 s2, s = s1 ++ s2 /\ matches i r1 s1 /\ matches i r2 s2.
Proof. intros H. inversion H; subst. eauto. Qed.

Lemma matches_RAlt_inv (r1 r2 : regex) (s : jsstring) :
  matches i (RAlt r1 r2) s -> matches i r1 s \/ matches i r2 s.
Proof. intros H. inversion H; subst; auto. Qed.

Lemma matches_RChar_inv (pc : codeunit) (s : jsstring) :
  matches i (RChar pc) s -> exists c, s = [c] /\ charMatches i pc c = true.
Proof. intros H. inversion H; subst. eauto. Qed.

Lemma matches_RSpace_inv (s : jsstring) :
  matches i RSpace s -> exists c, s = [c] /\ isWhiteSpace c = true.
Proof. intros H. inversion H; subst. eauto. Qed.

Lemma matches_REps_inv (s : jsstring) : matches i REps s -> s = [].
Proof. intros H. inversion H; subst. reflexivity. Qed.

Lemma matches_RVoid_inv (s : jsstring) : matches i RVoid s -> False.
Proof. intros H. inversion H. Qed.

Lemma matches_RStar_inv (r : regex) (s : jsstring) :
  matches i (RStar r) s ->
  s = [] \/ exists s1 s2,
              s = s1 ++ s2 /\ matches i r s1 /\ matches i (RStar r) s2.
Proof.
  intros H. inversion H; subst; [left; reflexivity|].
  right. eexists _, _. repeat split; eassumption.
Qed.

Lemma nullable_iff (r : regex) : nullable r = true <-> matches i r [].
Proof.
  induction r; simpl.
  - split; [discriminate | intros H; inversion H].
  - split; [intros _; constructor | reflexivity].
  - split; [discriminate | intros H; inversion H].
  - split; [discriminate | intros H; inversion H].
  - rewrite andb_true_iff, IHr1, IHr2. split.
    + intros [H1 H2]. exact (MSeq (s1 := []) (s2 := []) H1 H2).
    + intros H. apply matches_RSeq_inv in H.
      destruct H as [s1 [s2 [E [H1 H2]]]]. symmetry in E.
      apply app_eq_nil in E. destruct E; subst. auto.
  - rewrite orb_true_iff, IHr1, IHr2. split.
    + intros [H|H]; [apply MAltL | apply MAltR]; exact H.
    + apply matches_RAlt_inv.
  - split; [intros _; constructor | reflexivity].
Qed.

Lemma deriv_sound (c : codeunit) (r : regex) :
  forall s, matches i (deriv i c r) s -> matches i r (c :: s).
Proof.
  induction r; simpl; intros s H.
  - inversion H.
  - inversion H.
  - destruct (charMatches i c0 c) eqn:E.
    + apply matches_REps_inv in H. subst s. constructor; exact E.
    + inversion H.
  - destruct (isWhiteSpace c) eqn:E.
    + apply matches_REps_inv in H. subst s. constructor; exact E.
    + inversion H.
  - assert (Hseq : matches i (RSeq (deriv i c r1) r2) s
                   -> matches i (RSeq r1 r2) (c :: s)).
    { intros D. apply matches_RSeq_inv in D.
      destruct D as [s1 [s2 [E [Ha Hb]]]]. subst s.
      exact (MSeq (s1 := c :: s1) (IHr1 _ Ha) Hb). }
    destruct (nullable r1) eqn:N; [|exact (Hseq H)].
    apply matches_RAlt_inv in H. destruct H as [H|H]; [exact (Hseq H)|].
    apply nullable_iff in N.
    exact (MSeq (s1 := []) N (IHr2 _ H)).
  - apply matches_RAlt_inv in H.
    destruct H as [H|H]; [apply MAltL | apply MAltR]; auto.
  - apply matches_RSeq_inv in H.
    destruct H as [s1 [s2 [E [Ha Hb]]]]. subst s.
    exact (MStarCons (s1 := c :: s1) (IHr _ Ha) Hb).
Qed.

Lemma deriv_complete (c : codeunit) (r : regex) (s : jsstring) :
  matches i r (c :: s) -> matches i (deriv i c r) s.
Proof.
  intros H. remember (c :: s) as cs eqn:E. revert s E.
  induction H as [| pc c' Hc | c' Hc | r1 r2 s1 s2 H1 IH1 H2 IH2
                  | r1 r2 s0 H1 IH1 | r1 r2 s0 H1 IH1 | r0
                  | r0 s1 s2 H1 IH1 H2 IH2]; intros s E; simpl.
  - discriminate.
  - inversion E; subst. rewrite Hc. constructor.
  - inversion E; subst. rewrite Hc. constructor.
  - destruct s1 as [|x s1].
    + simpl in E. subst s2.
      assert (N : nullable r1 = true) by (apply nullable_iff; exact H1).
      rewrite N. apply MAltR. apply IH2. reflexivity.
    + simpl in E. inversion E; subst.
      assert (D : matches i (RSeq (deriv i c r1) r2) (s1 ++ s2)).
      { exact (MSeq (IH1 _ eq_refl) H2). }
      destruct (nullable r1); [apply MAltL|]; exact D.
  - apply MAltL. apply IH1. exact E.
  - apply MAltR. apply IH1. exact E.
  - discriminate.
  - destruct s1 as [|x s1].
    + simpl in E. apply IH2. exact E.
    + simpl in E. inversion E; subst.
      exact (MSeq (IH1 _ eq_refl) H2).
Qed.

Lemma matchesPrefix_iff (s : jsstring) :
  forall r, matchesPrefix i r s = true
            <-> exists m rest, s = m ++ rest /\ matches i r m.
Proof.
  induction s as [|c s IH]; intros r; simpl.
  - rewrite orb_false_r, nullable_iff. split.
    + intros H. exists [], []. auto.
    + intros [m [rest [E H]]]. symmetry in E.
      apply app_eq_nil in E. destruct E; subst. exact H.
  - rewrite orb_true_iff, nullable_iff, IH. split.
    + intros [H|[m [rest [E H]]]].
      * exists [], (c :: s). auto.
      * exists (c :: m), rest. subst s. split; [reflexivity|].
        apply deriv_sound. exact H.
    + intros [m [rest [E H]]]. destruct m as [|x m].
      * left. exact H.
      * right. simpl in E. inversion E; subst.
        exists m, rest. split; [reflexivity|].
        apply deriv_complete. exact H.
Qed.

Lemma searchFrom_iff (r : regex) (s : jsstring) :
  searchFrom i r s = true
  <-> exists a m b, s = a ++ m ++ b /\ matches i r m.
Proof.
  induction s as [|c s IH].
  - simpl. rewrite !orb_false_r, nullable_iff. split.
    + intros H. exists [], [], []. auto.
    + intros [a [m [b [E H]]]]. symmetry in E.
      apply app_eq_nil in E. destruct E as [_ E].
      apply app_eq_nil in E. destruct E; subst. exact H.
  - cbn [searchFrom]. rewrite orb_true_iff.
    rewrite matchesPrefix_iff, IH. split.
    + intros [[m [rest [E H]]]|[a [m [b [E H]]]]].
      * exists [], m, rest. auto.
      * exists (c :: a), m, b. subst s. auto.
    + intros [a [m [b [E H]]]]. destruct a as [|x a].
      * left. exists m, b. auto.
      * right. simpl in E. inversion E; subst.
        exists a, m, b. auto.
Qed.

Lemma matches_RWord (w m : jsstring) :
  matches i (RWord w) m
  <-> Forall2 (fun pc c => charMatches i pc c = true) w m.
Proof.
  revert m; induction w as [|pc w IH]; intros m; simpl.
  - split.
    + intros H. apply matches_REps_inv in H. subst. constructor.
    + intros H; inversion H; constructor.
  - split.
    + intros H. apply matches_RSeq_inv in H.
      destruct H as [s1 [s2 [E [H1 H2]]]].
      apply matches_RChar_inv in H1. destruct H1 as [c [-> Hc]].
      subst m. simpl. constructor; [assumption|].
      apply IH. exact H2.
    + intros H. inversion H as [|? c ? m' Hc Hrest]; subst.
      refine (MSeq (s1 := [c]) _ _);
        [constructor; exact Hc | apply IH; exact Hrest].
Qed.

Lemma matches_RStar_space (m : jsstring) :
  matches i (RStar RSpace) m <-> Forall (fun c => isWhiteSpace c = true) m.
Proof.
  split.
  - intros H. remember (RStar RSpace) as r eqn:E.
    induction H as [| | | | | | r0 | r0 s1 s2 H1 IH1 H2 IH2];
      try discriminate.
    + constructor.
    + inversion E; subst.
      apply matches_RSpace_inv in H1. destruct H1 as [c [-> Hc]].
      simpl. constructor; auto.
  - induction m as [|c m IH]; intros H.
    + constructor.
    + inversion H; subst.
      refine (MStarCons (s1 := [c]) _ _); [constructor; assumption | auto].
Qed.

Lemma matches_RPlus_space (m : jsstring) :
  matches i (RPlus RSpace) m
  <-> m <> [] /\ Forall (fun c => isWhiteSpace c = true) m.
Proof.
  unfold RPlus. split.
  - intros H. apply matches_RSeq_inv in H.
    destruct H as [s1 [s2 [E [H1 H2]]]].
    apply matches_RSpace_inv in H1. destruct H1 as [c [-> Hc]].
    subst m. simpl. split; [discriminate|].
    constructor; [assumption|]. apply matches_RStar_space. exact H2.
  - intros [Hne H]. destruct m as [|c m]; [congruence|].
    inversion H; subst.
    refine (MSeq (s1 := [c]) _ _); [constructor; assumption|].
    apply matches_RStar_space. assumption.
Qed.
End RegexFacts.

(* ===================================================================== *)
(** * Plan-request detection *)
(* ===================================================================== *)

Lemma charMatches_lower (pc c : codeunit) :
  isLowerLetter pc ->
  charMatches true pc c = true <-> toLowerAscii c = pc.
Proof.
  unfold isLowerLetter, charMatches, canonicalize, toLowerAscii. intros H.
  rewrite N.eqb_eq. ncases; lia.
Qed.

Lemma word_matches_lower (w : jsstring) :
  Forall isLowerLetter w ->
  forall m, Forall2 (fun pc c => charMatches true pc c = true) w m
            <-> map toLowerAscii m = w.
Proof.
  induction 1 as [|pc w Hpc Hw IH]; intros m.
  - split.
    + intros H; inversion H; reflexivity.
    + destruct m; [constructor | discriminate].
  - split.
    + intros H. inversion H as [|? c ? m' Hc Hrest]; subst. simpl.
      apply (charMatches_lower pc c Hpc) in Hc. apply IH in Hrest.
      congruence.
    + destruct m as [|c m]; [discriminate|]. simpl. intros E.
      injection E as Hc Hrest. constructor.
      * apply (charMatches_lower pc c Hpc). exact Hc.
      * apply IH. exact Hrest.
Qed.

Lemma project_lower : Forall isLowerLetter (lit "project").
Proof. repeat constructor; vm_compute; discriminate. Qed.

Lemma plan_lower : Forall isLowerLetter (lit "plan").
Proof. repeat constructor; vm_compute; discriminate. Qed.

(** What the pattern [/project\s+plan/i] accepts. *)
Lemma isProjectPlanRequest_iff (text : jsstring) :
  isProjectPlanRequest text = true <-> mentionsProjectPlan text.
Proof.
  unfold isProjectPlanRequest, regexTest, mentionsProjectPlan.
  cbn [PROJECT_PLAN_RE source ignoreCase].
  rewrite searchFrom_iff. split.
  - intros [a [m [b [E H]]]].
    apply matches_RSeq_inv in H. destruct H as [p [m' [Em [Hp H]]]].
    apply matches_RSeq_inv in H. destruct H as [w [q [Em' [Hw Hq]]]].
    apply matches_RWord, (word_matches_lower _ project_lower) in Hp.
    apply matches_RWord, (word_matches_lower _ plan_lower) in Hq.
    apply matches_RPlus_space in Hw. destruct Hw as [Hne Hall].
    exists a, p, w, q, b. subst. rewrite <- !app_assoc. auto.
  - intros [a [p [w [q [b [E [Hp [Hne [Hall Hq]]]]]]]]].
    exists a, (p ++ w ++ q), b. split.
    + subst. rewrite <- !app_assoc. reflexivity.
    + apply MSeq; [|apply MSeq].
      * apply matches_RWord, (word_matches_lower _ project_lower). exact Hp.
      * apply matches_RPlus_space. auto.
      * apply matches_RWord, (word_matches_lower _ plan_lower). exact Hq.
Qed.

Lemma indexOf_occurs (s pat : jsstring) :
  (0 <= indexOf s pat)%Z -> exists a b, s = a ++ pat ++ b.
Proof.
  intros H. unfold indexOf in H.
  pose proof (indexOf_from_occurs pat s 0 ltac:(lia) ltac:(lia)) as Hocc.
  apply startsWith_iff in Hocc. destruct Hocc as [b Hb].
  exists (firstn (Z.to_nat (indexOf_from pat s 0 - 0)) s), b.
  rewrite <- Hb. symmetry. apply firstn_skipn.
Qed.

Lemma toLowerAscii_space (c : codeunit) :
  toLowerAscii c = 32%N -> isWhiteSpace c = true.
Proof.
  unfold toLowerAscii.
  destruct ((65 <=? c) && (c <=? 90))%N eqn:E.
  - apply andb_true_iff in E. destruct E as [E _].
    apply N.leb_le in E. lia.
  - intros ->. reflexivity.
Qed.

(** Every text containing the phrase [project plan], in any letter case,
    is accepted. *)
Lemma containsIgnoreCase_mentions (text : jsstring) :
  containsIgnoreCase text (lit "project plan") = true ->
  mentionsProjectPlan text.
Proof.
  unfold containsIgnoreCase. intros H. apply Z.leb_le in H.
  apply indexOf_occurs in H. destruct H as [a' [b' E]].
  apply map_eq_app in E. destruct E as [a [mb [Et [_ E]]]].
  apply map_eq_app in E. destruct E as [m [b [Emb [Hm _]]]].
  change (lit "project plan") with (lit "project" ++ [32%N] ++ lit "plan") in Hm.
  apply map_eq_app in Hm. destruct Hm as [p [wq [Em [Hp Hwq]]]].
  apply map_eq_app in Hwq. destruct Hwq as [w [q [Ewq [Hw Hq]]]].
  destruct w as [|c [|c' w]]; try discriminate.
  simpl in Hw. inversion Hw as [Hc].
  exists a, p, [c], q, b. subst. rewrite <- !app_assoc.
  repeat split; auto; try discriminate.
  constructor; [|constructor]. apply toLowerAscii_space. exact Hc.
Qed.

Lemma postMessage_call (chat : Chat) (text : jsstring) :
  trim text <> [] ->
  postMessage (Some chat) text
  = CallProvider
      {| systemPrompt :=
           if isProjectPlanRequest text then Some buildProjectPlanSystemPrompt
           else None;
         model := llmModel chat |}.
Proof.
  intros H. unfold postMessage.
  assert (Htext : text <> []) by (intros ->; apply H; reflexivity).
  assert (G : negb (truthy (JString text))
              || (Z.of_nat (length (trim text)) =? 0)%Z = false).
  { apply orb_false_iff. split.
    - destruct text; [congruence | reflexivity].
    - apply Z.eqb_neq. destruct (trim text); [congruence | simpl; lia]. }
  rewrite G. reflexivity.
Qed.

(** C8, as the code has it.  For a request that reaches the provider, the
    project-plan system prompt is attached exactly when the text holds, in
    any letter case, [project], one or more white-space characters, then
    [plan]; no system prompt is attached otherwise.  Every text that
    contains the phrase [project plan] in some letter case gets the
    prompt. *)
Theorem plan_request_detection (chat : Chat) (text : jsstring) :
  trim text <> [] ->
  (attachedPrompt (postMessage (Some chat) text)
   = Some buildProjectPlanSystemPrompt <-> mentionsProjectPlan text)
  /\ (~ mentionsProjectPlan text ->
      attachedPrompt (postMessage (Some chat) text) = None)
  /\ (containsIgnoreCase text (lit "project plan") = true ->
      attachedPrompt (postMessage (Some chat) text)
      = Some buildProjectPlanSystemPrompt).
Proof.
  intros H. rewrite (postMessage_call chat text H). cbn [attachedPrompt systemPrompt].
  pose proof (isProjectPlanRequest_iff text) as Hiff.
  destruct (isProjectPlanRequest text).
  - repeat split; auto.
    + intros _. apply Hiff. reflexivity.
    + intros Hn. exfalso. apply Hn, Hiff. reflexivity.
  - repeat split.
    + discriminate.
    + intros Hm. apply Hiff in Hm. discriminate.
    + intros Hc. apply containsIgnoreCase_mentions, Hiff in Hc. discriminate.
Qed.

Lemma plan_request_detection_witness :
  attachedPrompt
    (postMessage (Some sampleChat) (lit "Draft a Project Plan, please"))
  = Some buildProjectPlanSystemPrompt.
Proof.
  refine (proj2 (proj2 (plan_request_detection sampleChat
                          (lit "Draft a Project Plan, please") _)) _).
  - vm_compute. discriminate.
  - vm_compute. reflexivity.
Defined.

(** C8 as stated fails: a text with two spaces between the words gets the
    system prompt although it does not contain the phrase
    [project plan]. *)
Lemma plan_request_not_literal_phrase :
  ~ (attachedPrompt (postMessage (Some sampleChat) (lit "project  plan"))
     = Some buildProjectPlanSystemPrompt
     <-> containsIgnoreCase (lit "project  plan") (lit "project plan") = true).
Proof.
  intros [H _].
  assert (E : containsIgnoreCase (lit "project  plan") (lit "project plan")
              = false) by (vm_compute; reflexivity).
  rewrite E in H. specialize (H ltac:(vm_compute; reflexivity)).
  discriminate.
Qed.

(* ===================================================================== *)
(** * [JSON.parse] reads back what [stringify] writes *)
(* ===================================================================== *)

Lemma hex4_hexDigit (c : codeunit) :
  (c < 32)%N ->
  hex4 48%N 48%N (hexDigit (c / 16)) (hexDigit (c mod 16)) = Some c.
Proof.
  intros H.
  destruct c as [|p]; [reflexivity|].
  do 5 (destruct p as [p|p|]; try lia; try reflexivity).
Qed.

Lemma parseChars_plain (c : codeunit) (r : jsstring) :
  c <> 34%N -> c <> 92%N -> (32 <= c)%N ->
  parseChars (c :: r)
  = match parseChars r with
    | Some (str, rest) => Some (c :: str, rest)
    | None => None
    end.
Proof.
  intros H1 H2 H3. cbn [parseChars].
  apply N.eqb_neq in H1. apply N.eqb_neq in H2.
  assert (H4 : (c <? 32)%N = false) by (apply N.ltb_ge; exact H3).
  rewrite H1, H2, H4. reflexivity.
Qed.

Lemma parseChars_quoteChar (c : codeunit) (r : jsstring) :
  parseChars (quoteChar c ++ r)
  = match parseChars r with
    | Some (str, rest) => Some (c :: str, rest)
    | None => None
    end.
Proof.
  unfold quoteChar.
  destruct (N.eqb_spec c 34%N); [subst; reflexivity|].
  destruct (N.eqb_spec c 92%N); [subst; reflexivity|].
  destruct (N.eqb_spec c 8%N); [subst; reflexivity|].
  destruct (N.eqb_spec c 9%N); [subst; reflexivity|].
  destruct (N.eqb_spec c 10%N); [subst; reflexivity|].
  destruct (N.eqb_spec c 12%N); [subst; reflexivity|].
  destruct (N.eqb_spec c 13%N); [subst; reflexivity|].
  destruct (N.ltb_spec c 32%N).
  - cbn [app parseChars].
    change ((92 =? 34)%N) with false. change ((92 =? 92)%N) with true.
    change ((117 =? 117)%N) with true. cbv iota.
    rewrite (hex4_hexDigit c) by assumption. reflexivity.
  - cbn [app]. apply parseChars_plain; assumption.
Qed.

(** A string literal is read back as the string it quotes. *)
Lemma parseChars_quote (s rest : jsstring) :
  parseChars (flat_map quoteChar s ++ 34%N :: rest) = Some (s, rest).
Proof.
  induction s as [|c s IH].
  - reflexivity.
  - cbn [flat_map]. rewrite <- app_assoc.
    rewrite parseChars_quoteChar, IH. reflexivity.
Qed.

Lemma join_cons2 (sep a b : jsstring) (l : list jsstring) :
  join sep (a :: b :: l) = a ++ sep ++ join sep (b :: l).
Proof. reflexivity. Qed.

Lemma join_length_in (sep x : jsstring) (l : list jsstring) :
  In x l -> (length x <= length (join sep l))%nat.
Proof.
  induction l as [|a [|b l] IH]; intros H.
  - destruct H.
  - destruct H as [->|[]]. simpl. lia.
  - rewrite join_cons2, !length_app.
    destruct H as [->|H]; [lia|]. specialize (IH H). lia.
Qed.

Lemma join_length_count (sep : jsstring) (l : list jsstring) :
  Forall (fun x => x <> []) l -> (length l <= length (join sep l) + 0)%nat.
Proof.
  induction l as [|a [|b l] IH]; intros H.
  - simpl. lia.
  - inversion H; subst. destruct a; [congruence | simpl; lia].
  - rewrite join_cons2, !length_app. inversion H; subst.
    specialize (IH H3). destruct a; [congruence|].
    simpl length in *. lia.
Qed.

(** A value's text starts with a character that is neither white space nor
    a closing bracket. *)
Lemma stringify_head (v : JsValue) :
  plainJson v ->
  exists c t, stringify v = c :: t
              /\ isJsonWs c = false /\ (c =? 93)%N = false.
Proof.
  intros H. destruct H as [|[|]| | |]; eexists _, _; repeat split.
Qed.

Lemma lookup_objSet_fresh (k : jsstring) (v : JsValue)
      (o : list (jsstring * JsValue)) :
  ~ In k (map fst o) -> objSet k v o = o ++ [(k, v)].
Proof.
  induction o as [|[k' v'] o IH]; intros H; simpl.
  - reflexivity.
  - simpl in H. destruct (jsstring_eqb k k') eqn:E.
    + apply jsstring_eqb_eq in E. subst. tauto.
    + rewrite IH by tauto. reflexivity.
Qed.

Lemma buildObject_from (members acc : list (jsstring * JsValue)) :
  NoDup (map fst (acc ++ members)) ->
  fold_left (fun o kv => objSet (fst kv) (snd kv) o) members acc
  = acc ++ members.
Proof.
  revert acc; induction members as [|[k v] members IH]; intros acc H; simpl.
  - rewrite app_nil_r. reflexivity.
  - rewrite lookup_objSet_fresh.
    + rewrite IH; rewrite <- app_assoc; [reflexivity | exact H].
    + rewrite map_app in H. simpl in H.
      apply NoDup_remove_2 in H. intros Hin. apply H.
      apply in_or_app. left. exact Hin.
Qed.

(** Distinct keys: the object built has the members as written. *)
Lemma buildObject_NoDup (members : list (jsstring * JsValue)) :
  NoDup (map fst members) -> buildObject members = members.
Proof. intros H. apply (buildObject_from members []). exact H. Qed.

Lemma parseValue_array (fuel : nat) (r : jsstring) :
  parseValue (S fuel) (91%N :: r)
  = match skipWs r with
    | [] => None
    | c' :: r' =>
        if (c' =? 93)%N then Some (JArray [], r')
        else
          match parseElements (parseValue fuel) (length r) r with
          | Some (vs, rest) => Some (JArray vs, rest)
          | None => None
          end
    end.
Proof. reflexivity. Qed.

Lemma parseValue_object (fuel : nat) (r : jsstring) :
  parseValue (S fuel) (123%N :: r)
  = match skipWs r with
    | [] => None
    | c' :: r' =>
        if (c' =? 125)%N then Some (JObject [], r')
        else
          match parseMembers (parseValue fuel) (length r) r with
          | Some (ms, rest) => Some (JObject (buildObject ms), rest)
          | None => None
          end
    end.
Proof. reflexivity. Qed.

Lemma parseValue_string (fuel : nat) (r : jsstring) :
  parseValue (S fuel) (34%N :: r)
  = match parseChars r with
    | Some (str, rest) => Some (JString str, rest)
    | None => None
    end.
Proof. reflexivity. Qed.

Section ContainerTexts.
Variable pv : jsstring -> option (JsValue * jsstring).

Lemma parseElements_join (items : list JsValue) (rest : jsstring) :
  (forall x, In x items -> forall r, pv (stringify x ++ r) = Some (x, r)) ->
  items <> [] ->
  forall n, (length items <= n)%nat ->
    parseElements pv n (join [44%N] (map stringify items) ++ 93%N :: rest)
    = Some (items, rest).
Proof.
  induction items as [|x [|y items] IH]; intros Hpv Hne n Hn.
  - congruence.
  - destruct n as [|n]; [simpl in Hn; lia|].
    cbn [map join parseElements].
    rewrite (Hpv x (or_introl eq_refl)). reflexivity.
  - destruct n as [|n]; [simpl in Hn; lia|].
    cbn [map]. rewrite join_cons2, <- !app_assoc.
    cbn [parseElements]. rewrite (Hpv x (or_introl eq_refl)).
    cbn [app skipWs]. change (isJsonWs 44%N) with false. cbv iota.
    change ((44 =? 44)%N) with true. cbv iota.
    change (stringify y :: map stringify items)
      with (map stringify (y :: items)).
    rewrite IH; [reflexivity | | discriminate | simpl in *; lia].
    intros z Hz. apply Hpv. right. exact Hz.
Qed.

Lemma memberText_app (kv : jsstring * JsValue) (r : jsstring) :
  memberText kv ++ r
  = 34%N :: flat_map quoteChar (fst kv)
    ++ 34%N :: 58%N :: stringify (snd kv) ++ r.
Proof.
  unfold memberText, quoteJSONString. cbn [app].
  rewrite <- !app_assoc. reflexivity.
Qed.

Lemma parseMembers_step (n : nat) (k : jsstring) (x : JsValue) (r : jsstring) :
  pv (stringify x ++ r) = Some (x, r) ->
  parseMembers pv (S n) (memberText (k, x) ++ r)
  = match skipWs r with
    | [] => None
    | c :: r4 =>
        if (c =? 44)%N then
          match parseMembers pv n r4 with
          | Some (ms, rest) => Some ((k, x) :: ms, rest)
          | None => None
          end
        else if (c =? 125)%N then Some ([(k, x)], r4)
        else None
    end.
Proof.
  intros Hpv. rewrite memberText_app. cbn [fst snd parseMembers skipWs].
  change (isJsonWs 34%N) with false. cbv iota.
  change ((34 =? 34)%N) with true. cbv iota.
  rewrite parseChars_quote. cbn [skipWs].
  change (isJsonWs 58%N) with false. cbv iota.
  change ((58 =? 58)%N) with true. cbv iota.
  rewrite Hpv. reflexivity.
Qed.

Lemma parseMembers_join (props : list (jsstring * JsValue)) (rest : jsstring) :
  (forall kv, In kv props ->
              forall r, pv (stringify (snd kv) ++ r) = Some (snd kv, r)) ->
  props <> [] ->
  forall n, (length props <= n)%nat ->
    parseMembers pv n (join [44%N] (map memberText props) ++ 125%N :: rest)
    = Some (props, rest).
Proof.
  induction props as [|[k x] [|kv props] IH]; intros Hpv Hne n Hn.
  - congruence.
  - destruct n as [|n]; [simpl in Hn; lia|].
    cbn [map join].
    rewrite (parseMembers_step n k x _ (Hpv (k, x) (or_introl eq_refl) _)).
    reflexivity.
  - destruct n as [|n]; [simpl in Hn; lia|].
    cbn [map]. rewrite join_cons2, <- !app_assoc.
    rewrite (parseMembers_step n k x _ (Hpv (k, x) (or_introl eq_refl) _)).
    cbn [app skipWs]. change (isJsonWs 44%N) with false. cbv iota.
    change ((44 =? 44)%N) with true. cbv iota.
    change (memberText kv :: map memberText props)
      with (map memberText (kv :: props)).
    rewrite IH; [reflexivity | | discriminate | simpl in *; lia].
    intros z Hz. apply Hpv. right. exact Hz.
Qed.
End ContainerTexts.

Lemma join_head (sep : jsstring) (c : codeunit) (t : jsstring)
      (l : list jsstring) :
  exists t', join sep ((c :: t) :: l) = c :: t'.
Proof.
  destruct l as [|b l].
  - exists t. reflexivity.
  - rewrite join_cons2. eexists. reflexivity.
Qed.

Lemma stringify_array (items : list JsValue) (rest : jsstring) :
  stringify (JArray items) ++ rest
  = 91%N :: join [44%N] (map stringify items) ++ 93%N :: rest.
Proof.
  cbn [stringify]. fold stringify. cbn [app].
  rewrite <- app_assoc. reflexivity.
Qed.

Lemma stringify_object (props : list (jsstring * JsValue)) (rest : jsstring) :
  stringify (JObject props) ++ rest
  = 123%N :: join [44%N] (map memberText props) ++ 125%N :: rest.
Proof.
  cbn [stringify]. fold stringify. cbn [app].
  rewrite <- app_assoc. reflexivity.
Qed.

Lemma stringify_array_length (items : list JsValue) :
  length (stringify (JArray items))
  = S (S (length (join [44%N] (map stringify items)))).
Proof.
  rewrite <- (app_nil_r (stringify (JArray items))), stringify_array.
  cbn [length]. rewrite length_app. simpl. lia.
Qed.

Lemma stringify_object_length (props : list (jsstring * JsValue)) :
  length (stringify (JObject props))
  = S (S (length (join [44%N] (map memberText props)))).
Proof.
  rewrite <- (app_nil_r (stringify (JObject props))), stringify_object.
  cbn [length]. rewrite length_app. simpl. lia.
Qed.

(** [JSON.parse] reads a value back from its text, whatever follows the
    text, as soon as the fuel covers the length of the text. *)
Lemma parseValue_stringify (v : JsValue) :
  plainJson v ->
  forall fuel rest,
    (length (stringify v) <= fuel)%nat ->
    parseValue fuel (stringify v ++ rest) = Some (v, rest).
Proof.
  induction v as [| |b|lexeme|s|items IH|props IH] using JsValue_ind;
    intros Hplain fuel rest Hfuel.
  - inversion Hplain.
  - destruct fuel as [|fuel]; [simpl in Hfuel; lia | reflexivity].
  - destruct fuel as [|fuel]; [destruct b; simpl in Hfuel; lia|].
    destruct b; reflexivity.
  - inversion Hplain.
  - destruct fuel as [|fuel]; [simpl in Hfuel; lia|].
    cbn [stringify]. unfold quoteJSONString. cbn [app].
    rewrite <- app_assoc. cbn [app].
    rewrite parseValue_string, parseChars_quote. reflexivity.
  - inversion Hplain as [| | |items' Hitems|]; subst.
    rewrite stringify_array_length in Hfuel.
    destruct fuel as [|fuel]; [lia|].
    rewrite stringify_array, parseValue_array.
    destruct items as [|x items].
    + reflexivity.
    + assert (Hx : plainJson x) by (inversion Hitems; assumption).
      destruct (stringify_head x Hx) as [c [t [Ex [Hws Hc]]]].
      assert (Et : exists t',
                 join [44%N] (map stringify (x :: items)) = c :: t').
      { cbn [map]. rewrite Ex. apply join_head. }
      destruct Et as [t' Et].
      set (R := join [44%N] (map stringify (x :: items)) ++ 93%N :: rest).
      assert (HR : exists r', skipWs R = c :: r').
      { unfold R. rewrite Et. cbn [app skipWs]. rewrite Hws.
        eexists. reflexivity. }
      destruct HR as [r' HR]. rewrite HR, Hc. unfold R.
      rewrite parseElements_join; [reflexivity | | discriminate |].
      * intros y Hy r. rewrite Forall_forall in IH, Hitems.
        apply IH; [exact Hy | apply Hitems; exact Hy |].
        pose proof (join_length_in [44%N] (stringify y)
                      (map stringify (x :: items)) (in_map _ _ _ Hy)).
        lia.
      * rewrite length_app.
        pose proof (join_length_count [44%N] (map stringify (x :: items))) as Hn.
        rewrite length_map in Hn. cbn [length] in *.
        enough (length (x :: items)
                <= length (join [44%N] (map stringify (x :: items))) + 0)%nat
          by (cbn [length] in *; lia).
        apply Hn. apply Forall_map. rewrite Forall_forall in *.
        intros y Hy. destruct (stringify_head y (Hitems y Hy)) as [? [? [E _]]].
        rewrite E. discriminate.
  - inversion Hplain as [| | | |props' Hkeys Hprops]; subst.
    rewrite stringify_object_length in Hfuel.
    destruct fuel as [|fuel]; [lia|].
    rewrite stringify_object, parseValue_object.
    destruct props as [|[k x] props].
    + reflexivity.
    + assert (Et : exists t',
                 join [44%N] (map memberText ((k, x) :: props)) = 34%N :: t').
      { cbn [map]. unfold memberText at 1, quoteJSONString.
        cbn [fst app]. apply join_head. }
      destruct Et as [t' Et].
      set (R := join [44%N] (map memberText ((k, x) :: props))
                ++ 125%N :: rest).
      assert (HR : exists r', skipWs R = 34%N :: r').
      { unfold R. rewrite Et. eexists. reflexivity. }
      destruct HR as [r' HR]. rewrite HR.
      change ((34 =? 125)%N) with false. cbv iota. unfold R.
      rewrite parseMembers_join; [| | discriminate |].
      * rewrite (buildObject_NoDup _ Hkeys). reflexivity.
      * intros kv Hkv r. rewrite Forall_forall in IH, Hprops.
        apply IH; [exact Hkv | apply Hprops; exact Hkv |].
        pose proof (join_length_in [44%N] (memberText kv)
                      (map memberText ((k, x) :: props))
                      (in_map _ _ _ Hkv)) as Hlen.
        unfold memberText at 1 in Hlen. rewrite !length_app in Hlen.
        unfold jsstring, codeunit in *. lia.
      * rewrite length_app.
        pose proof (join_length_count [44%N]
                      (map memberText ((k, x) :: props))) as Hn.
        rewrite length_map in Hn.
        enough (length ((k, x) :: props)
                <= length (join [44%N] (map memberText ((k, x) :: props))) + 0)%nat
          by (cbn [length] in *; lia).
        apply Hn. apply Forall_map. rewrite Forall_forall.
        intros kv _. unfold memberText, quoteJSONString. discriminate.
Qed.

(** The text of a value has no white space at either end. *)
Lemma stringify_JSON_parse (v : JsValue) :
  plainJson v -> JSON_parse (stringify v) = Normal v.
Proof.
  intros H. unfold JSON_parse.
  rewrite <- (app_nil_r (stringify v)) at 2.
  rewrite parseValue_stringify; [reflexivity | exact H | lia].
Qed.

(* ===================================================================== *)
(** * Plans and their JSON texts *)
(* ===================================================================== *)

Lemma trim_bracketed (a b : codeunit) (s : jsstring) :
  isWhiteSpace a = false -> isWhiteSpace b = false ->
  trim (a :: s ++ [b]) = a :: s ++ [b].
Proof.
  intros Ha Hb. unfold trim, trimEnd. cbn [trimStart]. rewrite Ha.
  change (a :: s ++ [b]) with ((a :: s) ++ [b]).
  rewrite rev_app_distr. cbn [rev app trimStart]. rewrite Hb.
  change (b :: rev s ++ [a]) with ([b] ++ rev (a :: s)).
  rewrite rev_app_distr, rev_involutive. reflexivity.
Qed.

Lemma trim_validJsonOf (p : ProjectPlan) :
  trim (validJsonOf p) = validJsonOf p.
Proof.
  unfold validJsonOf, valueOfPlan. cbn [stringify]. fold stringify.
  cbn [app]. apply trim_bracketed; reflexivity.
Qed.

Lemma plainJson_deliverable (d : Deliverable) :
  plainJson (valueOfDeliverable d).
Proof.
  apply plain_object.
  - cbn [map fst]. repeat constructor; vm_compute; intuition discriminate.
  - repeat constructor.
Qed.

Lemma plainJson_workstream (w : Workstream) :
  plainJson (valueOfWorkstream w).
Proof.
  apply plain_object.
  - cbn [map fst]. repeat constructor; vm_compute; intuition discriminate.
  - apply Forall_cons; [apply plain_string|].
    apply Forall_cons; [apply plain_string|].
    apply Forall_cons; [|apply Forall_nil].
    cbn [snd]. apply plain_array.
    apply Forall_map, Forall_forall. intros d _. apply plainJson_deliverable.
Qed.

Lemma plainJson_plan (p : ProjectPlan) : plainJson (valueOfPlan p).
Proof.
  apply plain_object.
  - cbn [map fst]. repeat constructor. intros [].
  - apply Forall_cons; [|apply Forall_nil].
    cbn [snd]. apply plain_array.
    apply Forall_map, Forall_forall. intros w _. apply plainJson_workstream.
Qed.

(** The text of a plan decodes to the object of the plan. *)
Lemma JSON_parse_validJsonOf (p : ProjectPlan) :
  JSON_parse (validJsonOf p) = Normal (valueOfPlan p).
Proof. apply stringify_JSON_parse, plainJson_plan. Qed.

Lemma isNonEmptyString_nonBlank (s : jsstring) :
  isNonEmptyString (JString s) = nonBlank s.
Proof.
  unfold isNonEmptyString, nonBlank. destruct (trim s); reflexivity.
Qed.

Lemma isDeliverable_valueOf (d : Deliverable) :
  isDeliverable (valueOfDeliverable d) = validDeliverable d.
Proof.
  unfold valueOfDeliverable. rewrite isDeliverable_object.
  change (getProp _ TITLE) with (JString (d_title d)).
  change (getProp _ DESCRIPTION) with (JString (d_description d)).
  rewrite !isNonEmptyString_nonBlank. reflexivity.
Qed.

Lemma forallb_map {A B : Type} (f : B -> bool) (g : A -> B) (l : list A) :
  forallb f (map g l) = forallb (fun a => f (g a)) l.
Proof. induction l as [|a l IH]; simpl; [|rewrite IH]; reflexivity. Qed.

Lemma forallb_ext {A : Type} (f g : A -> bool) (l : list A) :
  (forall a, f a = g a) -> forallb f l = forallb g l.
Proof.
  intros H. induction l as [|a l IH]; simpl; [|rewrite H, IH]; reflexivity.
Qed.

Lemma isWorkstream_valueOf (w : Workstream) :
  isWorkstream (valueOfWorkstream w) = validWorkstream w.
Proof.
  unfold valueOfWorkstream. rewrite isWorkstream_object.
  change (getProp _ TITLE) with (JString (w_title w)).
  change (getProp _ DESCRIPTION) with (JString (w_description w)).
  change (getProp _ DELIVERABLES)
    with (JArray (map valueOfDeliverable (w_deliverables w))).
  rewrite !isNonEmptyString_nonBlank. cbn [isArray every].
  rewrite andb_true_r, forallb_map.
  rewrite (forallb_ext _ validDeliverable); [reflexivity|].
  apply isDeliverable_valueOf.
Qed.

(** The object of a plan passes the validator exactly when the plan
    satisfies the invariants of the data model. *)
Lemma isProjectPlan_valueOf (p : ProjectPlan) :
  isProjectPlan (valueOfPlan p) = validPlan p.
Proof.
  unfold valueOfPlan. rewrite isProjectPlan_object.
  change (getProp _ WORKSTREAMS)
    with (JArray (map valueOfWorkstream (workstreams p))).
  cbn [isArray every andb]. rewrite forallb_map.
  apply forallb_ext, isWorkstream_valueOf.
Qed.

(** A block whose payload decodes to a valid plan: the split is kept and
    the decoded value is the plan. *)
Lemma parseProjectPlanMessage_block
      (before payload after : jsstring) (v sideChannel : JsValue) :
  indexOf before OPEN = (-1)%Z ->
  indexOf before CLOSE = (-1)%Z ->
  indexOf payload CLOSE = (-1)%Z ->
  JSON_parse (trim payload) = Normal v ->
  isProjectPlan v = true ->
  parseProjectPlanMessage (before ++ OPEN ++ payload ++ CLOSE ++ after)
    sideChannel
  = Normal {| beforeText := before; afterText := after;
              projectPlan := Some v |}.
Proof.
  intros H1 H2 H3 Hv Hok. unfold parseProjectPlanMessage.
  rewrite (splitByProjectPlanTag_block before payload after H1 H2 H3).
  cbn [t_jsonText t_beforeText t_afterText]. rewrite Hv. cbn [bind tryCatch].
  rewrite Hok. reflexivity.
Qed.

(** C4, as the code has it.  For a plan satisfying the schema, a text
    before the block that contains neither sentinel, and a JSON text of
    the plan that does not contain the closing sentinel, extraction gives
    back the text before, the text after and the plan. *)
Theorem valid_round_trip
        (p : ProjectPlan) (before after : jsstring) (sideChannel : JsValue) :
  validPlan p = true ->
  indexOf before OPEN = (-1)%Z ->
  indexOf before CLOSE = (-1)%Z ->
  indexOf (validJsonOf p) CLOSE = (-1)%Z ->
  parseProjectPlanMessage
    (before ++ OPEN ++ validJsonOf p ++ CLOSE ++ after) sideChannel
  = Normal {| beforeText := before; afterText := after;
              projectPlan := Some (valueOfPlan p) |}.
Proof.
  intros Hp H1 H2 H3. apply parseProjectPlanMessage_block; try assumption.
  - rewrite trim_validJsonOf. apply JSON_parse_validJsonOf.
  - rewrite isProjectPlan_valueOf. exact Hp.
Qed.

Lemma valid_round_trip_witness :
  parseProjectPlanMessage
    (lit "Here is the plan: " ++ OPEN ++ validJsonOf samplePlan ++ CLOSE
     ++ lit " Good luck!") JUndefined
  = Normal {| beforeText := lit "Here is the plan: ";
              afterText := lit " Good luck!";
              projectPlan := Some (valueOfPlan samplePlan) |}.
Proof.
  apply (valid_round_trip samplePlan (lit "Here is the plan: ")
           (lit " Good luck!") JUndefined); vm_compute; reflexivity.
Defined.

(** C4 as stated fails: when the text before the block contains the closing
    sentinel, the first closing sentinel precedes the first opening one and
    no block is found, even for the plan without workstreams. *)
Lemma round_trip_fails_after_stray_close :
  validPlan emptyPlan = true
  /\ parseProjectPlanMessage
       (CLOSE ++ OPEN ++ validJsonOf emptyPlan ++ CLOSE ++ []) JUndefined
     <> Normal {| beforeText := CLOSE; afterText := [];
                  projectPlan := Some (valueOfPlan emptyPlan) |}.
Proof.
  split; [reflexivity|]. vm_compute. discriminate.
Qed.

(** C6, as the code has it.  Two blocks, the first with a valid plan
    payload, after a text that contains neither sentinel: the first opening
    and the first closing sentinel are consumed, and the second block comes
    back verbatim, tags and payload, in [afterText]. *)
Theorem first_pair_only
        (before payload1 between payload2 after : jsstring)
        (v sideChannel : JsValue) :
  indexOf before OPEN = (-1)%Z ->
  indexOf before CLOSE = (-1)%Z ->
  indexOf payload1 CLOSE = (-1)%Z ->
  JSON_parse (trim payload1) = Normal v ->
  isProjectPlan v = true ->
  parseProjectPlanMessage
    (before ++ OPEN ++ payload1 ++ CLOSE
     ++ between ++ OPEN ++ payload2 ++ CLOSE ++ after) sideChannel
  = Normal {| beforeText := before;
              afterText := between ++ OPEN ++ payload2 ++ CLOSE ++ after;
              projectPlan := Some v |}.
Proof.
  intros H1 H2 H3 Hv Hok.
  exact (parseProjectPlanMessage_block before payload1
           (between ++ OPEN ++ payload2 ++ CLOSE ++ after) v sideChannel
           H1 H2 H3 Hv Hok).
Qed.

Lemma first_pair_only_witness :
  parseProjectPlanMessage
    (lit "A" ++ OPEN ++ validJsonOf samplePlan ++ CLOSE
     ++ lit "B" ++ OPEN ++ validJsonOf emptyPlan ++ CLOSE ++ lit "C")
    JUndefined
  = Normal {| beforeText := lit "A";
              afterText :=
                lit "B" ++ OPEN ++ validJsonOf emptyPlan ++ CLOSE ++ lit "C";
              projectPlan := Some (valueOfPlan samplePlan) |}.
Proof.
  apply (first_pair_only (lit "A") (validJsonOf samplePlan) (lit "B")
           (validJsonOf emptyPlan) (lit "C") (valueOfPlan samplePlan)
           JUndefined); vm_compute; reflexivity.
Defined.

(** C6 as stated fails: a content with two complete blocks, the first
    holding a valid plan payload, in which a closing sentinel comes before
    the first opening one.  The first closing sentinel (index 4) precedes
    the first opening sentinel (index 20), no block is found, and the whole
    content comes back as [beforeText] with no plan; [afterText] is empty
    and so does not hold the second block. *)
Lemma first_pair_lost_after_stray_close :
  indexOf strayCloseMessage CLOSE = 4%Z
  /\ indexOf strayCloseMessage OPEN = 20%Z
  /\ JSON_parse (trim (validJsonOf samplePlan))
     = Normal (valueOfPlan samplePlan)
  /\ isProjectPlan (valueOfPlan samplePlan) = true
  /\ parseProjectPlanMessage strayCloseMessage JUndefined
     = Normal {| beforeText := strayCloseMessage; afterText := [];
                 projectPlan := None |}
  /\ (forall r,
        parseProjectPlanMessage strayCloseMessage JUndefined = Normal r ->
        indexOf (afterText r) secondBlock = (-1)%Z
        /\ projectPlan r <> Some (valueOfPlan samplePlan)).
Proof.
  assert (E : parseProjectPlanMessage strayCloseMessage JUndefined
              = Normal {| beforeText := strayCloseMessage; afterText := [];
                          projectPlan := None |})
    by (vm_compute; reflexivity).
  repeat split; try (vm_compute; reflexivity); try exact E.
  - rewrite E in H. inversion H. reflexivity.
  - rewrite E in H. inversion H. cbn [projectPlan]. discriminate.
Qed.

(* ===================================================================== *)
(** * Additional fields *)
(* ===================================================================== *)

Lemma nonBlank_NonEmptyText (s : jsstring) :
  nonBlank s = true -> NonEmptyText (JString s).
Proof.
  intros H. exists s. split; [reflexivity|].
  unfold nonBlank in H. destruct (trim s); [discriminate | discriminate].
Qed.

Lemma Forall2_valid_Forall {A B : Type} (R : A -> B -> Prop)
      (f : A -> bool) (P : B -> Prop) :
  (forall a b, f a = true -> R a b -> P b) ->
  forall l l', forallb f l = true -> Forall2 R l l' -> Forall P l'.
Proof.
  intros H l l' Hl Hall. induction Hall as [|a b l l' Hab Hrest IH].
  - constructor.
  - simpl in Hl. apply andb_true_iff in Hl. destruct Hl as [Ha Hl].
    constructor; [exact (H a b Ha Hab) | exact (IH Hl)].
Qed.

Lemma extendsDeliverable_shape (d : Deliverable) (v : JsValue) :
  validDeliverable d = true -> extendsDeliverable d v -> DeliverableShape v.
Proof.
  unfold validDeliverable. intros Hd [props [-> [Ht Hdesc]]].
  apply andb_true_iff in Hd. destruct Hd as [H1 H2].
  exists props, (JString (d_title d)), (JString (d_description d)).
  repeat split; auto using nonBlank_NonEmptyText.
Qed.

Lemma extendsWorkstream_shape (w : Workstream) (v : JsValue) :
  validWorkstream w = true -> extendsWorkstream w v -> WorkstreamShape v.
Proof.
  unfold validWorkstream. intros Hw [props [ds [-> [Ht [Hdesc [Hds Hall]]]]]].
  apply andb_true_iff in Hw. destruct Hw as [H12 H3].
  apply andb_true_iff in H12. destruct H12 as [H1 H2].
  exists props, (JString (w_title w)), (JString (w_description w)), ds.
  repeat (split; [first [reflexivity | assumption
                       | apply nonBlank_NonEmptyText; assumption]|]).
  exact (Forall2_valid_Forall _ _ _ extendsDeliverable_shape _ _ H3 Hall).
Qed.

(** A value that carries a valid plan, with whatever further fields,
    passes the validator. *)
Lemma extendsPlan_isProjectPlan (p : ProjectPlan) (v : JsValue) :
  validPlan p = true -> extendsPlan p v -> isProjectPlan v = true.
Proof.
  unfold validPlan. intros Hp [props [ws [-> [Hws Hall]]]].
  apply isProjectPlan_accepts. exists props, ws.
  repeat (split; [first [reflexivity | assumption]|]).
  exact (Forall2_valid_Forall _ _ _ extendsWorkstream_shape _ _ Hp Hall).
Qed.

(** C10. A payload that decodes to an object carrying a valid plan, where
    the object, its workstreams and its deliverables may have fields beyond
    those of the schema, is accepted, and the plan returned is the decoded
    value itself, additional fields included. *)
Theorem extra_fields_accepted
        (p : ProjectPlan) (v : JsValue) (content : jsstring)
        (sideChannel : JsValue) :
  validPlan p = true ->
  extendsPlan p v ->
  indexOf content OPEN <> (-1)%Z ->
  indexOf content CLOSE <> (-1)%Z ->
  (indexOf content OPEN < indexOf content CLOSE)%Z ->
  JSON_parse (payloadOf content) = Normal v ->
  isProjectPlan v = true
  /\ parseProjectPlanMessage content sideChannel
     = Normal {| beforeText := slice content 0 (Some (indexOf content OPEN));
                 afterText :=
                   slice content
                     (indexOf content CLOSE + Z.of_nat (length CLOSE)) None;
                 projectPlan := Some v |}.
Proof.
  intros Hp Hext H1 H2 H3 Hv.
  pose proof (extendsPlan_isProjectPlan p v Hp Hext) as Hok.
  split; [exact Hok|]. unfold parseProjectPlanMessage.
  rewrite (splitByProjectPlanTag_some content H1 H2 H3).
  cbn [t_jsonText]. fold (payloadOf content). rewrite Hv.
  cbn [bind tryCatch t_beforeText t_afterText]. rewrite Hok. reflexivity.
Qed.

Lemma extra_fields_accepted_witness :
  isProjectPlan extraFieldsValue = true
  /\ parseProjectPlanMessage extraFieldsMessage JUndefined
     = Normal {| beforeText :=
                   slice extraFieldsMessage 0
                     (Some (indexOf extraFieldsMessage OPEN));
                 afterText :=
                   slice extraFieldsMessage
                     (indexOf extraFieldsMessage CLOSE
                      + Z.of_nat (length CLOSE)) None;
                 projectPlan := Some extraFieldsValue |}.
Proof.
  apply (extra_fields_accepted postPlan extraFieldsValue extraFieldsMessage
           JUndefined).
  - reflexivity.
  - eexists _, _. split; [reflexivity|]. split; [reflexivity|].
    constructor; [|constructor].
    eexists _, _. split; [reflexivity|].
    split; [reflexivity|]. split; [reflexivity|]. split; [reflexivity|].
    constructor; [|constructor].
    eexists. split; [reflexivity|]. split; reflexivity.
  - vm_compute. discriminate.
  - vm_compute. discriminate.
  - vm_compute. reflexivity.
  - vm_compute. reflexivity.
Defined.

(* ===================================================================== *)
(** * The fuel of [JSON.parse] is enough *)
(* ===================================================================== *)

Lemma skipWs_length (s : jsstring) : (length (skipWs s) <= length s)%nat.
Proof.
  induction s as [|c s IH]; simpl; [lia|].
  destruct (isJsonWs c); simpl; lia.
Qed.

Lemma parseChars_progress_upto (n : nat) :
  forall s str rest,
    (length s <= n)%nat ->
    parseChars s = Some (str, rest) -> (length rest < length s)%nat.
Proof.
  induction n as [|n IH]; intros s str rest Hn H.
  - destruct s; [discriminate | simpl in Hn; lia].
  - destruct s as [|c r]; [discriminate|].
    cbn [parseChars] in H. cbn [length] in *.
    destruct (c =? 34)%N.
    { inversion H; subst. lia. }
    destruct (c =? 92)%N.
    + destruct r as [|e r1]; [discriminate|].
      destruct (e =? 117)%N.
      * destruct r1 as [|h1 [|h2 [|h3 [|h4 r2]]]]; try discriminate.
        destruct (hex4 h1 h2 h3 h4); [|discriminate].
        destruct (parseChars r2) as [[str' rest']|] eqn:E; [|discriminate].
        inversion H; subst.
        apply IH in E; cbn [length] in *; lia.
      * destruct (unescape e); [|discriminate].
        destruct (parseChars r1) as [[str' rest']|] eqn:E; [|discriminate].
        inversion H; subst.
        apply IH in E; cbn [length] in *; lia.
    + destruct (c <? 32)%N; [discriminate|].
      destruct (parseChars r) as [[str' rest']|] eqn:E; [|discriminate].
      inversion H; subst.
      apply IH in E; lia.
Qed.

Lemma parseChars_progress (s str rest : jsstring) :
  parseChars s = Some (str, rest) -> (length rest < length s)%nat.
Proof. apply (parseChars_progress_upto (length s)). lia. Qed.

Lemma digits_length (s : jsstring) :
  (length (snd (digits s)) <= length s)%nat.
Proof.
  induction s as [|c s IH]; simpl; [lia|].
  destruct (isDigit c); [|simpl; lia].
  destruct (digits s) as [ds rest]. simpl in *. lia.
Qed.

Lemma scanNumber_progress (s lexeme rest : jsstring) :
  scanNumber s = Some (lexeme, rest) -> (length rest < length s)%nat.
Proof.
  unfold scanNumber.
  destruct (scanSign s) as [sg s1] eqn:Esg.
  assert (H1 : (length s1 <= length s)%nat).
  { unfold scanSign in Esg. destruct s as [|c r].
    - inversion Esg; subst. lia.
    - destruct (c =? 45)%N; inversion Esg; subst; simpl; lia. }
  destruct (scanInt s1) as [[i s2]|] eqn:Ei; [|discriminate].
  assert (H2 : (length s2 < length s1)%nat).
  { unfold scanInt in Ei. destruct s1 as [|c r]; [discriminate|].
    destruct (c =? 48)%N.
    - inversion Ei; subst. simpl. lia.
    - destruct (isDigit c); [|discriminate].
      pose proof (digits_length r) as Hd.
      destruct (digits r) as [ds rest']. inversion Ei; subst. simpl in *. lia. }
  destruct (scanFrac s2) as [[f s3]|] eqn:Ef; [|discriminate].
  assert (H3 : (length s3 <= length s2)%nat).
  { unfold scanFrac in Ef. destruct s2 as [|c r].
    - inversion Ef; subst. lia.
    - destruct (c =? 46)%N.
      + pose proof (digits_length r) as Hd.
        destruct (digits r) as [[|d ds] rest']; [discriminate|].
        inversion Ef; subst. simpl in *. lia.
      + inversion Ef; subst. lia. }
  destruct (scanExp s3) as [[e s4]|] eqn:Ee; [|discriminate].
  assert (H4 : (length s4 <= length s3)%nat).
  { unfold scanExp in Ee. destruct s3 as [|c r].
    - inversion Ee; subst. lia.
    - destruct ((c =? 101) || (c =? 69))%N.
      + destruct (scanExpSign r) as [sg' r1] eqn:Es.
        assert (length r1 <= length r)%nat.
        { unfold scanExpSign in Es. destruct r as [|x r'].
          - inversion Es; subst. lia.
          - destruct ((x =? 43) || (x =? 45))%N; inversion Es; subst;
              simpl; lia. }
        pose proof (digits_length r1) as Hd.
        destruct (digits r1) as [[|d ds] rest']; [discriminate|].
        inversion Ee; subst. simpl in *. lia.
      + inversion Ee; subst. lia. }
  intros H. inversion H; subst. lia.
Qed.

Section ContainerFuel.
Variables pv pv' : jsstring -> option (JsValue * jsstring).
Hypothesis pv_progresses : progresses pv.

Lemma parseElements_progress (n : nat) :
  forall s vs rest,
    parseElements pv n s = Some (vs, rest) -> (length rest < length s)%nat.
Proof.
  induction n as [|n IH]; intros s vs rest H; [discriminate|].
  cbn [parseElements] in H.
  destruct (pv s) as [[v r]|] eqn:Ev; [|discriminate].
  apply pv_progresses in Ev. pose proof (skipWs_length r) as Hws.
  destruct (skipWs r) as [|c r']; [discriminate|]. cbn [length] in Hws.
  destruct (c =? 44)%N.
  - destruct (parseElements pv n r') as [[vs' rest']|] eqn:E; [|discriminate].
    inversion H; subst. apply IH in E. lia.
  - destruct (c =? 93)%N; [|discriminate]. inversion H; subst. lia.
Qed.

Lemma parseMembers_progress (n : nat) :
  forall s ms rest,
    parseMembers pv n s = Some (ms, rest) -> (length rest < length s)%nat.
Proof.
  induction n as [|n IH]; intros s ms rest H; [discriminate|].
  cbn [parseMembers] in H. pose proof (skipWs_length s) as Hs.
  destruct (skipWs s) as [|q r0]; [discriminate|]. cbn [length] in Hs.
  destruct (q =? 34)%N; [|discriminate].
  destruct (parseChars r0) as [[k r1]|] eqn:Ek; [|discriminate].
  apply parseChars_progress in Ek. pose proof (skipWs_length r1) as H1.
  destruct (skipWs r1) as [|colon r2]; [discriminate|]. cbn [length] in H1.
  destruct (colon =? 58)%N; [|discriminate].
  destruct (pv r2) as [[v r3]|] eqn:Ev; [|discriminate].
  apply pv_progresses in Ev. pose proof (skipWs_length r3) as H3.
  destruct (skipWs r3) as [|c r4]; [discriminate|]. cbn [length] in H3.
  destruct (c =? 44)%N.
  - destruct (parseMembers pv n r4) as [[ms' rest']|] eqn:E; [|discriminate].
    inversion H; subst. apply IH in E. lia.
  - destruct (c =? 125)%N; [|discriminate]. inversion H; subst. lia.
Qed.

(** Two value parsers that agree on the texts no longer than [s] read
    the same elements from [s]. *)
Lemma parseElements_agree (n : nat) :
  forall s,
    (forall s', (length s' <= length s)%nat -> pv s' = pv' s') ->
    parseElements pv n s = parseElements pv' n s.
Proof.
  induction n as [|n IH]; intros s Hagree; [reflexivity|].
  cbn [parseElements]. rewrite <- (Hagree s) by lia.
  destruct (pv s) as [[v r]|] eqn:Ev; [|reflexivity].
  apply pv_progresses in Ev. pose proof (skipWs_length r) as Hws.
  destruct (skipWs r) as [|c r']; [reflexivity|]. cbn [length] in Hws.
  rewrite (IH r'); [reflexivity|].
  intros s' Hs'. apply Hagree. lia.
Qed.

Lemma parseMembers_agree (n : nat) :
  forall s,
    (forall s', (length s' <= length s)%nat -> pv s' = pv' s') ->
    parseMembers pv n s = parseMembers pv' n s.
Proof.
  induction n as [|n IH]; intros s Hagree; [reflexivity|].
  cbn [parseMembers]. pose proof (skipWs_length s) as Hs.
  destruct (skipWs s) as [|q r0]; [reflexivity|]. cbn [length] in Hs.
  destruct (q =? 34)%N; [|reflexivity].
  destruct (parseChars r0) as [[k r1]|] eqn:Ek; [|reflexivity].
  apply parseChars_progress in Ek. pose proof (skipWs_length r1) as H1.
  destruct (skipWs r1) as [|colon r2]; [reflexivity|]. cbn [length] in H1.
  destruct (colon =? 58)%N; [|reflexivity].
  rewrite <- (Hagree r2) by lia.
  destruct (pv r2) as [[v r3]|] eqn:Ev; [|reflexivity].
  apply pv_progresses in Ev. pose proof (skipWs_length r3) as H3.
  destruct (skipWs r3) as [|c r4]; [reflexivity|]. cbn [length] in H3.
  rewrite (IH r4); [reflexivity|].
  intros s' Hs'. apply Hagree. lia.
Qed.
End ContainerFuel.

Lemma parseValue_unfold (fuel : nat) (s : jsstring) :
  parseValue (S fuel) s
  = match skipWs s with
    | [] => None
    | c :: r =>
        if (c =? 91)%N then
          match skipWs r with
          | [] => None
          | c' :: r' =>
              if (c' =? 93)%N then Some (JArray [], r')
              else
                match parseElements (parseValue fuel) (length r) r with
                | Some (vs, rest) => Some (JArray vs, rest)
                | None => None
                end
          end
        else if (c =? 123)%N then
          match skipWs r with
          | [] => None
          | c' :: r' =>
              if (c' =? 125)%N then Some (JObject [], r')
              else
                match parseMembers (parseValue fuel) (length r) r with
                | Some (ms, rest) => Some (JObject (buildObject ms), rest)
                | None => None
                end
          end
        else if (c =? 34)%N then
          match parseChars r with
          | Some (str, rest) => Some (JString str, rest)
          | None => None
          end
        else if startsWith (lit "true") (c :: r) then
          Some (JBool true, skipn 4 (c :: r))
        else if startsWith (lit "false") (c :: r) then
          Some (JBool false, skipn 5 (c :: r))
        else if startsWith (lit "null") (c :: r) then
          Some (JNull, skipn 4 (c :: r))
        else
          match scanNumber (c :: r) with
          | Some (lexeme, rest) => Some (JNumber lexeme, rest)
          | None => None
          end
    end.
Proof. reflexivity. Qed.

Lemma parseValue_progress (fuel : nat) : progresses (parseValue fuel).
Proof.
  induction fuel as [|fuel IH]; intros s v rest H; [discriminate|].
  rewrite parseValue_unfold in H. pose proof (skipWs_length s) as Hs.
  destruct (skipWs s) as [|c r]; [discriminate|]. cbn [length] in Hs.
  destruct (c =? 91)%N.
  { pose proof (skipWs_length r) as Hr.
    destruct (skipWs r) as [|c' r']; [discriminate|]. cbn [length] in Hr.
    destruct (c' =? 93)%N; [inversion H; subst; lia|].
    destruct (parseElements (parseValue fuel) (length r) r)
      as [[vs rest']|] eqn:E; [|discriminate].
    apply (parseElements_progress _ IH) in E. inversion H; subst. lia. }
  destruct (c =? 123)%N.
  { pose proof (skipWs_length r) as Hr.
    destruct (skipWs r) as [|c' r']; [discriminate|]. cbn [length] in Hr.
    destruct (c' =? 125)%N; [inversion H; subst; lia|].
    destruct (parseMembers (parseValue fuel) (length r) r)
      as [[ms rest']|] eqn:E; [|discriminate].
    apply (parseMembers_progress _ IH) in E. inversion H; subst. lia. }
  destruct (c =? 34)%N.
  { destruct (parseChars r) as [[str rest']|] eqn:E; [|discriminate].
    apply parseChars_progress in E. inversion H; subst. lia. }
  destruct (startsWith (lit "true") (c :: r)).
  { assert (Hrest : skipn 4 (c :: r) = rest) by congruence.
    pose proof (length_skipn 4 (c :: r)) as L. rewrite Hrest in L.
    cbn [length] in L. unfold jsstring, codeunit in *. lia. }
  destruct (startsWith (lit "false") (c :: r)).
  { assert (Hrest : skipn 5 (c :: r) = rest) by congruence.
    pose proof (length_skipn 5 (c :: r)) as L. rewrite Hrest in L.
    cbn [length] in L. unfold jsstring, codeunit in *. lia. }
  destruct (startsWith (lit "null") (c :: r)).
  { assert (Hrest : skipn 4 (c :: r) = rest) by congruence.
    pose proof (length_skipn 4 (c :: r)) as L. rewrite Hrest in L.
    cbn [length] in L. unfold jsstring, codeunit in *. lia. }
  destruct (scanNumber (c :: r)) as [[lexeme rest']|] eqn:E; [|discriminate].
  apply scanNumber_progress in E. inversion H; subst. cbn [length] in *. lia.
Qed.

(** Any two amounts of fuel above the length of the text give the same
    result: the bound used by [JSON_parse] never cuts a parse short. *)
Lemma parseValue_fuel_enough (fuel : nat) :
  forall fuel' s,
    (length s < fuel)%nat -> (length s < fuel')%nat ->
    parseValue fuel s = parseValue fuel' s.
Proof.
  induction fuel as [|fuel IH]; intros fuel' s H H'; [lia|].
  destruct fuel' as [|fuel']; [lia|].
  rewrite !parseValue_unfold. pose proof (skipWs_length s) as Hs.
  destruct (skipWs s) as [|c r]; [reflexivity|]. cbn [length] in Hs.
  assert (Hagree : forall s', (length s' <= length r)%nat ->
                              parseValue fuel s' = parseValue fuel' s').
  { intros s' Hs'. apply IH; lia. }
  rewrite (parseElements_agree _ _ (parseValue_progress fuel) (length r) r Hagree).
  rewrite (parseMembers_agree _ _ (parseValue_progress fuel) (length r) r Hagree).
  reflexivity.
Qed.

Lemma JSON_parse_fuel (text : jsstring) (fuel : nat) :
  (length text < fuel)%nat ->
  JSON_parse text
  = match parseValue fuel text with
    | Some (v, rest) =>
        match skipWs rest with
        | [] => Normal v
        | _ :: _ => Throw SyntaxError
        end
    | None => Throw SyntaxError
    end.
Proof.
  intros H. unfold JSON_parse.
  rewrite (parseValue_fuel_enough (S (length text)) fuel text); [reflexivity | lia | exact H].
Qed.

(* ===================================================================== *)
(** * More on the split *)
(* ===================================================================== *)

Lemma indexOf_from_minimal (pat s : jsstring) :
  forall k, (0 <= k)%Z -> indexOf_from pat s k <> (-1)%Z ->
    forall j, (Z.of_nat j < indexOf_from pat s k - k)%Z ->
      startsWith pat (skipn j s) = false.
Proof.
  induction s as [|c s IH]; intros k Hk; simpl.
  - destruct (startsWith pat []) eqn:E; [|congruence]. intros _ j Hj. lia.
  - destruct (startsWith pat (c :: s)) eqn:E.
    + intros _ j Hj. lia.
    + intros Hne [|j] Hj; [exact E|]. simpl.
      apply (IH (k + 1)%Z); [lia | exact Hne | lia].
Qed.

(** What [indexOf] answers when it finds the pattern: the first position
    at which it occurs. *)
Lemma indexOf_found (s pat : jsstring) (n : nat) :
  indexOf s pat = Z.of_nat n ->
  (n <= length s)%nat
  /\ startsWith pat (skipn n s) = true
  /\ forall j, (j < n)%nat -> startsWith pat (skipn j s) = false.
Proof.
  intros H. unfold indexOf in H.
  assert (Hne : indexOf_from pat s 0 <> (-1)%Z) by lia.
  repeat split.
  - destruct (indexOf_from_range pat s 0) as [R|R]; lia.
  - pose proof (indexOf_from_occurs pat s 0 ltac:(lia) Hne) as Hocc.
    rewrite H in Hocc. replace (Z.to_nat (Z.of_nat n - 0)) with n in Hocc by lia.
    exact Hocc.
  - intros j Hj. apply (indexOf_from_minimal pat s 0); [lia | exact Hne | lia].
Qed.

Lemma indexOf_from_absent (pat s : jsstring) :
  forall k, (forall j, startsWith pat (skipn j s) = false) ->
            indexOf_from pat s k = (-1)%Z.
Proof.
  induction s as [|c s IH]; intros k H; simpl;
    pose proof (H 0%nat) as H0; cbn [skipn] in H0; rewrite H0.
  - reflexivity.
  - apply IH. intros j. exact (H (S j)).
Qed.

Lemma indexOf_absent (s pat : jsstring) :
  (forall j, startsWith pat (skipn j s) = false) -> indexOf s pat = (-1)%Z.
Proof. apply indexOf_from_absent. Qed.

(** An occurrence inside a prefix of [s] is an occurrence in [s]. *)
Lemma startsWith_in_firstn (pat s : jsstring) (n j : nat) :
  pat <> [] ->
  startsWith pat (skipn j (firstn n s)) = true ->
  (j < length (firstn n s))%nat /\ startsWith pat (skipn j s) = true.
Proof.
  intros Hpat H.
  assert (Hj : (j < length (firstn n s))%nat).
  { destruct (Nat.lt_ge_cases j (length (firstn n s))) as [L|L]; [exact L|].
    rewrite skipn_all2 in H by exact L.
    destruct pat; [congruence | discriminate]. }
  split; [exact Hj|].
  apply startsWith_iff in H. destruct H as [r Hr].
  apply startsWith_iff. exists (r ++ skipn n s).
  rewrite <- (firstn_skipn n s) at 1.
  rewrite skipn_app. replace (j - length (firstn n s))%nat with 0%nat by lia.
  rewrite Hr, <- app_assoc. reflexivity.
Qed.

(** An occurrence inside a suffix of [s] is an occurrence in [s]. *)
Lemma startsWith_in_skipn (pat s : jsstring) (n j : nat) :
  startsWith pat (skipn j (skipn n s)) = startsWith pat (skipn (n + j) s).
Proof. rewrite skipn_skipn. f_equal. f_equal. lia. Qed.

Lemma OPEN_nonempty : OPEN <> [].
Proof. discriminate. Qed.

Lemma CLOSE_nonempty : CLOSE <> [].
Proof. discriminate. Qed.

(** The pieces of a split, for use in the proofs below. *)
Lemma splitByProjectPlanTag_parts (content : jsstring) (tagged : Tagged) :
  splitByProjectPlanTag content = Some tagged ->
  exists raw,
    content = t_beforeText tagged ++ OPEN ++ raw ++ CLOSE ++ t_afterText tagged
    /\ t_jsonText tagged = trim raw
    /\ indexOf (t_beforeText tagged) OPEN = (-1)%Z
    /\ indexOf (t_beforeText tagged) CLOSE = (-1)%Z
    /\ indexOf raw CLOSE = (-1)%Z.
Proof.
  unfold splitByProjectPlanTag.
  destruct ((indexOf content OPEN =? -1) || (indexOf content CLOSE =? -1)
            || (indexOf content CLOSE <=? indexOf content OPEN))%Z eqn:G;
    [discriminate|].
  apply orb_false_iff in G. destruct G as [G G3].
  apply orb_false_iff in G. destruct G as [G1 G2].
  apply Z.eqb_neq in G1. apply Z.eqb_neq in G2. apply Z.leb_gt in G3.
  destruct (indexOf_range content OPEN) as [R1|R1]; [congruence|].
  destruct (indexOf_range content CLOSE) as [R2|R2]; [congruence|].
  remember (Z.to_nat (indexOf content OPEN)) as s eqn:Es.
  remember (Z.to_nat (indexOf content CLOSE)) as e eqn:Ee.
  assert (Hs : indexOf content OPEN = Z.of_nat s) by lia.
  assert (He : indexOf content CLOSE = Z.of_nat e) by lia.
  destruct (indexOf_found content OPEN s Hs) as [Ls [Os Ms]].
  destruct (indexOf_found content CLOSE e He) as [Le [Oe Me]].
  assert (Hse : (s < e)%nat) by lia.
  (* the closing sentinel does not start inside the opening one *)
  apply startsWith_iff in Os. destruct Os as [r1 Hr1].
  assert (Hgap : (s + length OPEN <= e)%nat).
  { destruct (Nat.lt_ge_cases e (s + length OPEN)) as [L|L]; [|exact L].
    exfalso.
    assert (E : skipn e content = skipn (e - s) OPEN ++ r1).
    { replace e with ((e - s) + s)%nat at 1 by lia.
      rewrite <- skipn_skipn, Hr1, skipn_app.
      replace (e - s - length OPEN)%nat with 0%nat by lia. reflexivity. }
    rewrite E in Oe.
    rewrite (CLOSE_not_in_OPEN (e - s) r1) in Oe by lia. discriminate. }
  intros H. inversion H; subst tagged; clear H. cbn [t_beforeText t_jsonText t_afterText].
  rewrite Hs, He.
  change 0%Z with (Z.of_nat 0).
  replace (Z.of_nat e + 15)%Z with (Z.of_nat (e + length CLOSE))
    by (change (length CLOSE) with 15%nat; lia).
  replace (Z.of_nat s + 14)%Z with (Z.of_nat (s + length OPEN))
    by (change (length OPEN) with 14%nat; lia).
  apply startsWith_iff in Oe. destruct Oe as [r2 Hr2].
  assert (Le' : (e + length CLOSE <= length content)%nat).
  { rewrite <- (firstn_skipn e content), length_app, Hr2, length_app.
    rewrite length_firstn. lia. }
  rewrite !slice_range by lia. rewrite slice_to_end by lia.
  cbn [skipn]. rewrite Nat.sub_0_r.
  exists (firstn (e - (s + length OPEN)) (skipn (s + length OPEN) content)).
  repeat split.
  - rewrite <- (firstn_skipn s content) at 1. f_equal.
    rewrite Hr1. f_equal.
    assert (Er1 : r1 = skipn (s + length OPEN) content).
    { rewrite Nat.add_comm, <- skipn_skipn, Hr1.
      rewrite skipn_app, skipn_all, Nat.sub_diag. reflexivity. }
    rewrite <- Er1.
    rewrite <- (firstn_skipn (e - (s + length OPEN)) r1) at 1. f_equal.
    rewrite Er1, skipn_skipn.
    replace (e - (s + length OPEN) + (s + length OPEN))%nat with e by lia.
    rewrite Hr2. f_equal.
    rewrite Nat.add_comm, <- skipn_skipn, Hr2.
    rewrite skipn_app, skipn_all, Nat.sub_diag. reflexivity.
  - apply indexOf_absent. intros j.
    destruct (startsWith OPEN (skipn j (firstn s content))) eqn:E; [|reflexivity].
    apply (startsWith_in_firstn OPEN content s j OPEN_nonempty) in E.
    destruct E as [Lj E]. rewrite length_firstn in Lj.
    rewrite Ms in E by lia. discriminate.
  - apply indexOf_absent. intros j.
    destruct (startsWith CLOSE (skipn j (firstn s content))) eqn:E; [|reflexivity].
    apply (startsWith_in_firstn CLOSE content s j CLOSE_nonempty) in E.
    destruct E as [Lj E]. rewrite length_firstn in Lj.
    rewrite Me in E by lia. discriminate.
  - apply indexOf_absent. intros j.
    destruct (startsWith CLOSE
                (skipn j (firstn (e - (s + length OPEN))
                            (skipn (s + length OPEN) content)))) eqn:E;
      [|reflexivity].
    apply (startsWith_in_firstn CLOSE _ _ j CLOSE_nonempty) in E.
    destruct E as [Lj E]. rewrite length_firstn, length_skipn in Lj.
    rewrite startsWith_in_skipn in E.
    rewrite Me in E by lia. discriminate.
Qed.

(** X1. A split is a decomposition of the message around its first block:
    the three pieces and the two sentinels put together again give the
    message, the JSON text is the trimmed payload, the text before the block
    contains neither sentinel and the payload does not contain the closing
    one. *)
Theorem splitByProjectPlanTag_decomposes (content : jsstring) (tagged : Tagged) :
  splitByProjectPlanTag content = Some tagged ->
  exists raw,
    content = t_beforeText tagged ++ OPEN ++ raw ++ CLOSE ++ t_afterText tagged
    /\ t_jsonText tagged = trim raw
    /\ indexOf (t_beforeText tagged) OPEN = (-1)%Z
    /\ indexOf (t_beforeText tagged) CLOSE = (-1)%Z
    /\ indexOf raw CLOSE = (-1)%Z.
Proof.
  intros Hsplit. exact (splitByProjectPlanTag_parts content tagged Hsplit).
Qed.

Lemma splitByProjectPlanTag_decomposes_witness :
  exists raw,
    sampleReplyText
    = t_beforeText sampleTagged ++ OPEN ++ raw ++ CLOSE
      ++ t_afterText sampleTagged
    /\ t_jsonText sampleTagged = trim raw
    /\ indexOf (t_beforeText sampleTagged) OPEN = (-1)%Z
    /\ indexOf (t_beforeText sampleTagged) CLOSE = (-1)%Z
    /\ indexOf raw CLOSE = (-1)%Z.
Proof.
  apply (splitByProjectPlanTag_decomposes sampleReplyText sampleTagged).
  vm_compute. reflexivity.
Defined.

(* ===================================================================== *)
(** * More on the extractor *)
(* ===================================================================== *)

(** The extractor, by cases on the split and on the decoding. *)
Lemma parseProjectPlanMessage_cases (content : jsstring) (sideChannel : JsValue) :
  match splitByProjectPlanTag content with
  | None =>
      parseProjectPlanMessage content sideChannel
      = Normal {| beforeText := content; afterText := [];
                  projectPlan := if isProjectPlan sideChannel
                                 then Some sideChannel else None |}
  | Some tagged =>
      match JSON_parse (t_jsonText tagged) with
      | Throw _ =>
          parseProjectPlanMessage content sideChannel
          = Normal {| beforeText := content; afterText := [];
                      projectPlan := None |}
      | Normal parsed =>
          parseProjectPlanMessage content sideChannel
          = Normal {| beforeText := t_beforeText tagged;
                      afterText := t_afterText tagged;
                      projectPlan := if isProjectPlan parsed
                                     then Some parsed else None |}
      end
  end.
Proof.
  unfold parseProjectPlanMessage.
  destruct (splitByProjectPlanTag content) as [tagged|].
  - destruct (JSON_parse (t_jsonText tagged)); reflexivity.
  - destruct (isProjectPlan sideChannel) eqn:E.
    + rewrite (isProjectPlan_truthy _ E). reflexivity.
    + rewrite andb_false_r. reflexivity.
Qed.

(** X2. Extraction never loses or alters text outside one block: either
    the whole message comes back as [beforeText], or the message is
    [beforeText], an opening sentinel, a payload that decodes, a closing
    sentinel and [afterText], and the plan is the decoded value when it
    passes the validator. *)
Theorem parseProjectPlanMessage_keeps_text
        (content : jsstring) (sideChannel : JsValue)
        (r : ParsedProjectPlanMessage) :
  parseProjectPlanMessage content sideChannel = Normal r ->
  (beforeText r = content /\ afterText r = [])
  \/ exists raw parsed,
       content = beforeText r ++ OPEN ++ raw ++ CLOSE ++ afterText r
       /\ JSON_parse (trim raw) = Normal parsed
       /\ projectPlan r = (if isProjectPlan parsed then Some parsed else None).
Proof.
  intros H. pose proof (parseProjectPlanMessage_cases content sideChannel) as C.
  destruct (splitByProjectPlanTag content) as [tagged|] eqn:Hsplit.
  - destruct (splitByProjectPlanTag_parts content tagged Hsplit)
      as [raw [Hc [Hj _]]].
    destruct (JSON_parse (t_jsonText tagged)) as [parsed|e] eqn:J.
    + right. exists raw, parsed. rewrite C in H. inversion H; subst r; clear H.
      cbn [beforeText afterText projectPlan]. rewrite <- Hj.
      repeat split; assumption.
    + left. rewrite C in H. inversion H; subst r. split; reflexivity.
  - left. rewrite C in H. inversion H; subst r. split; reflexivity.
Qed.

Lemma parseProjectPlanMessage_keeps_text_witness :
  (beforeText {| beforeText := lit "X"; afterText := lit "Y";
                 projectPlan := None |} = badShapeMessage
   /\ afterText {| beforeText := lit "X"; afterText := lit "Y";
                   projectPlan := None |} = [])
  \/ exists raw parsed,
       badShapeMessage
       = beforeText {| beforeText := lit "X"; afterText := lit "Y";
                       projectPlan := None |}
         ++ OPEN ++ raw ++ CLOSE
         ++ afterText {| beforeText := lit "X"; afterText := lit "Y";
                         projectPlan := None |}
       /\ JSON_parse (trim raw) = Normal parsed
       /\ projectPlan {| beforeText := lit "X"; afterText := lit "Y";
                         projectPlan := None |}
          = (if isProjectPlan parsed then Some parsed else None).
Proof.
  apply (parseProjectPlanMessage_keeps_text badShapeMessage JUndefined).
  vm_compute. reflexivity.
Defined.

(** X3. The text before the plan never holds a plan of its own: extracting
    again from [beforeText] finds nothing and gives that text back. *)
Theorem beforeText_holds_no_plan
        (content : jsstring) (sideChannel : JsValue)
        (r : ParsedProjectPlanMessage) :
  parseProjectPlanMessage content sideChannel = Normal r ->
  parseProjectPlanMessage (beforeText r) JUndefined
  = Normal {| beforeText := beforeText r; afterText := [];
              projectPlan := None |}.
Proof.
  intros H. pose proof (parseProjectPlanMessage_cases content sideChannel) as C.
  pose proof (parseProjectPlanMessage_cases content JUndefined) as C0.
  destruct (splitByProjectPlanTag content) as [tagged|] eqn:Hsplit.
  - destruct (JSON_parse (t_jsonText tagged)) as [parsed|e] eqn:J.
    + rewrite C in H. inversion H; subst r; clear H. cbn [beforeText].
      destruct (splitByProjectPlanTag_parts content tagged Hsplit)
        as [raw [_ [_ [Hopen _]]]].
      pose proof (parseProjectPlanMessage_cases (t_beforeText tagged) JUndefined)
        as C1.
      rewrite (splitByProjectPlanTag_none (t_beforeText tagged)
                 (or_introl Hopen)) in C1.
      exact C1.
    + rewrite C in H. inversion H; subst r. exact C0.
  - rewrite C in H. inversion H; subst r. exact C0.
Qed.

Lemma beforeText_holds_no_plan_witness :
  parseProjectPlanMessage
    (beforeText {| beforeText := lit "Here is the plan: ";
                   afterText := lit " Good luck!";
                   projectPlan := Some (valueOfPlan samplePlan) |}) JUndefined
  = Normal {| beforeText :=
                beforeText {| beforeText := lit "Here is the plan: ";
                              afterText := lit " Good luck!";
                              projectPlan := Some (valueOfPlan samplePlan) |};
              afterText := [];
              projectPlan := None |}.
Proof.
  apply (beforeText_holds_no_plan
           (lit "Here is the plan: " ++ OPEN ++ validJsonOf samplePlan ++ CLOSE
            ++ lit " Good luck!") JUndefined).
  vm_compute. reflexivity.
Defined.

Lemma isJsonWs_isWhiteSpace (c : codeunit) :
  isJsonWs c = true -> isWhiteSpace c = true.
Proof.
  unfold isJsonWs, isWhiteSpace. intros H.
  repeat (apply orb_true_iff in H; destruct H as [H|H]);
    apply N.eqb_eq in H; subst; reflexivity.
Qed.

Lemma trimStart_head (s : jsstring) (c : codeunit) (r : jsstring) :
  trimStart s = c :: r -> isWhiteSpace c = false.
Proof.
  induction s as [|x s IH]; simpl; [discriminate|].
  destruct (isWhiteSpace x) eqn:E; [exact IH|].
  intros H. inversion H; subst. exact E.
Qed.

(** [trimStart] stops at the first character that is not white space. *)
Lemma trimStart_app_nonws (l : jsstring) (c : codeunit) (m : jsstring) :
  isWhiteSpace c = false ->
  exists t, trimStart (l ++ c :: m) = t ++ c :: m.
Proof.
  intros Hc. induction l as [|x l [t IH]]; simpl.
  - rewrite Hc. exists []. reflexivity.
  - destruct (isWhiteSpace x).
    + exists t. exact IH.
    + exists (x :: l). reflexivity.
Qed.

Lemma trimEnd_head (c : codeunit) (r : jsstring) :
  isWhiteSpace c = false -> exists r', trimEnd (c :: r) = c :: r'.
Proof.
  intros Hc. unfold trimEnd. cbn [rev].
  destruct (trimStart_app_nonws (rev r) c [] Hc) as [t Ht].
  rewrite Ht, rev_app_distr. exists (rev t). reflexivity.
Qed.

(** A trimmed text does not start with white space. *)
Lemma trim_head (s : jsstring) (c : codeunit) (r : jsstring) :
  trim s = c :: r -> isWhiteSpace c = false.
Proof.
  unfold trim. destruct (trimStart s) as [|x s'] eqn:E.
  - discriminate.
  - pose proof (trimStart_head s x s' E) as Hx.
    destruct (trimEnd_head x s' Hx) as [r' Hr']. rewrite Hr'.
    intros H. inversion H; subst. exact Hx.
Qed.

(** An object is only read from a text that starts, after white space,
    with an opening brace. *)
Lemma parseValue_object_head (fuel : nat) (s : jsstring)
      (props : list (jsstring * JsValue)) (rest : jsstring) :
  parseValue fuel s = Some (JObject props, rest) ->
  exists r, skipWs s = 123%N :: r.
Proof.
  destruct fuel as [|fuel]; [discriminate|].
  rewrite parseValue_unfold.
  destruct (skipWs s) as [|c r]; [discriminate|].
  destruct (N.eqb_spec c 91).
  { destruct (skipWs r) as [|c' r']; [discriminate|].
    destruct (c' =? 93)%N; [discriminate|].
    destruct (parseElements (parseValue fuel) (length r) r) as [[? ?]|];
      discriminate. }
  destruct (N.eqb_spec c 123); [subst; intros _; exists r; reflexivity|].
  destruct (c =? 34)%N.
  { destruct (parseChars r) as [[? ?]|]; discriminate. }
  destruct (startsWith (lit "true") (c :: r)); [discriminate|].
  destruct (startsWith (lit "false") (c :: r)); [discriminate|].
  destruct (startsWith (lit "null") (c :: r)); [discriminate|].
  destruct (scanNumber (c :: r)) as [[? ?]|]; discriminate.
Qed.

Lemma skipWs_trimmed (s : jsstring) : skipWs (trim s) = trim s.
Proof.
  destruct (trim s) as [|c r] eqn:E; [reflexivity|].
  pose proof (trim_head s c r E) as Hc. simpl.
  destruct (isJsonWs c) eqn:W; [|reflexivity].
  apply isJsonWs_isWhiteSpace in W. congruence.
Qed.

(** X4. A plan is only ever read from a block whose trimmed payload starts
    with an opening brace: a payload wrapped in a code fence, in quotes or
    in prose never yields a plan. *)
Theorem plan_payload_starts_with_brace
        (content : jsstring) (r : ParsedProjectPlanMessage) (plan : JsValue) :
  parseProjectPlanMessage content JUndefined = Normal r ->
  projectPlan r = Some plan ->
  exists raw rest,
    content = beforeText r ++ OPEN ++ raw ++ CLOSE ++ afterText r
    /\ trim raw = 123%N :: rest.
Proof.
  intros H Hplan.
  pose proof (parseProjectPlanMessage_cases content JUndefined) as C.
  destruct (splitByProjectPlanTag content) as [tagged|] eqn:Hsplit.
  - destruct (splitByProjectPlanTag_parts content tagged Hsplit)
      as [raw [Hc [Hj _]]].
    destruct (JSON_parse (t_jsonText tagged)) as [parsed|e] eqn:J.
    + rewrite C in H. inversion H; subst r; clear H.
      cbn [beforeText afterText projectPlan] in *.
      destruct (isProjectPlan parsed) eqn:Ok; [|discriminate].
      inversion Hplan; subst parsed; clear Hplan.
      apply isProjectPlan_accepts in Ok. destruct Ok as [props [ws [-> _]]].
      rewrite Hj in J. unfold JSON_parse in J.
      destruct (parseValue (S (length (trim raw))) (trim raw))
        as [[v rest]|] eqn:P; [|discriminate].
      destruct (skipWs rest); [|discriminate]. inversion J; subst v.
      apply parseValue_object_head in P. destruct P as [r0 P].
      rewrite skipWs_trimmed in P. exists raw, r0. split; assumption.
    + rewrite C in H. inversion H; subst r. discriminate.
  - rewrite C in H. inversion H; subst r. discriminate.
Qed.

Lemma plan_payload_starts_with_brace_witness :
  exists raw rest,
    lit "A" ++ OPEN ++ validJsonOf samplePlan ++ CLOSE ++ lit "B"
    = beforeText {| beforeText := lit "A"; afterText := lit "B";
                    projectPlan := Some (valueOfPlan samplePlan) |}
      ++ OPEN ++ raw ++ CLOSE
      ++ afterText {| beforeText := lit "A"; afterText := lit "B";
                      projectPlan := Some (valueOfPlan samplePlan) |}
    /\ trim raw = 123%N :: rest.
Proof.
  apply (plan_payload_starts_with_brace
           (lit "A" ++ OPEN ++ validJsonOf samplePlan ++ CLOSE ++ lit "B")
           {| beforeText := lit "A"; afterText := lit "B";
              projectPlan := Some (valueOfPlan samplePlan) |}
           (valueOfPlan samplePlan)).
  - vm_compute. reflexivity.
  - reflexivity.
Defined.

(* ===================================================================== *)
(** * The server's pre-parse and the client's extraction *)
(* ===================================================================== *)

(** The server cuts the same payload out of a reply as the client does. *)
Lemma extractProjectPlanJson_split (content : jsstring) :
  extractProjectPlanJson content
  = match splitByProjectPlanTag content with
    | Some tagged => Some (t_jsonText tagged)
    | None => None
    end.
Proof.
  unfold extractProjectPlanJson, splitByProjectPlanTag.
  change (lit "<project_plan>") with OPEN.
  change (lit "</project_plan>") with CLOSE. cbv zeta.
  destruct ((indexOf content OPEN =? -1) || (indexOf content CLOSE =? -1)
            || (indexOf content CLOSE <=? indexOf content OPEN))%Z;
    reflexivity.
Qed.

(** What the server attaches to a reply: the decoded payload of its first
    block, when there is one, it is not empty and it decodes. *)
Lemma attachProjectPlan_cases (m : StoredMessage) :
  sm_projectPlan m = JUndefined ->
  exists attached,
    attachProjectPlan m
    = Normal {| sm_id := sm_id m; sm_role := sm_role m;
                sm_content := sm_content m; sm_timestamp := sm_timestamp m;
                sm_projectPlan := attached |}
    /\ match splitByProjectPlanTag (sm_content m) with
       | None => attached = JUndefined
       | Some tagged =>
           match JSON_parse (t_jsonText tagged) with
           | Normal parsed => attached = parsed
           | Throw _ => attached = JUndefined
           end
       end.
Proof.
  intros Hplan. unfold attachProjectPlan.
  rewrite extractProjectPlanJson_split.
  assert (Hm : m = {| sm_id := sm_id m; sm_role := sm_role m;
                      sm_content := sm_content m;
                      sm_timestamp := sm_timestamp m;
                      sm_projectPlan := JUndefined |}).
  { destruct m; simpl in *; subst; reflexivity. }
  destruct (splitByProjectPlanTag (sm_content m)) as [tagged|].
  - destruct (truthy (JString (t_jsonText tagged))) eqn:T.
    + destruct (JSON_parse (t_jsonText tagged)) as [parsed|e]; cbn [bind tryCatch].
      * exists parsed. split; reflexivity.
      * exists JUndefined. split; [rewrite Hm at 1; reflexivity | reflexivity].
    + exists JUndefined. split; [rewrite Hm at 1; reflexivity|].
      destruct (t_jsonText tagged); [reflexivity | discriminate].
  - exists JUndefined. split; [rewrite Hm at 1; reflexivity | reflexivity].
Qed.

(** X5. The plan the server attaches to a reply never changes what the
    client extracts from it: with the attached plan as side channel the
    client returns what it returns without any side channel. *)
Theorem attached_plan_never_changes_extraction (m m' : StoredMessage) :
  sm_projectPlan m = JUndefined ->
  attachProjectPlan m = Normal m' ->
  parseProjectPlanMessage (sm_content m') (sm_projectPlan m')
  = parseProjectPlanMessage (sm_content m) JUndefined.
Proof.
  intros Hplan Hattach.
  destruct (attachProjectPlan_cases m Hplan) as [attached [E Hcases]].
  rewrite E in Hattach. inversion Hattach; subst m'; clear Hattach.
  cbn [sm_content sm_projectPlan].
  pose proof (parseProjectPlanMessage_cases (sm_content m) attached) as C.
  pose proof (parseProjectPlanMessage_cases (sm_content m) JUndefined) as C0.
  destruct (splitByProjectPlanTag (sm_content m)) as [tagged|].
  - destruct (JSON_parse (t_jsonText tagged)); congruence.
  - subst attached. reflexivity.
Qed.

Lemma attached_plan_never_changes_extraction_witness :
  parseProjectPlanMessage (sm_content sampleReplyAttached)
    (sm_projectPlan sampleReplyAttached)
  = parseProjectPlanMessage (sm_content sampleReply) JUndefined.
Proof.
  apply (attached_plan_never_changes_extraction sampleReply sampleReplyAttached).
  - reflexivity.
  - vm_compute. reflexivity.
Defined.

(** X6. The client shows a plan for a reply of the server exactly when the
    value the server attached passes the validator, and the plan shown is
    that value. *)
Theorem client_plan_is_attached_plan
        (m m' : StoredMessage) (r : ParsedProjectPlanMessage) :
  sm_projectPlan m = JUndefined ->
  attachProjectPlan m = Normal m' ->
  parseProjectPlanMessage (sm_content m') (sm_projectPlan m') = Normal r ->
  projectPlan r
  = (if isProjectPlan (sm_projectPlan m') then Some (sm_projectPlan m')
     else None).
Proof.
  intros Hplan Hattach Hr.
  destruct (attachProjectPlan_cases m Hplan) as [attached [E Hcases]].
  rewrite E in Hattach. inversion Hattach; subst m'; clear Hattach.
  cbn [sm_content sm_projectPlan] in *.
  pose proof (parseProjectPlanMessage_cases (sm_content m) attached) as C.
  destruct (splitByProjectPlanTag (sm_content m)) as [tagged|].
  - destruct (JSON_parse (t_jsonText tagged)) as [parsed|e].
    + subst attached. rewrite C in Hr. inversion Hr; subst r. reflexivity.
    + subst attached. rewrite C in Hr. inversion Hr; subst r. reflexivity.
  - subst attached. rewrite C in Hr. inversion Hr; subst r. reflexivity.
Qed.

Lemma client_plan_is_attached_plan_witness :
  projectPlan {| beforeText := lit "Here is the plan: ";
                 afterText := lit " Good luck!";
                 projectPlan := Some (valueOfPlan samplePlan) |}
  = (if isProjectPlan (sm_projectPlan sampleReplyAttached)
     then Some (sm_projectPlan sampleReplyAttached) else None).
Proof.
  apply (client_plan_is_attached_plan sampleReply sampleReplyAttached).
  - reflexivity.
  - vm_compute. reflexivity.
  - vm_compute. reflexivity.
Defined.

(* ===================================================================== *)
(** * Rendering the plan *)
(* ===================================================================== *)

Lemma mapResult_ok {A B : Type} (f : A -> result RenderError B)
      (P : B -> Prop) (xs : list A) :
  (forall x, In x xs -> exists y, f x = Ok y /\ P y) ->
  exists ys, mapResult f xs = Ok ys
             /\ Forall P ys /\ length ys = length xs.
Proof.
  induction xs as [|x xs IH]; intros H.
  - exists []. repeat split; constructor.
  - destruct (H x (or_introl eq_refl)) as [y [Hy Py]].
    destruct IH as [ys [Hys [Pys L]]].
    { intros z Hz. apply H. right. exact Hz. }
    exists (y :: ys). cbn [mapResult]. rewrite Hy, Hys.
    repeat split; [constructor; assumption | simpl; congruence].
Qed.

Lemma mapResult_map {A B : Type} (f : A -> result RenderError B)
      (g : A -> B) (xs : list A) :
  (forall x, f x = Ok (g x)) -> mapResult f xs = Ok (map g xs).
Proof.
  intros H. induction xs as [|x xs IH]; [reflexivity|].
  cbn [mapResult map]. rewrite H, IH. reflexivity.
Qed.

Lemma NonEmptyText_showsText (v : JsValue) : NonEmptyText v -> showsText v.
Proof. intros H. exact H. Qed.

Lemma deliverableView_shape (d : JsValue) :
  DeliverableShape d ->
  exists view, deliverableView d = Ok view /\ deliverableShown view.
Proof.
  intros [props [t [desc [-> [Ht [Ht' [Hd Hd']]]]]]].
  eexists. split; [reflexivity|].
  unfold deliverableShown. cbn [dv_title dv_description getProp].
  rewrite Ht, Hd. split; assumption.
Qed.

Lemma workstreamView_shape (ws : JsValue) :
  WorkstreamShape ws ->
  exists view, workstreamView ws = Ok view /\ workstreamShown view.
Proof.
  intros [props [t [desc [ds [-> [Ht [Ht' [Hd [Hd' [Hds Hall]]]]]]]]]].
  destruct (mapResult_ok deliverableView deliverableShown ds)
    as [views [Hviews [Pviews _]]].
  { intros d Hd0. apply deliverableView_shape.
    rewrite Forall_forall in Hall. exact (Hall d Hd0). }
  unfold workstreamView. cbn [isNullish getProp]. rewrite Hds, Hviews.
  eexists. split; [reflexivity|].
  unfold workstreamShown. cbn [wv_summary wv_description wv_deliverables].
  rewrite Ht, Hd. repeat split; assumption.
Qed.

(** The preview of a value the validator accepts. *)
Lemma ProjectPlanPreview_valid (plan : JsValue) :
  isProjectPlan plan = true ->
  exists view, ProjectPlanPreview plan = Ok view
               /\ regionShown (RenderedPlan view).
Proof.
  intros H. apply isProjectPlan_accepts in H.
  destruct H as [props [wss [-> [Hws Hall]]]].
  destruct (mapResult_ok workstreamView workstreamShown wss)
    as [views [Hviews [Pviews L]]].
  { intros w Hw. apply workstreamView_shape.
    rewrite Forall_forall in Hall. exact (Hall w Hw). }
  unfold ProjectPlanPreview. cbn [isNullish getProp]. rewrite Hws, Hviews.
  eexists. split; [reflexivity|].
  cbn [regionShown pv_count pv_workstreams]. split; [symmetry; exact L | exact Pviews].
Qed.

Lemma MessageBody_returns (message : Message) :
  exists regions,
    MessageBody message = Normal regions
    /\ forall region, In region regions ->
         match region with
         | TextRegion value => value <> []
         | PlanRegion plan => isProjectPlan plan = true
         end.
Proof.
  unfold MessageBody.
  pose proof (parseProjectPlanMessage_cases (content message)
                (m_projectPlan message)) as C.
  assert (Hparsed : exists parsed,
             parseProjectPlanMessage (content message) (m_projectPlan message)
             = Normal parsed).
  { destruct (splitByProjectPlanTag (content message)) as [tagged|].
    - destruct (JSON_parse (t_jsonText tagged)); eexists; exact C.
    - eexists; exact C. }
  destruct Hparsed as [parsed Hparsed]. rewrite Hparsed. cbn [bind].
  eexists. split; [reflexivity|].
  intros region Hin. rewrite !renderIf_text in Hin.
  apply in_app_or in Hin. destruct Hin as [Hin|Hin].
  - unfold textRegion in Hin. destruct (trim (beforeText parsed)) eqn:E;
      [destruct Hin|]. destruct Hin as [<-|[]]. discriminate.
  - apply in_app_or in Hin. destruct Hin as [Hin|Hin].
    + destruct (projectPlan parsed) as [plan|] eqn:E; [|destruct Hin].
      pose proof (parseProjectPlanMessage_plan_valid _ _ _ _ Hparsed E) as V.
      unfold renderIf in Hin. rewrite (isProjectPlan_truthy _ V) in Hin.
      destruct Hin as [<-|[]]. exact V.
    + unfold textRegion in Hin. destruct (trim (afterText parsed)) eqn:E;
        [destruct Hin|]. destruct Hin as [<-|[]]. discriminate.
Qed.

(** X7. Rendering a message never throws, whatever its text and its
    side-channel plan: the preview only ever receives a value that passed
    the validator, finds every array it maps over, and shows only titles
    and descriptions that are strings and not blank; no text region is
    empty. *)
Theorem renderMessage_never_throws (message : Message) :
  exists rendered,
    renderMessage message = Ok rendered /\ Forall regionShown rendered.
Proof.
  destruct (MessageBody_returns message) as [regions [Hbody Hregions]].
  unfold renderMessage. rewrite Hbody.
  destruct (mapResult_ok renderRegion regionShown regions)
    as [rendered [Hr [Pr _]]].
  - intros region Hin. specialize (Hregions region Hin).
    destruct region as [value|plan].
    + exists (RenderedText value). split; [reflexivity | exact Hregions].
    + destruct (ProjectPlanPreview_valid plan Hregions) as [view [Hv Pv]].
      exists (RenderedPlan view). cbn [renderRegion]. rewrite Hv.
      split; [reflexivity | exact Pv].
  - exists rendered. split; assumption.
Qed.

Lemma deliverableView_valueOf (d : Deliverable) :
  deliverableView (valueOfDeliverable d) = Ok (viewOfDeliverable d).
Proof. reflexivity. Qed.

Lemma workstreamView_valueOf (w : Workstream) :
  workstreamView (valueOfWorkstream w) = Ok (viewOfWorkstream w).
Proof.
  unfold workstreamView, valueOfWorkstream. cbn [isNullish].
  change (getProp _ DELIVERABLES)
    with (JArray (map valueOfDeliverable (w_deliverables w))).
  cbv iota.
  assert (E : mapResult deliverableView
                (map valueOfDeliverable (w_deliverables w))
              = Ok (map viewOfDeliverable (w_deliverables w))).
  { induction (w_deliverables w) as [|d ds IH]; [reflexivity|].
    cbn [map mapResult]. rewrite deliverableView_valueOf, IH. reflexivity. }
  rewrite E. reflexivity.
Qed.

(** X8. The preview of a plan shows the number of its workstreams, the
    word [workstream] in the singular exactly when there is one, and one
    panel per workstream in the order of the plan, each with its title, its
    description and its deliverables in order. *)
Theorem ProjectPlanPreview_of_plan (p : ProjectPlan) :
  ProjectPlanPreview (valueOfPlan p) = Ok (viewOfPlan p)
  /\ pv_count (viewOfPlan p) = length (workstreams p)
  /\ map wv_summary (pv_workstreams (viewOfPlan p))
     = map (fun w => JString (w_title w)) (workstreams p)
  /\ (pv_suffix (viewOfPlan p) = [] <-> length (workstreams p) = 1%nat).
Proof.
  repeat split.
  - unfold ProjectPlanPreview, valueOfPlan. cbn [isNullish].
    change (getProp _ WORKSTREAMS)
      with (JArray (map valueOfWorkstream (workstreams p))).
    cbv iota.
    assert (E : mapResult workstreamView
                  (map valueOfWorkstream (workstreams p))
                = Ok (map viewOfWorkstream (workstreams p))).
    { induction (workstreams p) as [|w ws IH]; [reflexivity|].
      cbn [map mapResult]. rewrite workstreamView_valueOf, IH. reflexivity. }
    rewrite E, length_map. reflexivity.
  - cbn [viewOfPlan pv_workstreams]. rewrite map_map. reflexivity.
  - cbn [viewOfPlan pv_suffix].
    destruct (Nat.eqb_spec (length (workstreams p)) 1); [auto | discriminate].
  - intros H. cbn [viewOfPlan pv_suffix]. rewrite H. reflexivity.
Qed.

(* ===================================================================== *)
(** * The chat store *)
(* ===================================================================== *)

Section MapFacts.
Variable V : Type.

Lemma mapGet_mapSet_same (k : jsstring) (v : V) (m : list (jsstring * V)) :
  mapGet k (mapSet k v m) = Some v.
Proof.
  induction m as [|[k' v'] m IH]; simpl.
  - rewrite jsstring_eqb_refl. reflexivity.
  - destruct (jsstring_eqb k k') eqn:E; simpl.
    + rewrite jsstring_eqb_refl. reflexivity.
    + rewrite E. exact IH.
Qed.

Lemma mapGet_mapSet_other (k k0 : jsstring) (v : V) (m : list (jsstring * V)) :
  k0 <> k -> mapGet k0 (mapSet k v m) = mapGet k0 m.
Proof.
  intros Hne. apply jsstring_eqb_neq in Hne.
  induction m as [|[k' v'] m IH]; simpl.
  - rewrite Hne. reflexivity.
  - destruct (jsstring_eqb k k') eqn:E; simpl.
    + apply jsstring_eqb_eq in E. subst k'. rewrite Hne. reflexivity.
    + destruct (jsstring_eqb k0 k'); [reflexivity | exact IH].
Qed.

Lemma mapSet_fresh (k : jsstring) (v : V) (m : list (jsstring * V)) :
  ~ In k (map fst m) -> mapSet k v m = m ++ [(k, v)].
Proof.
  induction m as [|[k' v'] m IH]; intros H; simpl.
  - reflexivity.
  - simpl in H. destruct (jsstring_eqb k k') eqn:E.
    + apply jsstring_eqb_eq in E. subst. tauto.
    + rewrite IH by tauto. reflexivity.
Qed.

Lemma mapGet_mapUpdate_same (k : jsstring) (f : V -> V)
      (m : list (jsstring * V)) :
  mapGet k (mapUpdate k f m) = option_map f (mapGet k m).
Proof.
  induction m as [|[k' v'] m IH]; simpl; [reflexivity|].
  destruct (jsstring_eqb k k') eqn:E; simpl; rewrite E; [reflexivity | exact IH].
Qed.

Lemma mapGet_mapUpdate_other (k k0 : jsstring) (f : V -> V)
      (m : list (jsstring * V)) :
  k0 <> k -> mapGet k0 (mapUpdate k f m) = mapGet k0 m.
Proof.
  intros Hne. apply jsstring_eqb_neq in Hne.
  induction m as [|[k' v'] m IH]; simpl; [reflexivity|].
  destruct (jsstring_eqb k k') eqn:E; simpl.
  - apply jsstring_eqb_eq in E. subst k'. rewrite Hne. reflexivity.
  - destruct (jsstring_eqb k0 k'); [reflexivity | exact IH].
Qed.

Lemma mapUpdate_keys (k : jsstring) (f : V -> V) (m : list (jsstring * V)) :
  map fst (mapUpdate k f m) = map fst m.
Proof.
  induction m as [|[k' v'] m IH]; simpl; [reflexivity|].
  destruct (jsstring_eqb k k'); simpl; [reflexivity | rewrite IH; reflexivity].
Qed.

Lemma mapGet_none_keys (k : jsstring) (m : list (jsstring * V)) :
  mapGet k m = None <-> ~ In k (map fst m).
Proof.
  induction m as [|[k' v'] m IH]; simpl.
  - tauto.
  - destruct (jsstring_eqb k k') eqn:E.
    + apply jsstring_eqb_eq in E. subst. split; [discriminate | tauto].
    + apply jsstring_eqb_neq in E. rewrite IH. split.
      * intros H [H'|H']; [congruence | tauto].
      * tauto.
Qed.
End MapFacts.

(** X9. A chat that was created is found under its identifier, with no
    message and the creation time as both of its times; [GET] on it
    answers 200 with that chat; every other identifier finds what it found
    before. *)
Theorem createChatRoute_then_getChat
        (body : JsValue) (id : jsstring) (now : Z) (st : ChatStore) :
  exists chat,
    createChatRoute body id now st
    = ({| statusCode := 201; payload := ChatBody chat |},
       snd (createChatRoute body id now st))
    /\ sc_id chat = id /\ sc_messages chat = []
    /\ sc_createdAt chat = now /\ sc_updatedAt chat = now
    /\ getChatRoute id (snd (createChatRoute body id now st))
       = {| statusCode := 200; payload := ChatBody chat |}
    /\ forall other, other <> id ->
         getChat other (snd (createChatRoute body id now st))
         = getChat other st.
Proof.
  unfold createChatRoute, createChat. cbn [snd].
  eexists. split; [reflexivity|]. cbn [sc_id sc_messages sc_createdAt sc_updatedAt].
  repeat split.
  - unfold getChatRoute, getChat. cbn [chats].
    rewrite mapGet_mapSet_same. reflexivity.
  - intros other Hne. unfold getChat. cbn [chats].
    apply mapGet_mapSet_other. exact Hne.
Qed.




Lemma createChat_keys_fresh (id : jsstring) (now : Z) (name : JsValue)
      (st : ChatStore) :
  ~ In id (map fst (chats st)) ->
  map fst (chats (snd (createChat id now name st)))
  = map fst (chats st) ++ [id].
Proof.
  intros H. unfold createChat. cbn [snd chats].
  rewrite mapSet_fresh by exact H. rewrite map_app. reflexivity.
Qed.

Lemma createChat_ids (id : jsstring) (now : Z) (name : JsValue)
      (st : ChatStore) :
  ~ In id (map fst (chats st)) ->
  map sc_id (getAllChats (snd (createChat id now name st)))
  = map sc_id (getAllChats st) ++ [id].
Proof.
  intros H. unfold getAllChats, createChat. cbn [snd chats].
  rewrite mapSet_fresh by exact H. rewrite !map_app. reflexivity.
Qed.

Lemma createAll_listing (requests : list CreateRequest) :
  forall st,
    NoDup (map fst (chats st) ++ map cr_id requests) ->
    map fst (chats (createAll requests st))
    = map fst (chats st) ++ map cr_id requests
    /\ map sc_id (getAllChats (createAll requests st))
       = map sc_id (getAllChats st) ++ map cr_id requests.
Proof.
  unfold createAll.
  induction requests as [|r requests IH]; intros st Hnd; cbn [fold_left map].
  - rewrite !app_nil_r. split; reflexivity.
  - cbn [map] in Hnd.
    assert (Hfresh : ~ In (cr_id r) (map fst (chats st))).
    { apply NoDup_remove_2 in Hnd. intros Hin. apply Hnd.
      apply in_or_app. left. exact Hin. }
    pose proof (createChat_keys_fresh (cr_id r) (cr_now r) (cr_name r) st Hfresh)
      as Hk.
    pose proof (createChat_ids (cr_id r) (cr_now r) (cr_name r) st Hfresh)
      as Hi.
    destruct (IH (snd (createChat (cr_id r) (cr_now r) (cr_name r) st)))
      as [IH1 IH2].
    { rewrite Hk, <- app_assoc. exact Hnd. }
    rewrite IH1, IH2, Hk, Hi, <- !app_assoc. split; reflexivity.
Qed.

(** X11. [GET /api/chats] lists the chats in the order of their creation:
    after creations with distinct identifiers on a fresh store, the chats
    listed are those created, first created first. *)
Theorem getChatsRoute_lists_in_creation_order (requests : list CreateRequest) :
  NoDup (map cr_id requests) ->
  exists all,
    getChatsRoute (createAll requests emptyStore)
    = {| statusCode := 200; payload := ChatsBody all |}
    /\ map sc_id all = map cr_id requests.
Proof.
  intros Hnd. exists (getAllChats (createAll requests emptyStore)).
  split; [reflexivity|].
  destruct (createAll_listing requests emptyStore Hnd) as [_ H].
  exact H.
Qed.

Lemma getChatsRoute_lists_in_creation_order_witness :
  exists all,
    getChatsRoute
      (createAll [ {| cr_id := lit "c1"; cr_now := 1; cr_name := JUndefined |};
                   {| cr_id := lit "c2"; cr_now := 2;
                      cr_name := JString (lit "Mine") |} ] emptyStore)
    = {| statusCode := 200; payload := ChatsBody all |}
    /\ map sc_id all
       = map cr_id
           [ {| cr_id := lit "c1"; cr_now := 1; cr_name := JUndefined |};
             {| cr_id := lit "c2"; cr_now := 2;
                cr_name := JString (lit "Mine") |} ].
Proof.
  apply (getChatsRoute_lists_in_creation_order
           [ {| cr_id := lit "c1"; cr_now := 1; cr_name := JUndefined |};
             {| cr_id := lit "c2"; cr_now := 2;
                cr_name := JString (lit "Mine") |} ]).
  cbn [map cr_id]. repeat constructor; vm_compute; intuition discriminate.
Defined.

(** What [addMessage] does to the store, for use in the proofs below. *)
Lemma addMessage_effect
        (chatId : jsstring) (message : StoredMessage) (now : Z)
        (st : ChatStore) :
  match getChat chatId st with
  | None =>
      addMessage chatId message now st = (Err (ChatNotFoundError chatId), st)
  | Some chat =>
      fst (addMessage chatId message now st) = Ok tt
      /\ getChat chatId (snd (addMessage chatId message now st))
         = Some {| sc_id := sc_id chat;
                   sc_name := sc_name chat;
                   sc_messages := sc_messages chat ++ [message];
                   sc_llmProvider := sc_llmProvider chat;
                   sc_llmModel := sc_llmModel chat;
                   sc_createdAt := sc_createdAt chat;
                   sc_updatedAt := now |}
      /\ (forall other, other <> chatId ->
            getChat other (snd (addMessage chatId message now st))
            = getChat other st)
      /\ map fst (chats (snd (addMessage chatId message now st)))
         = map fst (chats st)
  end.
Proof.
  unfold addMessage, getChat.
  destruct (mapGet chatId (chats st)) as [chat|] eqn:E; [|reflexivity].
  cbn [fst snd chats]. repeat split.
  - rewrite mapGet_mapUpdate_same, E. reflexivity.
  - intros other Hne. apply mapGet_mapUpdate_other. exact Hne.
  - apply mapUpdate_keys.
Qed.

(** X12. [addMessage] on a chat of the store appends the message to the
    messages of that chat and sets its update time, changes nothing else
    of the chat, leaves every other chat and the order of the chats as they
    were; on a missing chat it fails and leaves the store as it was. *)
Theorem addMessage_appends
        (chatId : jsstring) (message : StoredMessage) (now : Z)
        (st : ChatStore) :
  match getChat chatId st with
  | None =>
      addMessage chatId message now st = (Err (ChatNotFoundError chatId), st)
  | Some chat =>
      fst (addMessage chatId message now st) = Ok tt
      /\ getChat chatId (snd (addMessage chatId message now st))
         = Some {| sc_id := sc_id chat;
                   sc_name := sc_name chat;
                   sc_messages := sc_messages chat ++ [message];
                   sc_llmProvider := sc_llmProvider chat;
                   sc_llmModel := sc_llmModel chat;
                   sc_createdAt := sc_createdAt chat;
                   sc_updatedAt := now |}
      /\ (forall other, other <> chatId ->
            getChat other (snd (addMessage chatId message now st))
            = getChat other st)
      /\ map fst (chats (snd (addMessage chatId message now st)))
         = map fst (chats st)
  end.
Proof.
  exact (addMessage_effect chatId message now st).
Qed.

(* ===================================================================== *)
(** * The message route *)
(* ===================================================================== *)

Lemma getProp_string_object (body : JsValue) (k text : jsstring) :
  getProp body k = JString text -> isNullish body = false.
Proof. destruct body; simpl; try discriminate; reflexivity. Qed.

Lemma trim_nonempty_truthy (text : jsstring) :
  trim text <> [] ->
  negb (truthy (JString text)) || (Z.of_nat (length (trim text)) =? 0)%Z
  = false.
Proof.
  intros H. apply orb_false_iff. split.
  - destruct text; [exfalso; apply H; reflexivity | reflexivity].
  - apply Z.eqb_neq. destruct (trim text); [congruence | simpl; lia].
Qed.

(** The first half of the route on a request it accepts. *)
Lemma sendMessageBegin_accepts
      (chatId : jsstring) (body : JsValue) (text uid : jsstring)
      (now1 now2 : Z) (st : ChatStore) (chat : StoredChat) :
  getProp body CONTENT = JString text ->
  trim text <> [] ->
  getChat chatId st = Some chat ->
  sendMessageBegin chatId body uid now1 now2 st
  = (Calls
       {| p_chatId := chatId;
          p_userMessage :=
            {| sm_id := uid; sm_role := User; sm_content := trim text;
               sm_timestamp := now1; sm_projectPlan := JUndefined |};
          p_history :=
            sc_messages chat
            ++ [ {| sm_id := uid; sm_role := User; sm_content := trim text;
                    sm_timestamp := now1; sm_projectPlan := JUndefined |} ];
          p_provider := sc_llmProvider chat;
          p_options :=
            {| systemPrompt :=
                 if isProjectPlanRequest text
                 then Some buildProjectPlanSystemPrompt else None;
               model := sc_llmModel chat |} |},
     snd (addMessage chatId
            {| sm_id := uid; sm_role := User; sm_content := trim text;
               sm_timestamp := now1; sm_projectPlan := JUndefined |}
            now2 st)).
Proof.
  intros Hc Ht Hchat. unfold sendMessageBegin.
  pose proof (getProp_string_object body CONTENT text Hc) as Hbody.
  rewrite Hc, (trim_nonempty_truthy text Ht), Hchat.
  pose proof (addMessage_effect chatId
                {| sm_id := uid; sm_role := User; sm_content := trim text;
                   sm_timestamp := now1; sm_projectPlan := JUndefined |}
                now2 st) as A.
  rewrite Hchat in A. destruct A as [A1 [A2 _]].
  destruct (addMessage chatId _ now2 st) as [[u|e] st'] eqn:E;
    cbn [fst snd] in *; [|discriminate].
  rewrite A2. cbn [sc_messages sc_llmProvider sc_llmModel].
  destruct body; try discriminate; reflexivity.
Qed.




(** X15. A request that carries no text to send, or names a chat that is
    not there, is answered with an error and leaves the store as it was,
    whatever the provider would have done. *)
Theorem sendMessageRoute_rejects
        (llm : Llm) (chatId : jsstring) (body : JsValue)
        (uid aid : jsstring) (now1 now2 now3 now4 : Z) (st : ChatStore) :
  getChat chatId st = None
  \/ (forall text, getProp body CONTENT = JString text -> trim text = []) ->
  exists reply,
    sendMessageRoute llm chatId body uid aid now1 now2 now3 now4 st
    = (reply, st)
    /\ (statusCode reply = 400 \/ statusCode reply = 404
        \/ statusCode reply = 500)%Z.
Proof.
  intros H. unfold sendMessageRoute, sendMessageBegin.
  destruct body as [| |b|lexeme|s|items|props];
    try (eexists; split; [reflexivity | cbn; auto]; fail).
  cbn [getProp] in *.
  destruct (lookup CONTENT props) as [content|];
    [|eexists; split; [reflexivity | cbn; auto]].
  destruct content as [| |b|lexeme|text|items|props'];
    try (eexists; split; [reflexivity | cbn; auto]; fail).
  destruct (negb (truthy (JString text))
            || (Z.of_nat (length (trim text)) =? 0)%Z) eqn:G;
    [eexists; split; [reflexivity | cbn; auto]|].
  destruct H as [H|H].
  - rewrite H. eexists; split; [reflexivity | cbn; auto].
  - exfalso. specialize (H text eq_refl).
    apply orb_false_iff in G. destruct G as [_ G].
    rewrite H in G. discriminate.
Qed.



Lemma sendMessageRoute_rejects_witness :
  exists reply,
    sendMessageRoute answeringLlm (lit "nope") sampleBody (lit "u1") (lit "a1")
      1 2 3 4 sampleStore
    = (reply, sampleStore)
    /\ (statusCode reply = 400 \/ statusCode reply = 404
        \/ statusCode reply = 500)%Z.
Proof.
  apply (sendMessageRoute_rejects answeringLlm (lit "nope") sampleBody
           (lit "u1") (lit "a1") 1 2 3 4 sampleStore).
  left. vm_compute. reflexivity.
Defined.

(* ===================================================================== *)
(** * The model route *)
(* ===================================================================== *)

Lemma providerOf_truthy (v : JsValue) (p : ProviderType) :
  providerOf v = Some p -> truthy v = true.
Proof.
  destruct v as [| |b|lexeme|s|items|props]; simpl; try discriminate.
  destruct s; [discriminate | reflexivity].
Qed.

(** X16. A change of model that names one of the three providers and a
    model that is not blank, on a chat of the store: the reply is 200 with
    the chat, which now has that provider and the trimmed model and is
    otherwise as before but for its update time; no other chat changes; and
    the next message sent to the chat goes to that provider with that
    model. *)
Theorem patchModelRoute_sets_model
        (chatId : jsstring) (body : JsValue) (m : jsstring)
        (p : ProviderType) (now : Z) (st : ChatStore) (chat : StoredChat) :
  providerOf (bodyField body PROVIDER) = Some p ->
  bodyField body MODEL = JString m ->
  trim m <> [] ->
  getChat chatId st = Some chat ->
  exists st',
    patchModelRoute chatId body now st
    = ({| statusCode := 200;
          payload :=
            ChatBody {| sc_id := sc_id chat;
                        sc_name := sc_name chat;
                        sc_messages := sc_messages chat;
                        sc_llmProvider := Some p;
                        sc_llmModel := Some (trim m);
                        sc_createdAt := sc_createdAt chat;
                        sc_updatedAt := now |} |}, st')
    /\ (forall other, other <> chatId -> getChat other st' = getChat other st)
    /\ forall body' text uid now1 now2,
         getProp body' CONTENT = JString text ->
         trim text <> [] ->
         exists call st'',
           sendMessageBegin chatId body' uid now1 now2 st' = (Calls call, st'')
           /\ p_provider call = Some p
           /\ model (p_options call) = Some (trim m).
Proof.
  intros Hp Hm Ht Hchat. unfold patchModelRoute.
  rewrite (providerOf_truthy _ _ Hp), Hp, Hm, (trim_nonempty_truthy m Ht), Hchat.
  unfold updateChat. unfold getChat in Hchat. rewrite Hchat.
  unfold getChat at 1. cbn [chats].
  rewrite mapGet_mapUpdate_same, Hchat. cbn [option_map].
  unfold assignUpdates. cbn [u_id u_name u_messages u_llmProvider u_llmModel
                             u_createdAt orElse].
  eexists. split; [reflexivity|]. split.
  - intros other Hne. unfold getChat. cbn [chats].
    apply mapGet_mapUpdate_other. exact Hne.
  - intros body' text uid now1 now2 Hc Htext.
    match goal with
    | |- context [sendMessageBegin _ _ _ _ _ ?st1] =>
        assert (Hget : getChat chatId st1
                       = Some {| sc_id := sc_id chat;
                                 sc_name := sc_name chat;
                                 sc_messages := sc_messages chat;
                                 sc_llmProvider := Some p;
                                 sc_llmModel := Some (trim m);
                                 sc_createdAt := sc_createdAt chat;
                                 sc_updatedAt := now |});
        [unfold getChat; cbn [chats];
         rewrite mapGet_mapUpdate_same, Hchat; reflexivity|];
        rewrite (sendMessageBegin_accepts chatId body' text uid now1 now2
                   st1 _ Hc Htext Hget)
    end.
    eexists _, _. split; [reflexivity|]. split; reflexivity.
Qed.

Lemma patchModelRoute_sets_model_witness :
  exists st',
    patchModelRoute (lit "c1") samplePatch 5 sampleStore
    = ({| statusCode := 200;
          payload :=
            ChatBody {| sc_id := lit "c1";
                        sc_name := JString (lit "Chat 1");
                        sc_messages := [];
                        sc_llmProvider := Some OpenAI;
                        sc_llmModel := Some (lit "gpt-4o-mini");
                        sc_createdAt := 1700000000000;
                        sc_updatedAt := 5 |} |}, st').
Proof.
  destruct (patchModelRoute_sets_model (lit "c1") samplePatch
              (lit " gpt-4o-mini ") OpenAI 5 sampleStore
              (fst (createChat (lit "c1") 1700000000000 JUndefined emptyStore)))
    as [st' [E _]].
  - reflexivity.
  - reflexivity.
  - vm_compute. discriminate.
  - vm_compute. reflexivity.
  - exists st'. exact E.
Defined.

(** X17. A change of model that names no known provider, or no model, or
    a chat that is not there, is answered 400 or 404 and leaves the store
    as it was. *)
Theorem patchModelRoute_rejects
        (chatId : jsstring) (body : JsValue) (now : Z) (st : ChatStore) :
  providerOf (bodyField body PROVIDER) = None
  \/ (forall m, bodyField body MODEL = JString m -> trim m = [])
  \/ getChat chatId st = None ->
  exists reply,
    patchModelRoute chatId body now st = (reply, st)
    /\ (statusCode reply = 400 \/ statusCode reply = 404)%Z.
Proof.
  intros H. unfold patchModelRoute.
  destruct (if truthy (bodyField body PROVIDER)
            then providerOf (bodyField body PROVIDER) else None) as [p|] eqn:P;
    [|eexists; split; [reflexivity | cbn; auto]].
  assert (Hp : providerOf (bodyField body PROVIDER) = Some p).
  { destruct (truthy (bodyField body PROVIDER)); [exact P | discriminate]. }
  destruct (bodyField body MODEL) as [| |b|lexeme|m|items|props] eqn:M;
    try (eexists; split; [reflexivity | cbn; auto]; fail).
  destruct (negb (truthy (JString m))
            || (Z.of_nat (length (trim m)) =? 0)%Z) eqn:G;
    [eexists; split; [reflexivity | cbn; auto]|].
  destruct H as [H|[H|H]].
  - congruence.
  - exfalso. specialize (H m eq_refl).
    apply orb_false_iff in G. destruct G as [_ G].
    rewrite H in G. discriminate.
  - rewrite H. eexists; split; [reflexivity | cbn; auto].
Qed.

Lemma patchModelRoute_rejects_witness :
  exists reply,
    patchModelRoute (lit "c1")
      (JObject [ (PROVIDER, JString (lit "mistral"));
                 (MODEL, JString (lit "large")) ]) 5 sampleStore
    = (reply, sampleStore)
    /\ (statusCode reply = 400 \/ statusCode reply = 404)%Z.
Proof.
  apply (patchModelRoute_rejects (lit "c1")
           (JObject [ (PROVIDER, JString (lit "mistral"));
                      (MODEL, JString (lit "large")) ]) 5 sampleStore).
  left. reflexivity.
Defined.

(* ===================================================================== *)
(** * What the store always satisfies *)
(* ===================================================================== *)

Lemma trimStart_nonws (c : codeunit) (r : jsstring) :
  isWhiteSpace c = false -> trimStart (c :: r) = c :: r.
Proof. intros H. simpl. rewrite H. reflexivity. Qed.

Lemma trimStart_idem (s : jsstring) : trimStart (trimStart s) = trimStart s.
Proof.
  destruct (trimStart s) as [|c r] eqn:E; [reflexivity|].
  apply trimStart_nonws. exact (trimStart_head s c r E).
Qed.

Lemma trimEnd_idem (s : jsstring) : trimEnd (trimEnd s) = trimEnd s.
Proof.
  unfold trimEnd. rewrite rev_involutive, trimStart_idem. reflexivity.
Qed.

(** Trimming a trimmed text changes nothing. *)
Lemma trim_idem (s : jsstring) : trim (trim s) = trim s.
Proof.
  assert (H : trimStart (trim s) = trim s).
  { destruct (trim s) as [|c r] eqn:E; [reflexivity|].
    apply trimStart_nonws. exact (trim_head s c r E). }
  unfold trim at 1. rewrite H. unfold trim. apply trimEnd_idem.
Qed.

Section MapInvariants.
Variable V : Type.

Lemma In_mapSet (k k0 : jsstring) (v v0 : V) (m : list (jsstring * V)) :
  In (k0, v0) (mapSet k v m) -> (k0 = k /\ v0 = v) \/ In (k0, v0) m.
Proof.
  induction m as [|[k' v'] m IH]; simpl.
  - intros [H|[]]. inversion H; auto.
  - destruct (jsstring_eqb k k'); simpl.
    + intros [H|H]; [inversion H; auto | auto].
    + intros [H|H]; [auto | destruct (IH H); auto].
Qed.

Lemma mapSet_keys (k : jsstring) (v : V) (m : list (jsstring * V)) :
  map fst (mapSet k v m)
  = if existsb (jsstring_eqb k) (map fst m) then map fst m
    else map fst m ++ [k].
Proof.
  induction m as [|[k' v'] m IH]; simpl; [reflexivity|].
  destruct (jsstring_eqb k k') eqn:E; simpl.
  - apply jsstring_eqb_eq in E. subst. reflexivity.
  - rewrite IH. destruct (existsb (jsstring_eqb k) (map fst m)); reflexivity.
Qed.

Lemma NoDup_mapSet (k : jsstring) (v : V) (m : list (jsstring * V)) :
  NoDup (map fst m) -> NoDup (map fst (mapSet k v m)).
Proof.
  intros H. rewrite mapSet_keys.
  destruct (existsb (jsstring_eqb k) (map fst m)) eqn:E; [exact H|].
  apply NoDup_app; [exact H | repeat constructor; intros [] |].
  intros x Hx [Hk|[]]. subst x.
  assert (existsb (jsstring_eqb k) (map fst m) = true).
  { apply existsb_exists. exists k. split; [exact Hx | apply jsstring_eqb_refl]. }
  congruence.
Qed.

Lemma In_mapUpdate (k k0 : jsstring) (f : V -> V) (v0 : V)
      (m : list (jsstring * V)) :
  In (k0, v0) (mapUpdate k f m) ->
  In (k0, v0) m \/ (k0 = k /\ exists v, In (k, v) m /\ v0 = f v).
Proof.
  induction m as [|[k' v'] m IH]; simpl; [tauto|].
  destruct (jsstring_eqb k k') eqn:E; simpl.
  - apply jsstring_eqb_eq in E. subst k'.
    intros [H|H]; [|auto]. inversion H; subst.
    right. split; [reflexivity|]. exists v'. auto.
  - intros [H|H]; [auto|].
    destruct (IH H) as [H'|[-> [v [Hv ->]]]]; [auto|].
    right. split; [reflexivity|]. exists v. auto.
Qed.

Lemma mapGet_In (k : jsstring) (v : V) (m : list (jsstring * V)) :
  mapGet k m = Some v -> In (k, v) m.
Proof.
  induction m as [|[k' v'] m IH]; simpl; [discriminate|].
  destruct (jsstring_eqb k k') eqn:E.
  - apply jsstring_eqb_eq in E. subst. intros H; inversion H; auto.
  - auto.
Qed.
End MapInvariants.

Lemma storeOk_update (k : jsstring) (f : StoredChat -> StoredChat)
      (st : ChatStore) (n : N) :
  (forall chat, chatOk k chat -> chatOk k (f chat)) ->
  storeOk st ->
  storeOk {| chats := mapUpdate k f (chats st); chatCounter := n |}.
Proof.
  intros Hf [Hnd Hall]. split; cbn [chats].
  - rewrite mapUpdate_keys. exact Hnd.
  - intros key chat Hin. apply In_mapUpdate in Hin.
    destruct Hin as [Hin|[-> [c [Hc ->]]]]; [exact (Hall _ _ Hin)|].
    apply Hf. exact (Hall _ _ Hc).
Qed.

Lemma storeOk_addMessage (k : jsstring) (m : StoredMessage) (now : Z)
      (st : ChatStore) :
  messageOk m -> storeOk st -> storeOk (snd (addMessage k m now st)).
Proof.
  intros Hm Hst. unfold addMessage.
  destruct (mapGet k (chats st)); [|exact Hst]. cbn [snd].
  apply storeOk_update; [|exact Hst].
  intros chat [H1 [H2 [H3 H4]]]. repeat split; try assumption.
  cbn [pushMessage sc_messages]. apply Forall_app. split; [exact H3|].
  constructor; [exact Hm | constructor].
Qed.

Lemma storeOk_createChat (id : jsstring) (now : Z) (name : JsValue)
      (st : ChatStore) :
  storeOk st -> storeOk (snd (createChat id now name st)).
Proof.
  intros [Hnd Hall]. unfold createChat. cbn [snd]. split; cbn [chats].
  - apply NoDup_mapSet. exact Hnd.
  - intros key chat Hin. apply In_mapSet in Hin.
    destruct Hin as [[-> ->]|Hin]; [|exact (Hall _ _ Hin)].
    repeat split.
    + cbn [sc_name]. destruct (truthy name) eqn:T; [exact T | reflexivity].
    + constructor.
Qed.

Lemma storeOk_patch (chatId : jsstring) (body : JsValue) (now : Z)
      (st : ChatStore) :
  storeOk st -> storeOk (snd (patchModelRoute chatId body now st)).
Proof.
  intros Hst. unfold patchModelRoute.
  destruct (if truthy (bodyField body PROVIDER)
            then providerOf (bodyField body PROVIDER) else None) as [p|];
    [|exact Hst].
  destruct (bodyField body MODEL) as [| |b|lexeme|m|items|props];
    try exact Hst.
  destruct (negb (truthy (JString m))
            || (Z.of_nat (length (trim m)) =? 0)%Z) eqn:G; [exact Hst|].
  destruct (getChat chatId st) as [chat|] eqn:Hchat; [|exact Hst].
  assert (Hup : storeOk (snd (updateChat chatId
                   {| u_id := None; u_name := None; u_messages := None;
                      u_llmProvider := Some p; u_llmModel := Some (trim m);
                      u_createdAt := None; u_updatedAt := None |} now st))).
  { unfold updateChat. destruct (mapGet chatId (chats st)); [|exact Hst].
    cbn [snd]. apply storeOk_update; [|exact Hst].
    intros c [H1 [H2 [H3 H4]]].
    split; [exact H1|]. split; [exact H2|]. split; [exact H3|].
    unfold modelOk. cbn [assignUpdates sc_llmProvider sc_llmModel
                         u_llmProvider u_llmModel].
    split; [apply trim_idem|].
    apply orb_false_iff in G. destruct G as [_ G]. apply Z.eqb_neq in G.
    intros E. rewrite E in G. apply G. reflexivity. }
  destruct (updateChat chatId _ now st) as [[u|e] st'];
    cbn [snd] in *; [|exact Hup].
  destruct (getChat chatId st'); exact Hup.
Qed.

Lemma storeOk_begin (chatId : jsstring) (body : JsValue) (uid : jsstring)
      (now1 now2 : Z) (st : ChatStore) :
  storeOk st -> storeOk (snd (sendMessageBegin chatId body uid now1 now2 st)).
Proof.
  intros Hst. unfold sendMessageBegin.
  destruct body as [| |b|lexeme|s|items|props]; try exact Hst;
    (destruct (getProp _ CONTENT) as [| |b'|lexeme'|text|items'|props'];
     try exact Hst;
     destruct (negb (truthy (JString text))
               || (Z.of_nat (length (trim text)) =? 0)%Z) eqn:G;
     [exact Hst|];
     destruct (getChat chatId st) as [chat|]; [|exact Hst];
     assert (Hadd : storeOk (snd (addMessage chatId
                       {| sm_id := uid; sm_role := User;
                          sm_content := trim text; sm_timestamp := now1;
                          sm_projectPlan := JUndefined |} now2 st)));
     [ apply storeOk_addMessage; [|exact Hst];
       unfold messageOk; cbn [sm_role sm_projectPlan sm_content];
       split; [reflexivity|]; split; [apply trim_idem|];
       apply orb_false_iff in G; destruct G as [_ G]; apply Z.eqb_neq in G;
       intros E; rewrite E in G; apply G; reflexivity
     | destruct (addMessage chatId _ now2 st) as [[u|e] st'];
       cbn [snd] in *; [|exact Hadd];
       destruct (getChat chatId st'); exact Hadd ]).
Qed.

Lemma messageOk_attached (m m' : StoredMessage) :
  sm_role m = Assistant ->
  sm_projectPlan m = JUndefined ->
  attachProjectPlan m = Normal m' ->
  messageOk m'.
Proof.
  intros Hrole Hplan Hattach.
  destruct (attachProjectPlan_cases m Hplan) as [attached [E _]].
  destruct m as [i r c t p]. cbn [sm_id sm_role sm_content sm_timestamp
                                  sm_projectPlan] in *. subst r p.
  rewrite E in Hattach. inversion Hattach; subst m'; clear Hattach.
  unfold messageOk, clearPlan.
  cbn [sm_id sm_role sm_content sm_timestamp sm_projectPlan].
  exact E.
Qed.

Lemma storeOk_finish (call : PendingCall) (answer : LlmResult)
      (aid : jsstring) (now3 now4 : Z) (st : ChatStore) :
  storeOk st -> storeOk (snd (sendMessageFinish call answer aid now3 now4 st)).
Proof.
  intros Hst. unfold sendMessageFinish.
  destruct answer as [text|].
  - destruct (attachProjectPlan
                {| sm_id := aid; sm_role := Assistant; sm_content := text;
                   sm_timestamp := now3; sm_projectPlan := JUndefined |})
      as [attached|e] eqn:A; [|exact Hst].
    assert (Hadd : storeOk (snd (addMessage (p_chatId call) attached now4 st))).
    { apply storeOk_addMessage; [|exact Hst].
      exact (messageOk_attached
               {| sm_id := aid; sm_role := Assistant; sm_content := text;
                  sm_timestamp := now3; sm_projectPlan := JUndefined |}
               attached eq_refl eq_refl A). }
    destruct (addMessage (p_chatId call) attached now4 st) as [[u|e] st'];
      exact Hadd.
  - cbn [snd]. apply storeOk_update; [|exact Hst].
    intros chat [H1 [H2 [H3 H4]]]. repeat split; try assumption.
    cbn [dropMessage sc_messages].
    rewrite Forall_forall in *. intros m Hm.
    apply filter_In in Hm. destruct Hm as [Hm _]. exact (H3 m Hm).
Qed.

Lemma storeOk_step (s : ServerStep) (st : ChatStore) :
  storeOk st -> storeOk (step s st).
Proof.
  intros Hst. destruct s; cbn [step].
  - unfold createChatRoute.
    destruct (createChat id now (bodyField body NAME) st) as [chat st'] eqn:E.
    cbn [snd]. change st' with (snd (chat, st')). rewrite <- E.
    apply storeOk_createChat. exact Hst.
  - apply storeOk_patch. exact Hst.
  - apply storeOk_begin. exact Hst.
  - apply storeOk_finish. exact Hst.
Qed.

(** Every store the server reaches is well formed. *)
Lemma storeOk_run (steps : list ServerStep) : storeOk (run steps).
Proof.
  unfold run.
  assert (H : forall st, storeOk st ->
                         storeOk (fold_left (fun st s => step s st) steps st)).
  { induction steps as [|s steps IH]; intros st Hst; cbn [fold_left].
    - exact Hst.
    - apply IH. apply storeOk_step. exact Hst. }
  apply H. split; [constructor | intros key chat []].
Qed.

(** The extraction from a reply does not depend on the plan attached to
    it. *)
Lemma extraction_ignores_attached (m m' : StoredMessage) :
  sm_projectPlan m = JUndefined ->
  attachProjectPlan m = Normal m' ->
  parseProjectPlanMessage (sm_content m') (sm_projectPlan m')
  = parseProjectPlanMessage (sm_content m) JUndefined.
Proof.
  intros Hplan Hattach.
  destruct (attachProjectPlan_cases m Hplan) as [attached [E Hcases]].
  rewrite E in Hattach. inversion Hattach; subst m'; clear Hattach.
  cbn [sm_content sm_projectPlan].
  pose proof (parseProjectPlanMessage_cases (sm_content m) attached) as C.
  pose proof (parseProjectPlanMessage_cases (sm_content m) JUndefined) as C0.
  destruct (splitByProjectPlanTag (sm_content m)) as [tagged|].
  - destruct (JSON_parse (t_jsonText tagged)); congruence.
  - subst attached. reflexivity.
Qed.

(** X18. Whatever requests the server has served, in whatever order and
    with whatever answers of the provider, every user message it holds has
    a text that is trimmed and not empty and carries no plan. *)
Theorem stored_user_messages_are_trimmed
        (steps : list ServerStep) (chatId : jsstring) (chat : StoredChat)
        (m : StoredMessage) :
  getChat chatId (run steps) = Some chat ->
  In m (sc_messages chat) ->
  sm_role m = User ->
  trim (sm_content m) = sm_content m
  /\ sm_content m <> []
  /\ sm_projectPlan m = JUndefined.
Proof.
  intros Hchat Hm Hrole.
  destruct (storeOk_run steps) as [_ Hall].
  destruct (Hall chatId chat (mapGet_In _ _ _ _ Hchat)) as [_ [_ [Hmsgs _]]].
  rewrite Forall_forall in Hmsgs. specialize (Hmsgs m Hm).
  unfold messageOk in Hmsgs. rewrite Hrole in Hmsgs. tauto.
Qed.

(** X19. Whatever requests the server has served, the client extracts from
    every message it holds the same text and the same plan whether or not
    it is handed the plan stored with the message. *)
Theorem stored_plan_never_changes_extraction
        (steps : list ServerStep) (chatId : jsstring) (chat : StoredChat)
        (m : StoredMessage) :
  getChat chatId (run steps) = Some chat ->
  In m (sc_messages chat) ->
  parseProjectPlanMessage (sm_content m) (sm_projectPlan m)
  = parseProjectPlanMessage (sm_content m) JUndefined.
Proof.
  intros Hchat Hm.
  destruct (storeOk_run steps) as [_ Hall].
  destruct (Hall chatId chat (mapGet_In _ _ _ _ Hchat)) as [_ [_ [Hmsgs _]]].
  rewrite Forall_forall in Hmsgs. specialize (Hmsgs m Hm).
  unfold messageOk in Hmsgs. destruct (sm_role m).
  - destruct Hmsgs as [Hp _]. rewrite Hp. reflexivity.
  - exact (extraction_ignores_attached (clearPlan m) m eq_refl Hmsgs).
Qed.


Lemma stored_user_messages_are_trimmed_witness :
  trim (sm_content sampleRunUser) = sm_content sampleRunUser
  /\ sm_content sampleRunUser <> []
  /\ sm_projectPlan sampleRunUser = JUndefined.
Proof.
  apply (stored_user_messages_are_trimmed sampleRun (lit "c1") sampleRunChat
           sampleRunUser).
  - vm_compute. reflexivity.
  - left. reflexivity.
  - reflexivity.
Defined.

Lemma stored_plan_never_changes_extraction_witness :
  parseProjectPlanMessage (sm_content sampleRunAssistant)
    (sm_projectPlan sampleRunAssistant)
  = parseProjectPlanMessage (sm_content sampleRunAssistant) JUndefined.
Proof.
  apply (stored_plan_never_changes_extraction sampleRun (lit "c1")
           sampleRunChat sampleRunAssistant).
  - vm_compute. reflexivity.
  - right. left. reflexivity.
Defined.

(* ===================================================================== *)
(** * Chats are never lost *)
(* ===================================================================== *)

Lemma keys_addMessage (k : jsstring) (m : StoredMessage) (now : Z)
      (st : ChatStore) :
  map fst (chats (snd (addMessage k m now st))) = map fst (chats st).
Proof.
  unfold addMessage. destruct (mapGet k (chats st)); [|reflexivity].
  apply mapUpdate_keys.
Qed.

Lemma keys_patch (chatId : jsstring) (body : JsValue) (now : Z)
      (st : ChatStore) :
  map fst (chats (snd (patchModelRoute chatId body now st)))
  = map fst (chats st).
Proof.
  unfold patchModelRoute.
  destruct (if truthy (bodyField body PROVIDER)
            then providerOf (bodyField body PROVIDER) else None) as [p|];
    [|reflexivity].
  destruct (bodyField body MODEL) as [| |b|lexeme|m|items|props];
    try reflexivity.
  destruct (negb (truthy (JString m))
            || (Z.of_nat (length (trim m)) =? 0)%Z); [reflexivity|].
  destruct (getChat chatId st) as [chat|]; [|reflexivity].
  assert (Hup : map fst (chats (snd (updateChat chatId
                   {| u_id := None; u_name := None; u_messages := None;
                      u_llmProvider := Some p; u_llmModel := Some (trim m);
                      u_createdAt := None; u_updatedAt := None |} now st)))
                = map fst (chats st)).
  { unfold updateChat. destruct (mapGet chatId (chats st)); [|reflexivity].
    apply mapUpdate_keys. }
  destruct (updateChat chatId _ now st) as [[u|e] st'];
    cbn [snd] in *; [|exact Hup].
  destruct (getChat chatId st'); exact Hup.
Qed.

Lemma keys_begin (chatId : jsstring) (body : JsValue) (uid : jsstring)
      (now1 now2 : Z) (st : ChatStore) :
  map fst (chats (snd (sendMessageBegin chatId body uid now1 now2 st)))
  = map fst (chats st).
Proof.
  unfold sendMessageBegin.
  destruct body as [| |b|lexeme|s|items|props]; try reflexivity;
    (destruct (getProp _ CONTENT) as [| |b'|lexeme'|text|items'|props'];
     try reflexivity;
     destruct (negb (truthy (JString text))
               || (Z.of_nat (length (trim text)) =? 0)%Z);
     [reflexivity|];
     destruct (getChat chatId st) as [chat|]; [|reflexivity];
     pose proof (keys_addMessage chatId
                   {| sm_id := uid; sm_role := User;
                      sm_content := trim text; sm_timestamp := now1;
                      sm_projectPlan := JUndefined |} now2 st) as Hadd;
     destruct (addMessage chatId _ now2 st) as [[u|e] st'];
     cbn [snd] in *; [|exact Hadd];
     destruct (getChat chatId st'); exact Hadd).
Qed.

Lemma keys_finish (call : PendingCall) (answer : LlmResult)
      (aid : jsstring) (now3 now4 : Z) (st : ChatStore) :
  map fst (chats (snd (sendMessageFinish call answer aid now3 now4 st)))
  = map fst (chats st).
Proof.
  unfold sendMessageFinish. destruct answer as [text|].
  - destruct (attachProjectPlan _) as [attached|e]; [|reflexivity].
    pose proof (keys_addMessage (p_chatId call) attached now4 st) as Hadd.
    destruct (addMessage (p_chatId call) attached now4 st) as [[u|e] st'];
      exact Hadd.
  - apply mapUpdate_keys.
Qed.

Lemma keys_create (body : JsValue) (id : jsstring) (now : Z) (st : ChatStore)
      (k : jsstring) :
  In k (map fst (chats (snd (createChatRoute body id now st))))
  <-> In k (map fst (chats st)) \/ k = id.
Proof.
  unfold createChatRoute, createChat. cbn [snd chats].
  rewrite mapSet_keys.
  destruct (existsb (jsstring_eqb id) (map fst (chats st))) eqn:E.
  - split; [auto|]. intros [H | Hk]; [exact H | subst k].
    apply existsb_exists in E. destruct E as [x [Hx Ex]].
    apply jsstring_eqb_eq in Ex. subst x. exact Hx.
  - rewrite in_app_iff. simpl. intuition.
Qed.

Lemma keys_fold (steps : list ServerStep) (k : jsstring) :
  forall st,
    In k (map fst (chats (fold_left (fun st s => step s st) steps st)))
    <-> In k (map fst (chats st)) \/ In k (createdIds steps).
Proof.
  induction steps as [|s steps IH]; intros st; cbn [fold_left createdIds].
  - simpl. tauto.
  - rewrite IH. destruct s; cbn [step].
    + rewrite keys_create. simpl. intuition.
    + rewrite keys_patch. tauto.
    + rewrite keys_begin. tauto.
    + rewrite keys_finish. tauto.
Qed.

(** X21. A chat is never lost and never appears from nowhere: whatever
    requests the server has served, [GET] on an identifier answers 200
    with a chat exactly when a chat was created under that identifier, and
    404 otherwise. *)
Theorem getChatRoute_finds_created_chats
        (steps : list ServerStep) (chatId : jsstring) :
  (In chatId (createdIds steps) ->
   exists chat,
     getChatRoute chatId (run steps)
     = {| statusCode := 200; payload := ChatBody chat |})
  /\ (~ In chatId (createdIds steps) ->
      getChatRoute chatId (run steps) = chatNotFound chatId).
Proof.
  pose proof (keys_fold steps chatId emptyStore) as K.
  fold (run steps) in K. cbn [emptyStore chats map] in K.
  unfold getChatRoute, getChat. split.
  - intros Hin.
    destruct (mapGet chatId (chats (run steps))) as [chat|] eqn:E.
    + exists chat. reflexivity.
    + exfalso. apply mapGet_none_keys in E. apply E, K. right. exact Hin.
  - intros Hout.
    destruct (mapGet chatId (chats (run steps))) as [chat|] eqn:E;
      [|reflexivity].
    exfalso. apply Hout.
    assert (Hk : In chatId (map fst (chats (run steps)))).
    { apply mapGet_In in E. apply (in_map fst) in E. exact E. }
    apply K in Hk. destruct Hk as [[]|Hk]. exact Hk.
Qed.

(* ===================================================================== *)
(** * Detection and trimming *)
(* ===================================================================== *)

(** What [trimStart] removes is a prefix and what [trimEnd] removes is a
    suffix. *)
Lemma trimStart_suffix (s : jsstring) : exists l, s = l ++ trimStart s.
Proof.
  induction s as [|c s [l IH]]; simpl.
  - exists []. reflexivity.
  - destruct (isWhiteSpace c).
    + exists (c :: l). simpl. f_equal. exact IH.
    + exists []. reflexivity.
Qed.

Lemma trimEnd_prefix (s : jsstring) : exists r, s = trimEnd s ++ r.
Proof.
  unfold trimEnd. destruct (trimStart_suffix (rev s)) as [l Hl].
  exists (rev l). rewrite <- rev_app_distr, <- Hl, rev_involutive. reflexivity.
Qed.

Lemma trim_infix (s : jsstring) : exists l r, s = l ++ trim s ++ r.
Proof.
  destruct (trimStart_suffix s) as [l Hl].
  destruct (trimEnd_prefix (trimStart s)) as [r Hr].
  exists l, r. unfold trim. rewrite <- Hr. exact Hl.
Qed.

Lemma rev_around {A : Type} (L b : list A) (y : A) :
  rev (L ++ y :: b) = rev b ++ y :: rev L.
Proof.
  rewrite rev_app_distr. change (rev (y :: b)) with (rev b ++ [y]).
  rewrite <- app_assoc. reflexivity.
Qed.

(** Trimming keeps whatever lies between two characters that are not
    white space. *)
Lemma trim_keeps_core (a mid b : jsstring) (x y : codeunit) :
  isWhiteSpace x = false -> isWhiteSpace y = false ->
  exists a' b',
    trim (a ++ (x :: mid ++ [y]) ++ b) = a' ++ (x :: mid ++ [y]) ++ b'.
Proof.
  intros Hx Hy. unfold trim.
  assert (E0 : a ++ (x :: mid ++ [y]) ++ b = a ++ x :: (mid ++ y :: b)).
  { cbn [app]. rewrite <- app_assoc. reflexivity. }
  rewrite E0.
  destruct (trimStart_app_nonws a x (mid ++ y :: b) Hx) as [t Ht].
  rewrite Ht. unfold trimEnd.
  assert (E1 : t ++ x :: mid ++ y :: b = (t ++ x :: mid) ++ y :: b).
  { rewrite <- app_assoc. reflexivity. }
  rewrite E1, rev_around.
  destruct (trimStart_app_nonws (rev b) y (rev (t ++ x :: mid)) Hy)
    as [t' Ht'].
  rewrite Ht', rev_around, rev_involutive.
  exists t, (rev t'). rewrite <- !app_assoc. cbn [app].
  rewrite <- !app_assoc. reflexivity.
Qed.

Lemma lower_letter_not_space (c pc : codeunit) :
  isLowerLetter pc -> toLowerAscii c = pc -> isWhiteSpace c = false.
Proof.
  unfold isLowerLetter, toLowerAscii, isWhiteSpace. intros H E.
  destruct ((65 <=? c) && (c <=? 90))%N eqn:U.
  - apply andb_true_iff in U. destruct U as [U1 U2].
    apply N.leb_le in U1. apply N.leb_le in U2.
    repeat (apply orb_false_iff; split);
      try (apply N.eqb_neq; lia);
      apply andb_false_iff; left; apply N.leb_gt; lia.
  - subst pc.
    repeat (apply orb_false_iff; split);
      try (apply N.eqb_neq; lia);
      apply andb_false_iff; left; apply N.leb_gt; lia.
Qed.

(** X22. Trimming a text does not change whether it asks for a project
    plan: the text the route tests and the trimmed text it stores as the
    user message get the same answer. *)
Theorem isProjectPlanRequest_trim (text : jsstring) :
  isProjectPlanRequest (trim text) = isProjectPlanRequest text.
Proof.
  apply eq_true_iff_eq. rewrite !isProjectPlanRequest_iff. split.
  - intros [a [p [w [q [b [E H]]]]]].
    destruct (trim_infix text) as [l [r Ht]].
    exists (l ++ a), p, w, q, (b ++ r). split; [|exact H].
    rewrite Ht, E, <- !app_assoc. reflexivity.
  - intros [a [p [w [q [b [E [Hp [Hne [Hall Hq]]]]]]]]].
    destruct p as [|x p']; [discriminate|].
    assert (Hx : isWhiteSpace x = false).
    { apply (lower_letter_not_space x 112%N); [vm_compute; split; discriminate|].
      simpl in Hp. inversion Hp. reflexivity. }
    destruct (exists_last (l := q)) as [q' [y Eq]].
    { intros ->. discriminate. }
    assert (Hy : isWhiteSpace y = false).
    { apply (lower_letter_not_space y 110%N); [vm_compute; split; discriminate|].
      subst q. rewrite map_app in Hq.
      change (lit "plan") with (lit "pla" ++ [110%N]) in Hq.
      apply app_inj_tail in Hq. destruct Hq as [_ Hq]. exact Hq. }
    destruct (trim_keeps_core a (p' ++ w ++ q') b x y Hx Hy) as [a' [b' Ht]].
    exists a', (x :: p'), w, q, b'. repeat split; try assumption.
    assert (Ecore : x :: (p' ++ w ++ q') ++ [y] = (x :: p') ++ w ++ q).
    { subst q. simpl. rewrite <- !app_assoc. reflexivity. }
    rewrite Ecore in Ht. rewrite E. rewrite <- !app_assoc in Ht. exact Ht.
Qed.

(* ===================================================================== *)
(** * The authentication hook *)
(* ===================================================================== *)

(** X23. Every request whose URL starts with a slash is served as the
    default user, whatever its [Authorization] header and whoever the known
    users are: the table of users is never consulted for it. *)
Theorem preHandler_public_for_every_path
        (inTestUsers : jsstring -> bool) (url : jsstring)
        (authorization : option jsstring) :
  startsWith (lit "/") url = true ->
  preHandler inTestUsers url authorization = SetUser (lit "richard").
Proof.
  intros H. unfold preHandler. cbn [existsb]. rewrite H. reflexivity.
Qed.

Lemma preHandler_public_for_every_path_witness :
  preHandler (fun _ => false) (lit "/user") None = SetUser (lit "richard").
Proof.
  apply (preHandler_public_for_every_path (fun _ => false) (lit "/user") None).
  reflexivity.
Defined.
